(** * generate-fix-dictionary: the FIX Repository to dictionary converter

    A shallow embedding of [tools/generate-fix-dictionary.py].  The five
    repository tables are taken as already read from their XML documents
    (one record per row); everything the script does with them afterwards
    is modelled: the loaders, the content associator, the repeating-group
    identifier, the emitter and the command line driver.

    Python data is modelled as follows.
    - [str] is [string]; a character is a code point below 256.
    - [int] is [Z].
    - [dict] is an association list in insertion order ([PyDict]): assigning
      to an existing key replaces the value where the key already sits,
      assigning to a fresh key appends.
    - An exception that nothing catches ends the run: [result].

    Outside the model: the reading of the XML files and its failures, rows
    that lack the text of a column the script reads without a test, and the
    effect of the files written on what [os.path.exists] answers for the
    repository tree. *)

From Stdlib Require Import List String Ascii ZArith Bool Lia Permutation Sorted.
From Stdlib Require Import DecimalString.
From Stdlib Require DecimalPos DecimalZ Finite.
Import ListNotations.
Open Scope string_scope.
Open Scope list_scope.
Open Scope Z_scope.

(** ** Errors *)

Inductive result (A : Type) : Type :=
| Ok (a : A)
| ValueError.
Arguments Ok {A} a.
Arguments ValueError {A}.

Definition bind {A B} (r : result A) (k : A -> result B) : result B :=
  match r with
  | Ok a => k a
  | ValueError => ValueError
  end.

Notation "'do' x <- r ; k" := (bind r (fun x => k))
  (at level 10, x pattern, r at level 100, k at level 200).

(** A [for] loop whose body may raise. *)
Fixpoint for_each {A S} (body : S -> A -> result S) (l : list A) (s : S) : result S :=
  match l with
  | [] => Ok s
  | x :: l' => do s' <- body s x; for_each body l' s'
  end.

(** ** Python strings and integers *)

Module Py.

Definition chars (s : string) : list ascii := list_ascii_of_string s.

Definition is_decimal (c : ascii) : bool :=
  let n := N_of_ascii c in ((48 <=? n) && (n <=? 57))%N.

(** Below 256 the characters with a digit value are the ten decimal digits
    and the superscripts two, three and one. *)
Definition is_digit_char (c : ascii) : bool :=
  let n := N_of_ascii c in
  (is_decimal c || (n =? 178) || (n =? 179) || (n =? 185))%N.

(** [s.isdigit()] *)
Definition isdigit (s : string) : bool :=
  match chars s with
  | [] => false
  | cs => forallb is_digit_char cs
  end.

Definition digit_value (c : ascii) : Z := Z.of_N (N_of_ascii c) - 48.

(** [int(s)], for [s] on which [isdigit] holds: the superscripts are digits
    for [isdigit] and not for [int], which raises on them.  (The bound some
    interpreters put on the number of digits [int] reads is left out.) *)
Definition int (s : string) : result Z :=
  if forallb is_decimal (chars s)
  then Ok (fold_left (fun acc c => 10 * acc + digit_value c) (chars s) 0)
  else ValueError.

(** [str(n)] *)
Definition str (n : Z) : string := NilZero.string_of_int (Z.to_int n).

(** [len(l)] as printed *)
Definition len {A} (l : list A) : Z := Z.of_nat (List.length l).

(** [s[:n]] *)
Fixpoint take (n : nat) (s : string) : string :=
  match n, s with
  | S n', String c s' => String c (take n' s')
  | _, _ => EmptyString
  end.

(** Truth value of an optional string: [None] and [''] are false. *)
Definition truthy (o : option string) : bool :=
  match o with
  | Some (String _ _) => true
  | _ => false
  end.

(** Truth value of an optional integer: [None] and [0] are false. *)
Definition truthy_int (o : option Z) : bool :=
  match o with
  | Some n => negb (n =? 0)
  | None => false
  end.

(** [s.replace(c, '')] for a one-character [c] *)
Fixpoint remove_char (c : ascii) (s : string) : string :=
  match s with
  | EmptyString => EmptyString
  | String d s' => if Ascii.eqb c d then remove_char c s' else String d (remove_char c s')
  end.

(** [sorted(l, key=key)]: ascending and stable. *)
Section Sorted.
Context {A K : Type} (leb : K -> K -> bool) (key : A -> K).

Fixpoint insert (x : A) (l : list A) : list A :=
  match l with
  | [] => [x]
  | y :: l' => if leb (key x) (key y) then x :: l else y :: insert x l'
  end.

Definition sorted (l : list A) : list A := fold_right insert [] l.
End Sorted.

End Py.

(** ** Python dictionaries *)

Module PyDict.
Section Dict.
Context {K V : Type} (eqb : K -> K -> bool).

Definition t := list (K * V).

(** [d.get(k)] *)
Fixpoint get (k : K) (d : t) : option V :=
  match d with
  | [] => None
  | (k', v) :: d' => if eqb k k' then Some v else get k d'
  end.

(** [k in d] *)
Definition mem (k : K) (d : t) : bool :=
  match get k d with Some _ => true | None => false end.

(** [d[k] = v] *)
Fixpoint set (k : K) (v : V) (d : t) : t :=
  match d with
  | [] => [(k, v)]
  | (k', v') :: d' => if eqb k k' then (k', v) :: d' else (k', v') :: set k v d'
  end.

(** [d[k]] changed in place, the way a method call on [d[k]] changes it *)
Fixpoint modify (k : K) (f : V -> V) (d : t) : t :=
  match d with
  | [] => []
  | (k', v) :: d' => if eqb k k' then (k', f v) :: d' else (k', v) :: modify k f d'
  end.

Definition keys (d : t) : list K := map fst d.
Definition values (d : t) : list V := map snd d.
End Dict.
End PyDict.

Definition sdict (V : Type) := list (string * V).
Definition zdict (V : Type) := list (Z * V).

(** ** The repository tables, one record per row

    [Tag], [Indent] and [Position] hold the integer their text denotes; the
    other columns hold the element's text.  An element the script looks up
    with [find] and tests against [None] is optional here: [SymbolicName]
    and [Description] of an enum row (the element may be absent, and when
    present may be empty), [Indent] and [Position] of a content row. *)

Module Row.
Record Field := mkField { f_Tag : Z; f_Name : string; f_Type : string }.

Record Enum := mkEnum {
  e_Tag : Z;
  e_Value : string;
  e_SymbolicName : option (option string);
  e_Description : option (option string) }.

Record Message := mkMessage {
  m_ComponentID : string; m_MsgType : string; m_Name : string }.

Record Component := mkComponent {
  c_ComponentID : string; c_Name : string; c_ComponentType : string }.

Record MsgContent := mkMsgContent {
  ComponentID : string;
  TagText : string;
  Indent : option Z;
  Position : option Z }.
End Row.

Record Tables := mkTables {
  Fields_xml : list Row.Field;
  Enums_xml : list Row.Enum;
  Messages_xml : list Row.Message;
  Components_xml : list Row.Component;
  MsgContents_xml : list Row.MsgContent }.

(** ** The records the script builds *)

Module Field.
Record t := mk {
  tag : Z;
  name : string;
  type : string;
  enums : sdict (option string) }.
End Field.

Module TagRef.
Record t := mk { tag : Z; indent : Z }.
End TagRef.

(** An entry of a ['groups'] list is one of two dictionaries, told apart by
    the keys they carry. *)
Inductive GroupRef :=
| CountRef (countTag : Z) (countName : string) (indent : Z)
| ComponentRef (componentRef : string) (componentName : string) (indent : Z).

Module Message.
Record t := mk {
  componentId : string;
  msgType : string;
  name : string;
  tags : list TagRef.t;
  groups : list GroupRef }.
End Message.

Module Component.
Record t := mk {
  componentId : string;
  name : string;
  type : string;
  tags : list TagRef.t;
  groups : list GroupRef }.
End Component.

Module Item.
Record t := mk { tagText : string; indent : Z; position : Z }.
End Item.

Module Group.
Record t := mk {
  name : string;
  countTag : Z;
  firstTag : Z;
  memberTags : list Z }.
End Group.

(** ** Loaders *)

Definition parse_fields (rows : list Row.Field) : zdict Field.t :=
  fold_left
    (fun fields field =>
       let tag := Row.f_Tag field in
       PyDict.set Z.eqb tag
         (Field.mk tag (Row.f_Name field) (Row.f_Type field) []) fields)
    rows [].

Definition enum_description (enum : Row.Enum) : option string :=
  match Row.e_SymbolicName enum with
  | Some symbolic_name => symbolic_name
  | None =>
      match Row.e_Description enum with
      | Some desc => desc
      | None => Some (Row.e_Value enum)
      end
  end.

Definition parse_enums (rows : list Row.Enum) (fields : zdict Field.t) : zdict Field.t :=
  fold_left
    (fun fields enum =>
       let tag := Row.e_Tag enum in
       let value := Row.e_Value enum in
       let description := enum_description enum in
       match PyDict.get Z.eqb tag fields with
       | Some f =>
           PyDict.set Z.eqb tag
             (Field.mk (Field.tag f) (Field.name f) (Field.type f)
                (PyDict.set String.eqb value description (Field.enums f)))
             fields
       | None => fields
       end)
    rows fields.

Definition parse_messages (rows : list Row.Message) : sdict Message.t :=
  fold_left
    (fun messages msg =>
       let component_id := Row.m_ComponentID msg in
       PyDict.set String.eqb component_id
         (Message.mk component_id (Row.m_MsgType msg) (Row.m_Name msg) [] [])
         messages)
    rows [].

Definition parse_components (rows : list Row.Component) : sdict Component.t :=
  fold_left
    (fun components comp =>
       let component_id := Row.c_ComponentID comp in
       PyDict.set String.eqb component_id
         (Component.mk component_id (Row.c_Name comp) (Row.c_ComponentType comp) [] [])
         components)
    rows [].

(** ** Content associator

    [messages] and [components] are shared, mutable dictionaries; [target] is
    an alias of one of their records, so an [append] through [target] is a
    change of the store at that key. *)

Record Store := mkStore {
  messages_of : sdict Message.t;
  components_of : sdict Component.t }.

Inductive Target :=
| MessageAt (comp_id : string)
| ComponentAt (comp_id : string).

Definition message_add_tag (r : TagRef.t) (m : Message.t) : Message.t :=
  Message.mk (Message.componentId m) (Message.msgType m) (Message.name m)
    (Message.tags m ++ [r]) (Message.groups m).

Definition message_add_group (g : GroupRef) (m : Message.t) : Message.t :=
  Message.mk (Message.componentId m) (Message.msgType m) (Message.name m)
    (Message.tags m) (Message.groups m ++ [g]).

Definition component_add_tag (r : TagRef.t) (c : Component.t) : Component.t :=
  Component.mk (Component.componentId c) (Component.name c) (Component.type c)
    (Component.tags c ++ [r]) (Component.groups c).

Definition component_add_group (g : GroupRef) (c : Component.t) : Component.t :=
  Component.mk (Component.componentId c) (Component.name c) (Component.type c)
    (Component.tags c) (Component.groups c ++ [g]).

(** [target['tags'].append(r)] *)
Definition append_tag (target : Target) (r : TagRef.t) (st : Store) : Store :=
  match target with
  | MessageAt k =>
      mkStore (PyDict.modify String.eqb k (message_add_tag r) (messages_of st)) (components_of st)
  | ComponentAt k =>
      mkStore (messages_of st) (PyDict.modify String.eqb k (component_add_tag r) (components_of st))
  end.

(** [target['groups'].append(g)] *)
Definition append_group (target : Target) (g : GroupRef) (st : Store) : Store :=
  match target with
  | MessageAt k =>
      mkStore (PyDict.modify String.eqb k (message_add_group g) (messages_of st)) (components_of st)
  | ComponentAt k =>
      mkStore (messages_of st) (PyDict.modify String.eqb k (component_add_group g) (components_of st))
  end.

(** [messages.get(comp_id) or components.get(comp_id)]: a message record is
    a non-empty dictionary, hence true, and wins whenever it exists. *)
Definition resolve_target (comp_id : string) (st : Store) : option Target :=
  match PyDict.get String.eqb comp_id (messages_of st) with
  | Some _ => Some (MessageAt comp_id)
  | None =>
      match PyDict.get String.eqb comp_id (components_of st) with
      | Some _ => Some (ComponentAt comp_id)
      | None => None
      end
  end.

Definition is_envelope (tag_text : string) : bool :=
  String.eqb tag_text "StandardHeader" || String.eqb tag_text "StandardTrailer".

Definition make_item (content : Row.MsgContent) : Item.t :=
  Item.mk (Row.TagText content)
    (match Row.Indent content with Some i => i | None => 0 end)
    (match Row.Position content with Some p => p | None => 0 end).

(** [component_contents[comp_id].append(item)] on a [defaultdict(list)] *)
Definition contents_append (comp_id : string) (item : Item.t)
    (component_contents : sdict (list Item.t)) : sdict (list Item.t) :=
  match PyDict.get String.eqb comp_id component_contents with
  | Some l => PyDict.set String.eqb comp_id (l ++ [item]) component_contents
  | None => PyDict.set String.eqb comp_id [item] component_contents
  end.

Definition group_contents (rows : list Row.MsgContent) : sdict (list Item.t) :=
  fold_left
    (fun component_contents content =>
       contents_append (Row.ComponentID content) (make_item content) component_contents)
    rows [].

Definition sort_by_position (l : list Item.t) : list Item.t :=
  Py.sorted Z.leb Item.position l.

Definition sort_contents (component_contents : sdict (list Item.t)) : sdict (list Item.t) :=
  map (fun '(comp_id, l) => (comp_id, sort_by_position l)) component_contents.

(** The body of the loop over one owner's items. *)
Definition associate_item (fields : zdict Field.t) (target : Target)
    (st : Store) (item : Item.t) : result Store :=
  let tag_text := Item.tagText item in
  let indent := Item.indent item in
  if is_envelope tag_text then Ok st
  else if Py.isdigit tag_text then
    do tag <- Py.int tag_text;
    match PyDict.get Z.eqb tag fields with
    | Some field =>
        if String.eqb (Field.type field) "NumInGroup"
        then Ok (append_group target (CountRef tag (Field.name field) indent) st)
        else Ok (append_tag target (TagRef.mk tag indent) st)
    | None => Ok st
    end
  else
    if existsb (String.eqb tag_text)
         (map Component.name (PyDict.values (components_of st)))
    then
      match find (fun c => String.eqb (Component.name c) tag_text)
              (PyDict.values (components_of st)) with
      | Some ref_comp =>
          Ok (append_group target
                (ComponentRef (Component.componentId ref_comp) tag_text indent) st)
      | None => Ok st
      end
    else Ok st.

(** The body of the loop over the owners. *)
Definition associate_owner (fields : zdict Field.t) (st : Store)
    (entry : string * list Item.t) : result Store :=
  let '(comp_id, contents) := entry in
  match resolve_target comp_id st with
  | None => Ok st
  | Some target => for_each (associate_item fields target) contents st
  end.

Definition parse_msg_contents (rows : list Row.MsgContent) (st : Store)
    (fields : zdict Field.t) : result (Store * sdict (list Item.t)) :=
  let component_contents := sort_contents (group_contents rows) in
  do st' <- for_each (associate_owner fields) component_contents st;
  Ok (st', component_contents).

(** ** Repeating-group identifier *)

Record Scan := mkScan {
  count_tag : option Z;
  first_tag : option Z;
  member_tags : list Z }.

Definition scan_item (fields : zdict Field.t) (s : Scan) (item : Item.t) : result Scan :=
  let tag_text := Item.tagText item in
  if Py.isdigit tag_text then
    do tag <- Py.int tag_text;
    match PyDict.get Z.eqb tag fields with
    | Some field =>
        if String.eqb (Field.type field) "NumInGroup"
           && match count_tag s with None => true | Some _ => false end
        then Ok (mkScan (Some tag) (first_tag s) (member_tags s))
        else if 1 <=? Item.indent item then
          Ok (mkScan (count_tag s)
                (match first_tag s with None => Some tag | Some f => Some f end)
                (member_tags s ++ [tag]))
        else Ok s
    | None => Ok s
    end
  else Ok s.

Definition identify_component (component_contents : sdict (list Item.t))
    (fields : zdict Field.t) (groups : sdict Group.t)
    (entry : string * Component.t) : result (sdict Group.t) :=
  let '(comp_id, comp) := entry in
  if String.eqb (Component.type comp) "BlockRepeating" then
    match PyDict.get String.eqb comp_id component_contents with
    | None | Some [] => Ok groups
    | Some contents =>
        do s <- for_each (scan_item fields) contents (mkScan None None []);
        match count_tag s, first_tag s with
        | Some c, Some f =>
            if Py.truthy_int (Some c) && Py.truthy_int (Some f)
            then Ok (PyDict.set String.eqb (Component.name comp)
                       (Group.mk (Component.name comp) c f (member_tags s)) groups)
            else Ok groups
        | _, _ => Ok groups
        end
    end
  else Ok groups.

Definition identify_repeating_groups (components : sdict Component.t)
    (component_contents : sdict (list Item.t)) (fields : zdict Field.t)
    : result (sdict Group.t) :=
  for_each (identify_component component_contents fields) components [].

(** ** Dictionary emitter *)

(** An [xml.etree] element: tag, attributes in the order they were set,
    children in the order they were added. *)
#[local] Set Warnings "-register-all".
Inductive Element :=
| Elem (tag : string) (attrib : sdict string) (children : list Element).

Definition children_of (e : Element) : list Element :=
  let 'Elem _ _ cs := e in cs.

Definition attrib_of (e : Element) : sdict string :=
  let 'Elem _ a _ := e in a.

Definition attr (k : string) (e : Element) : option string :=
  PyDict.get String.eqb k (attrib_of e).

Definition enum_element (entry : string * option string) : Element :=
  let '(value, desc) := entry in
  Elem "enum"
    [("value", value);
     ("desc", match desc with
              | Some d => if Py.truthy desc then Py.take 100 d else value
              | None => value
              end)]
    [].

Definition field_element (field : Field.t) : Element :=
  Elem "field"
    [("tag", Py.str (Field.tag field));
     ("name", Field.name field);
     ("type", Field.type field)]
    (map enum_element (Py.sorted String.leb fst (Field.enums field))).

Definition fields_section (fields : zdict Field.t) : Element :=
  Elem "fields" []
    (flat_map
       (fun tag =>
          match PyDict.get Z.eqb tag fields with
          | Some field => [field_element field]
          | None => []
          end)
       (Py.sorted Z.leb (fun tag => tag) (PyDict.keys fields))).

Definition member_element (tag : Z) : Element :=
  Elem "member" [("tag", Py.str tag)] [].

Definition group_element (group : Group.t) : Element :=
  Elem "group"
    [("name", Group.name group);
     ("countTag", Py.str (Group.countTag group));
     ("firstTag", Py.str (Group.firstTag group))]
    (map member_element (Group.memberTags group)).

Definition groups_section (groups : sdict Group.t) : Element :=
  Elem "groups" []
    (flat_map
       (fun name =>
          match PyDict.get String.eqb name groups with
          | Some group => [group_element group]
          | None => []
          end)
       (Py.sorted String.leb (fun name => name) (PyDict.keys groups))).

Definition tag_element (tag_info : TagRef.t) : Element :=
  Elem "tag" [("id", Py.str (TagRef.tag tag_info))] [].

Definition group_ref_element (name : string) : Element :=
  Elem "groupRef" [("name", name)] [].

(** One entry of [msg['groups']]: at most one [groupRef]. *)
Definition group_ref_elements (groups : sdict Group.t) (group_info : GroupRef)
    : list Element :=
  match group_info with
  | CountRef count_tag _ _ =>
      match find (fun entry => Group.countTag (snd entry) =? count_tag) groups with
      | Some (group_name, _) => [group_ref_element group_name]
      | None => []
      end
  | ComponentRef _ comp_name _ =>
      if PyDict.mem String.eqb comp_name groups
      then [group_ref_element comp_name]
      else []
  end.

Definition message_element (groups : sdict Group.t) (msg : Message.t) : Element :=
  Elem "message"
    [("msgType", Message.msgType msg); ("name", Message.name msg)]
    (map tag_element (Message.tags msg)
     ++ flat_map (group_ref_elements groups) (Message.groups msg)).

Definition messages_section (messages : sdict Message.t) (groups : sdict Group.t)
    : Element :=
  let msg_type x :=
    match PyDict.get String.eqb x messages with
    | Some m => Message.msgType m
    | None => EmptyString
    end in
  Elem "messages" []
    (flat_map
       (fun comp_id =>
          match PyDict.get String.eqb comp_id messages with
          | Some msg => [message_element groups msg]
          | None => []
          end)
       (Py.sorted String.leb msg_type (PyDict.keys messages))).

(** The element tree [generate_xml] builds before it serialises it. *)
Definition dictionary_element (version : string) (fields : zdict Field.t)
    (messages : sdict Message.t) (groups : sdict Group.t) : Element :=
  Elem "fix-dictionary" [("version", version)]
    [fields_section fields; groups_section groups; messages_section messages groups].

(** ** The run: standard output and the files written *)

Record World := mkWorld {
  stdout : list string;
  files : sdict string;
  made_dirs : list string }.

Definition print (line : string) (w : World) : World :=
  mkWorld (stdout w ++ [line]) (files w) (made_dirs w).

Definition write_file (path content : string) (w : World) : World :=
  mkWorld (stdout w) (PyDict.set String.eqb path content (files w)) (made_dirs w).

Definition makedirs (path : string) (w : World) : World :=
  mkWorld (stdout w) (files w) (made_dirs w ++ [path]).

Definition nl : string := String (ascii_of_nat 10) EmptyString.

Inductive Status :=
| Returned
| SystemExit (code : Z)
| Uncaught.

(** The exit status the operating system sees. *)
Definition exit_status (s : Status) : Z :=
  match s with
  | Returned => 0
  | SystemExit code => code
  | Uncaught => 1
  end.

Definition usage_line : string :=
  "Usage: python generate-fix-dictionary.py <fix-repository-path> <output-dir> [versions...]".

Definition example_line : string :=
  "Example: python generate-fix-dictionary.py C:/fix_repository ./output FIX.4.2 FIX.4.4".

Definition default_versions : list string :=
  ["FIX.4.0"; "FIX.4.1"; "FIX.4.2"; "FIX.4.3"; "FIX.4.4"].

(** Load, associate, identify: everything of [process_version] between the
    existence test and the call of [generate_xml]. *)
Definition load_version (t : Tables)
    : result (zdict Field.t * Store * sdict Group.t) :=
  let fields := parse_fields (Fields_xml t) in
  let fields := parse_enums (Enums_xml t) fields in
  let messages := parse_messages (Messages_xml t) in
  let components := parse_components (Components_xml t) in
  do (st, component_contents) <-
     parse_msg_contents (MsgContents_xml t) (mkStore messages components) fields;
  do groups <- identify_repeating_groups (components_of st) component_contents fields;
  Ok (fields, st, groups).

Section Driver.
(** The operating system and the libraries: [os.path.join],
    [os.path.basename], [os.path.exists] on the repository tree, the five
    tables under a base directory as [ElementTree] reads them, and the
    pretty-printer ([ET.tostring], [minidom], blank lines removed). *)
Variable path_join : string -> string -> string.
Variable basename : string -> string.
Variable path_exists : string -> bool.
Variable tables_at : string -> Tables.
Variable pretty_xml : Element -> string.

Definition generate_xml (version : string) (fields : zdict Field.t)
    (messages : sdict Message.t) (components : sdict Component.t)
    (groups : sdict Group.t) (output_path : string) (w : World) : World :=
  let root := dictionary_element version fields messages groups in
  let w := write_file output_path (pretty_xml root) w in
  let w := print ("Generated " ++ output_path)%string w in
  let w := print ("  Fields: " ++ Py.str (Py.len fields))%string w in
  let w := print ("  Messages: " ++ Py.str (Py.len messages))%string w in
  print ("  Groups: " ++ Py.str (Py.len groups))%string w.

Definition process_version (repo_path version output_dir : string) (w : World)
    : World * Status :=
  let base_path := path_join (path_join repo_path version) "Base" in
  if negb (path_exists base_path) then
    (print ("Warning: " ++ base_path ++ " not found, skipping " ++ version)%string w,
     Returned)
  else
    let w := print (nl ++ "Processing " ++ version ++ "...")%string w in
    match load_version (tables_at base_path) with
    | ValueError => (w, Uncaught)
    | Ok (fields, st, groups) =>
        let output_name := (Py.remove_char "."%char version ++ ".xml")%string in
        let output_path := path_join output_dir output_name in
        (generate_xml version fields (messages_of st) (components_of st) groups
           output_path w,
         Returned)
    end.

(** The loop over the versions; an exception ends the run. *)
Fixpoint process_versions (repo_path output_dir : string) (versions : list string)
    (w : World) : World * Status :=
  match versions with
  | [] => (w, Returned)
  | version :: rest =>
      match process_version repo_path version output_dir w with
      | (w', Returned) => process_versions repo_path output_dir rest w'
      | stopped => stopped
      end
  end.

Definition main (argv : list string) (w : World) : World * Status :=
  if (List.length argv <? 3)%nat then
    (print example_line (print usage_line w), SystemExit 1)
  else
    let repo_path := nth 1 argv EmptyString in
    let output_dir := nth 2 argv EmptyString in
    let versions :=
      if (3 <? List.length argv)%nat then skipn 3 argv else default_versions in
    let inner_path := path_join repo_path (basename repo_path) in
    let repo_path := if path_exists inner_path then inner_path else repo_path in
    if negb (path_exists repo_path) then
      (print ("Error: Repository path not found: " ++ repo_path)%string w,
       SystemExit 1)
    else
      let w := makedirs output_dir w in
      match process_versions repo_path output_dir versions w with
      | (w', Returned) => (print (nl ++ "Done!")%string w', Returned)
      | stopped => stopped
      end.
End Driver.

(** ** Blank lines of the serialised document

    The last step of [generate_xml] before the file is written: the lines
    of the pretty-printed text that hold nothing but white space are taken
    out. *)

Definition newline : ascii := ascii_of_nat 10.

(** [s.split(c)] for a one-character separator *)
Fixpoint split_on (c : ascii) (s : string) : list string :=
  match s with
  | EmptyString => [EmptyString]
  | String d s' =>
      if Ascii.eqb d c then EmptyString :: split_on c s'
      else
        match split_on c s' with
        | first :: rest => String d first :: rest
        | [] => [String d EmptyString]
        end
  end.

(** [c.isspace()] for a code point below 256 *)
Definition isspace (c : ascii) : bool :=
  let n := N_of_ascii c in
  (((9 <=? n) && (n <=? 13)) || ((28 <=? n) && (n <=? 32))
   || (n =? 133) || (n =? 160))%N.

(** [s.lstrip()], [s.rstrip()], [s.strip()] *)
Fixpoint lstrip (s : string) : string :=
  match s with
  | EmptyString => EmptyString
  | String c s' => if isspace c then lstrip s' else s
  end.

Fixpoint rstrip (s : string) : string :=
  match s with
  | EmptyString => EmptyString
  | String c s' =>
      match rstrip s' with
      | EmptyString => if isspace c then EmptyString else String c EmptyString
      | r => String c r
      end
  end.

Definition strip (s : string) : string := rstrip (lstrip s).

(** [[line for line in pretty_xml.split('\n') if line.strip()]] *)
Definition kept_lines (pretty_xml : string) : list string :=
  filter (fun line => Py.truthy (Some (strip line))) (split_on newline pretty_xml).

(** ['\n'.join(lines)] *)
Definition remove_blank_lines (pretty_xml : string) : string :=
  String.concat nl (kept_lines pretty_xml).

(** ** Vocabulary of the statements

    What a content row names. *)

(** The field a row names: its tag-text is numeric and the number is the tag
    of a loaded field. *)
Definition row_tag (fields : zdict Field.t) (item : Item.t) : option Z :=
  if Py.isdigit (Item.tagText item) then
    match Py.int (Item.tagText item) with
    | Ok tag => if PyDict.mem Z.eqb tag fields then Some tag else None
    | ValueError => None
    end
  else None.

(** A count-type row: it names a field whose type is [NumInGroup]. *)
Definition is_count_row (fields : zdict Field.t) (item : Item.t) : bool :=
  match row_tag fields item with
  | Some tag =>
      match PyDict.get Z.eqb tag fields with
      | Some field => String.eqb (Field.type field) "NumInGroup"
      | None => false
      end
  | None => false
  end.

(** The tags of the rows that name a field at depth one or more. *)
Definition members_of (fields : zdict Field.t) (l : list Item.t) : list Z :=
  flat_map
    (fun item =>
       match row_tag fields item with
       | Some tag => if 1 <=? Item.indent item then [tag] else []
       | None => []
       end)
    l.

Definition scan_start : Scan := mkScan None None [].

Definition add_member (tag : Z) (s : Scan) : Scan :=
  mkScan (count_tag s)
    (match first_tag s with None => Some tag | Some f => Some f end)
    (member_tags s ++ [tag]).

(** [g] is what the scan of the repeating component [comp], stored under
    [comp_id], yields: a count tag and a first member were both found. *)
Definition group_from (component_contents : sdict (list Item.t))
    (fields : zdict Field.t) (comp_id : string) (comp : Component.t)
    (g : Group.t) : Prop :=
  Component.type comp = "BlockRepeating"
  /\ Group.name g = Component.name comp
  /\ exists contents s,
       PyDict.get String.eqb comp_id component_contents = Some contents
       /\ for_each (scan_item fields) contents scan_start = Ok s
       /\ count_tag s = Some (Group.countTag g)
       /\ first_tag s = Some (Group.firstTag g)
       /\ member_tags s = Group.memberTags g.

(** The rows of one owner, in file order. *)
Definition rows_of (comp_id : string) (rows : list Row.MsgContent) : list Item.t :=
  map make_item
    (filter (fun content => String.eqb (Row.ComponentID content) comp_id) rows).

(** The items stored for an owner; none when the owner has no entry. *)
Definition owner_items (component_contents : sdict (list Item.t)) (comp_id : string)
    : list Item.t :=
  match PyDict.get String.eqb comp_id component_contents with
  | Some l => l
  | None => []
  end.

(** The identifier of the first component with a given declared name. *)
Definition resolve_name (components : sdict Component.t) (name : string)
    : option string :=
  option_map Component.componentId
    (find (fun c => String.eqb (Component.name c) name) (PyDict.values components)).

(** The scalar reference a row gives: it names a field that is not of the
    count type. *)
Definition item_tag_refs (fields : zdict Field.t) (item : Item.t) : list TagRef.t :=
  match row_tag fields item with
  | Some tag =>
      if is_count_row fields item then [] else [TagRef.mk tag (Item.indent item)]
  | None => []
  end.

(** The group reference a row gives: a group start when it names a field of
    the count type, a component reference when its text, not numeric and not
    an envelope placeholder, is the declared name of a component. *)
Definition item_group_refs (fields : zdict Field.t) (components : sdict Component.t)
    (item : Item.t) : list GroupRef :=
  let tag_text := Item.tagText item in
  if is_envelope tag_text then []
  else if Py.isdigit tag_text then
    match row_tag fields item with
    | Some tag =>
        match PyDict.get Z.eqb tag fields with
        | Some field =>
            if String.eqb (Field.type field) "NumInGroup"
            then [CountRef tag (Field.name field) (Item.indent item)]
            else []
        | None => []
        end
    | None => []
    end
  else
    match resolve_name components tag_text with
    | Some comp_id => [ComponentRef comp_id tag_text (Item.indent item)]
    | None => []
    end.

Definition message_extend (ts : list TagRef.t) (gs : list GroupRef) (m : Message.t)
    : Message.t :=
  Message.mk (Message.componentId m) (Message.msgType m) (Message.name m)
    (Message.tags m ++ ts) (Message.groups m ++ gs).

Definition component_extend (ts : list TagRef.t) (gs : list GroupRef)
    (c : Component.t) : Component.t :=
  Component.mk (Component.componentId c) (Component.name c) (Component.type c)
    (Component.tags c ++ ts) (Component.groups c ++ gs).

(** Several [append]s through one target. *)
Definition extend (target : Target) (ts : list TagRef.t) (gs : list GroupRef)
    (st : Store) : Store :=
  match target with
  | MessageAt k =>
      mkStore (PyDict.modify String.eqb k (message_extend ts gs) (messages_of st))
        (components_of st)
  | ComponentAt k =>
      mkStore (messages_of st)
        (PyDict.modify String.eqb k (component_extend ts gs) (components_of st))
  end.

(** Invariants of the field table: a field is stored under its own tag, and
    the raw values of its enum entries are pairwise different. *)
Definition tags_agree (fields : zdict Field.t) : Prop :=
  forall t f, In (t, f) fields -> Field.tag f = t.

Definition enum_values_distinct (fields : zdict Field.t) : Prop :=
  forall t f, In (t, f) fields -> NoDup (PyDict.keys (Field.enums f)).

(** The repository path [main] settles on: the directory nested under its
    own name when there is one. *)
Definition resolved_repo_path (path_join : string -> string -> string)
    (basename : string -> string) (path_exists : string -> bool)
    (argv : list string) : string :=
  let repo_path := nth 1 argv EmptyString in
  let inner_path := path_join repo_path (basename repo_path) in
  if path_exists inner_path then inner_path else repo_path.


(** The element tree of a version, from its tables. *)
Definition version_document (t : Tables) (version : string) : result Element :=
  do (fields, st, groups) <- load_version t;
  Ok (dictionary_element version fields (messages_of st) groups).

(** Tag-text on which [int] cannot raise: not numeric for [isdigit], or made
    of the ten decimal digits only. *)
Definition plain_text (s : string) : bool :=
  negb (Py.isdigit s) || forallb Py.is_decimal (Py.chars s).

(** The tables without the content rows of the envelope placeholders. *)
Definition keep_row (content : Row.MsgContent) : bool :=
  negb (is_envelope (Row.TagText content)).

Definition keep_item (item : Item.t) : bool :=
  negb (is_envelope (Item.tagText item)).

Definition without_placeholders (t : Tables) : Tables :=
  mkTables (Fields_xml t) (Enums_xml t) (Messages_xml t) (Components_xml t)
    (filter keep_row (MsgContents_xml t)).

(** The store the associator starts from, and the rows it keeps. *)
Definition loaded_store (t : Tables) : Store :=
  mkStore (parse_messages (Messages_xml t)) (parse_components (Components_xml t)).

Definition loaded_contents (t : Tables) : sdict (list Item.t) :=
  sort_contents (group_contents (MsgContents_xml t)).

(** Every row of an owner that resolves to a record has plain tag-text. *)
Definition contents_plain (st : Store) (component_contents : sdict (list Item.t))
    : Prop :=
  forall k l item,
    In (k, l) component_contents ->
    resolve_target k st <> None ->
    In item l ->
    plain_text (Item.tagText item) = true.

(** A scalar reference names a loaded field that is not of the count type.
    A group start names a loaded field of the count type, by its tag and
    name; a component reference names a declared component, by its
    identifier and name, and its name is neither numeric nor a placeholder. *)
Definition valid_tag_ref (fields : zdict Field.t) (r : TagRef.t) : Prop :=
  exists f,
    PyDict.get Z.eqb (TagRef.tag r) fields = Some f
    /\ Field.type f <> "NumInGroup".

Definition valid_group_ref (fields : zdict Field.t) (components : sdict Component.t)
    (g : GroupRef) : Prop :=
  match g with
  | CountRef count_tag count_name _ =>
      exists f,
        PyDict.get Z.eqb count_tag fields = Some f
        /\ Field.type f = "NumInGroup"
        /\ count_name = Field.name f
  | ComponentRef comp_id comp_name _ =>
      is_envelope comp_name = false
      /\ Py.isdigit comp_name = false
      /\ exists c,
           In c (PyDict.values components)
           /\ Component.name c = comp_name
           /\ Component.componentId c = comp_id
  end.

(** The tables with another content table. *)
Definition with_contents (t : Tables) (rows : list Row.MsgContent) : Tables :=
  mkTables (Fields_xml t) (Enums_xml t) (Messages_xml t) (Components_xml t) rows.

(** ** Sample tables

    The end-to-end scenario: a message [NewOrderSingle] that embeds the
    repeating component [OrdersGroup], whose rows are the count field 2 at
    depth 0 and the member field 1 at depth 1. *)

Definition scenario : Tables :=
  mkTables
    [Row.mkField 1 "Account" "STRING"; Row.mkField 2 "NoOrders" "NumInGroup"]
    [Row.mkEnum 1 "A" (Some (Some "AccountA")) None]
    [Row.mkMessage "10" "D" "NewOrderSingle"]
    [Row.mkComponent "20" "OrdersGroup" "BlockRepeating"]
    [Row.mkMsgContent "10" "OrdersGroup" (Some 0) (Some 1);
     Row.mkMsgContent "20" "1" (Some 1) (Some 2);
     Row.mkMsgContent "20" "2" (Some 0) (Some 1)].

Definition scenario_fields : zdict Field.t :=
  parse_enums (Enums_xml scenario) (parse_fields (Fields_xml scenario)).

Definition scenario_components : sdict Component.t :=
  parse_components (Components_xml scenario).

Definition scenario_contents : sdict (list Item.t) :=
  sort_contents (group_contents (MsgContents_xml scenario)).

Definition scenario_group : Group.t := Group.mk "OrdersGroup" 2 1 [1].

(** A repeating component whose count field 2 comes twice: at depth 0, then
    again at depth 1. *)
Definition repeated_count_tables : Tables :=
  mkTables
    [Row.mkField 2 "NoOrders" "NumInGroup"]
    []
    []
    [Row.mkComponent "20" "OrdersGroup" "BlockRepeating"]
    [Row.mkMsgContent "20" "2" (Some 0) (Some 1);
     Row.mkMsgContent "20" "2" (Some 1) (Some 2)].

(** A repeating component with two count-type rows: field 2 at depth 0, then
    field 3 at depth 1. *)
Definition two_counts_fields : zdict Field.t :=
  [(2, Field.mk 2 "NoOrders" "NumInGroup" []);
   (3, Field.mk 3 "NoLegs" "NumInGroup" [])].

Definition two_counts_tables : Tables :=
  mkTables
    [Row.mkField 2 "NoOrders" "NumInGroup"; Row.mkField 3 "NoLegs" "NumInGroup"]
    []
    []
    [Row.mkComponent "20" "OrdersGroup" "BlockRepeating"]
    [Row.mkMsgContent "20" "2" (Some 0) (Some 1);
     Row.mkMsgContent "20" "3" (Some 1) (Some 2)].

(** A message whose three rows come in the file at positions 3, 1, 2. *)
Definition shuffled_tables : Tables :=
  mkTables
    [Row.mkField 11 "ClOrdID" "STRING"; Row.mkField 54 "Side" "CHAR";
     Row.mkField 38 "OrderQty" "QTY"]
    []
    [Row.mkMessage "10" "D" "NewOrderSingle"]
    []
    [Row.mkMsgContent "10" "38" (Some 0) (Some 3);
     Row.mkMsgContent "10" "11" (Some 0) (Some 1);
     Row.mkMsgContent "10" "54" (Some 0) (Some 2)].

(** An identifier that is both a message and a component. *)
Definition shared_id_tables : Tables :=
  mkTables
    [Row.mkField 11 "ClOrdID" "STRING"]
    []
    [Row.mkMessage "10" "D" "NewOrderSingle"]
    [Row.mkComponent "10" "Parties" "Block"]
    [Row.mkMsgContent "10" "11" (Some 0) (Some 1)].

(** An enum entry whose raw value has 101 characters and whose
    [SymbolicName] element is there, and empty. *)
Definition long_value : string := string_of_list_ascii (repeat "A"%char 101).

Definition long_value_fields : list Row.Field := [Row.mkField 1 "Account" "STRING"].

Definition long_value_enums : list Row.Enum :=
  [Row.mkEnum 1 long_value (Some None) None].

Definition scenario_field_element : Element :=
  Elem "field" [("tag", "1"); ("name", "Account"); ("type", "STRING")]
    [Elem "enum" [("value", "A"); ("desc", "AccountA")] []].

(** The document of the end-to-end scenario. *)
Definition scenario_document : Element :=
  Elem "fix-dictionary" [("version", "FIX.4.4")]
    [Elem "fields" []
       [scenario_field_element;
        Elem "field" [("tag", "2"); ("name", "NoOrders"); ("type", "NumInGroup")] []];
     Elem "groups" []
       [Elem "group" [("name", "OrdersGroup"); ("countTag", "2"); ("firstTag", "1")]
          [Elem "member" [("tag", "1")] []]];
     Elem "messages" []
       [Elem "message" [("msgType", "D"); ("name", "NewOrderSingle")]
          [Elem "groupRef" [("name", "OrdersGroup")] []]]].

(** A content row whose tag-text is the superscript two. *)
Definition superscript_two : string := String (ascii_of_nat 178) EmptyString.

(** A message and a component declared under the name of a placeholder, and
    a message with a placeholder row. *)
Definition envelope_tables : Tables :=
  mkTables
    [Row.mkField 11 "ClOrdID" "STRING"]
    []
    [Row.mkMessage "10" "D" "NewOrderSingle"]
    [Row.mkComponent "1" "StandardHeader" "Block";
     Row.mkComponent "2" "StandardTrailer" "BlockRepeating"]
    [Row.mkMsgContent "10" "StandardHeader" (Some 0) (Some 1);
     Row.mkMsgContent "10" "11" (Some 0) (Some 2);
     Row.mkMsgContent "10" "StandardTrailer" (Some 0) (Some 3);
     Row.mkMsgContent "2" "StandardTrailer" (Some 0) (Some 1)].

(** A repeating component with a count row and no other row. *)
Definition count_only_fields : zdict Field.t :=
  [(2, Field.mk 2 "NoOrders" "NumInGroup" [])].

Definition count_only_contents : sdict (list Item.t) :=
  [("20", [Item.mk "2" 0 1])].

Definition count_only_component : Component.t :=
  Component.mk "20" "OrdersGroup" "BlockRepeating" [] [].

(** A message with a row whose tag-text is the superscript two. *)
Definition raising_tables : Tables :=
  mkTables
    [Row.mkField 11 "ClOrdID" "STRING"]
    []
    [Row.mkMessage "10" "D" "NewOrderSingle"]
    []
    [Row.mkMsgContent "10" superscript_two (Some 0) (Some 1)].

(** A small file system and serialiser to run the driver on. *)
Definition sample_join (a b : string) : string := (a ++ "/" ++ b)%string.

Definition sample_basename (path : string) : string := path.

Definition sample_exists (path : string) : bool :=
  String.eqb path "repo" || String.eqb path "repo/FIX.4.4/Base".

Fixpoint sample_pretty_xml (e : Element) : string :=
  match e with
  | Elem tag attrib children =>
      ("<" ++ tag
       ++ String.concat EmptyString
            (map (fun kv => " " ++ fst kv ++ "='" ++ snd kv ++ "'") attrib)
       ++ ">"
       ++ String.concat EmptyString (map sample_pretty_xml children)
       ++ "</" ++ tag ++ ">")%string
  end.

Definition empty_world : World := mkWorld [] [] [].

(** * Properties *)

(** ** Loops *)

Lemma bind_Ok {A B} (r : result A) (k : A -> result B) (b : B) :
  bind r k = Ok b -> exists a, r = Ok a /\ k a = Ok b.
Proof.
  destruct r as [a|]; simpl; intros H; [exists a; auto | discriminate].
Qed.

Lemma for_each_app {A S} (body : S -> A -> result S) (l1 l2 : list A) (s : S) :
  for_each body (l1 ++ l2) s = do s' <- for_each body l1 s; for_each body l2 s'.
Proof.
  revert s; induction l1 as [|x l1 IH]; intros s; simpl; [reflexivity|].
  destruct (body s x); simpl; auto.
Qed.

(** A loop invariant over the items already visited. *)
Lemma for_each_invariant {A S} (body : S -> A -> result S) (P : list A -> S -> Prop) :
  (forall seen s x s', P seen s -> body s x = Ok s' -> P (seen ++ [x]) s') ->
  forall l seen s s',
    P seen s -> for_each body l s = Ok s' -> P (seen ++ l) s'.
Proof.
  intros Hstep l; induction l as [|x l IH]; intros seen s s' HP H; simpl in H.
  - inversion H; subst; rewrite app_nil_r; exact HP.
  - apply bind_Ok in H as (s1 & H1 & H2).
    replace (seen ++ x :: l) with ((seen ++ [x]) ++ l)
      by (rewrite <- app_assoc; reflexivity).
    eapply IH; [eapply Hstep; eassumption | exact H2].
Qed.

(** ** Dictionaries *)

Section DictFacts.
Context {K V : Type} (eqb : K -> K -> bool).
Hypothesis eqb_eq : forall a b, eqb a b = true <-> a = b.

Lemma eqb_refl_true k : eqb k k = true.
Proof. apply eqb_eq; reflexivity. Qed.

Lemma eqb_neq_false a b : a <> b -> eqb a b = false.
Proof.
  intros H; destruct (eqb a b) eqn:E; [apply eqb_eq in E; contradiction | reflexivity].
Qed.

Lemma get_In k (v : V) d : PyDict.get eqb k d = Some v -> In (k, v) d.
Proof.
  induction d as [|[k' v'] d IH]; simpl; [discriminate|].
  destruct (eqb k k') eqn:E.
  - apply eqb_eq in E; subst; intros H; inversion H; subst; left; reflexivity.
  - intros H; right; auto.
Qed.

Lemma get_None_not_In k (d : PyDict.t (K:=K) (V:=V)) :
  PyDict.get eqb k d = None <-> ~ In k (PyDict.keys d).
Proof.
  induction d as [|[k' v'] d IH]; simpl; [tauto|].
  destruct (eqb k k') eqn:E.
  - apply eqb_eq in E; subst; split; [discriminate | intros H; exfalso; auto].
  - rewrite IH; split; [intros H [H1|H1]; auto| tauto].
    subst; rewrite eqb_refl_true in E; discriminate.
Qed.

Lemma In_get k (v : V) d :
  NoDup (PyDict.keys d) -> In (k, v) d -> PyDict.get eqb k d = Some v.
Proof.
  induction d as [|[k' v'] d IH]; simpl; intros ND H; [contradiction|].
  inversion ND as [|? ? Hnin ND']; subst.
  destruct H as [H|H].
  - inversion H; subst; rewrite eqb_refl_true; reflexivity.
  - destruct (eqb k k') eqn:E; [|auto].
    apply eqb_eq in E; subst; exfalso; apply Hnin.
    change k' with (fst (k', v)); apply in_map; exact H.
Qed.

Lemma get_set_same k (v : V) d : PyDict.get eqb k (PyDict.set eqb k v d) = Some v.
Proof.
  induction d as [|[k' v'] d IH]; simpl.
  - rewrite eqb_refl_true; reflexivity.
  - destruct (eqb k k') eqn:E; simpl; rewrite E; auto.
Qed.

Lemma get_set_other k k' (v : V) d :
  k <> k' -> PyDict.get eqb k (PyDict.set eqb k' v d) = PyDict.get eqb k d.
Proof.
  intros Hne; induction d as [|[k2 v2] d IH]; simpl.
  - rewrite eqb_neq_false by assumption; reflexivity.
  - destruct (eqb k' k2) eqn:E; simpl.
    + apply eqb_eq in E; subst; rewrite eqb_neq_false by assumption; reflexivity.
    + destruct (eqb k k2); auto.
Qed.

Lemma In_set k (v : V) k' v' d :
  In (k, v) (PyDict.set eqb k' v' d) -> (k = k' /\ v = v') \/ In (k, v) d.
Proof.
  induction d as [|[k2 v2] d IH]; simpl.
  - intros [H|[]]; inversion H; auto.
  - destruct (eqb k' k2) eqn:E; simpl.
    + apply eqb_eq in E; subst.
      intros [H|H]; [inversion H; auto | auto].
    + intros [H|H]; [auto | destruct (IH H); auto].
Qed.

Lemma keys_set k (v : V) d :
  PyDict.keys (PyDict.set eqb k v d)
  = if PyDict.mem eqb k d then PyDict.keys d else PyDict.keys d ++ [k].
Proof.
  unfold PyDict.mem; induction d as [|[k2 v2] d IH]; simpl; [reflexivity|].
  destruct (eqb k k2) eqn:E; simpl; [reflexivity|].
  rewrite IH; destruct (PyDict.get eqb k d); reflexivity.
Qed.

Lemma NoDup_keys_set k (v : V) d :
  NoDup (PyDict.keys d) -> NoDup (PyDict.keys (PyDict.set eqb k v d)).
Proof.
  intros ND; rewrite keys_set; unfold PyDict.mem.
  destruct (PyDict.get eqb k d) eqn:E; [exact ND|].
  apply get_None_not_In in E.
  apply NoDup_rev in ND. rewrite <- (rev_involutive (_ ++ _)).
  apply NoDup_rev. rewrite rev_app_distr; simpl.
  constructor; [rewrite <- in_rev; exact E | exact ND].
Qed.

Lemma keys_modify k (f : V -> V) d :
  PyDict.keys (PyDict.modify eqb k f d) = PyDict.keys d.
Proof.
  induction d as [|[k2 v2] d IH]; simpl; [reflexivity|].
  destruct (eqb k k2); simpl; [reflexivity | rewrite IH; reflexivity].
Qed.

Lemma get_modify_same k (f : V -> V) d :
  PyDict.get eqb k (PyDict.modify eqb k f d) = option_map f (PyDict.get eqb k d).
Proof.
  induction d as [|[k2 v2] d IH]; simpl; [reflexivity|].
  destruct (eqb k k2) eqn:E; simpl; rewrite E; auto.
Qed.

Lemma get_modify_other k k' (f : V -> V) d :
  k <> k' -> PyDict.get eqb k (PyDict.modify eqb k' f d) = PyDict.get eqb k d.
Proof.
  intros Hne; induction d as [|[k2 v2] d IH]; simpl; [reflexivity|].
  destruct (eqb k' k2) eqn:E; simpl.
  - apply eqb_eq in E; subst; rewrite eqb_neq_false by assumption; reflexivity.
  - destruct (eqb k k2); auto.
Qed.
End DictFacts.

Lemma members_of_app fields l1 l2 :
  members_of fields (l1 ++ l2) = members_of fields l1 ++ members_of fields l2.
Proof. unfold members_of; apply flat_map_app. Qed.

Lemma In_members_of fields t l :
  In t (members_of fields l) ->
  exists pre y post,
    l = pre ++ y :: post /\ row_tag fields y = Some t /\ 1 <= Item.indent y.
Proof.
  unfold members_of; intros H; apply in_flat_map in H as (y & Hy & Ht).
  apply in_split in Hy as (pre & post & ->).
  exists pre, y, post; split; [reflexivity|].
  destruct (row_tag fields y) as [tag|]; [|contradiction].
  destruct (1 <=? Item.indent y) eqn:E; [|contradiction].
  destruct Ht as [->|[]]; split; [reflexivity | apply Z.leb_le; exact E].
Qed.

Lemma row_tag_known fields item t :
  row_tag fields item = Some t -> PyDict.mem Z.eqb t fields = true.
Proof.
  unfold row_tag; destruct (Py.isdigit _); [|discriminate].
  destruct (Py.int _) as [tag|]; [|discriminate].
  destruct (PyDict.mem Z.eqb tag fields) eqn:E; [|discriminate].
  intros H; inversion H; subst; exact E.
Qed.

(** ** The scan of one repeating component *)

(** The three things one step of the scan can do. *)
Lemma scan_item_cases fields s item s' :
  scan_item fields s item = Ok s' ->
  (row_tag fields item = None /\ s' = s)
  \/ (exists tag, row_tag fields item = Some tag /\ is_count_row fields item = true
        /\ count_tag s = None /\ s' = mkScan (Some tag) (first_tag s) (member_tags s))
  \/ (exists tag, row_tag fields item = Some tag
        /\ (is_count_row fields item = false \/ count_tag s <> None)
        /\ s' = if 1 <=? Item.indent item then add_member tag s else s).
Proof.
  unfold scan_item, is_count_row, row_tag, PyDict.mem.
  destruct (Py.isdigit (Item.tagText item)); [|intros H; inversion H; auto].
  destruct (Py.int (Item.tagText item)) as [tag|]; simpl; [|discriminate].
  destruct (PyDict.get Z.eqb tag fields) as [field|] eqn:G;
    [|intros H; inversion H; auto].
  destruct (String.eqb (Field.type field) "NumInGroup") eqn:T; simpl.
  - destruct (count_tag s) as [c|] eqn:C.
    + intros H; right; right; exists tag; split; [reflexivity|].
      split; [right; discriminate|].
      unfold add_member; rewrite C.
      destruct (1 <=? Item.indent item); inversion H; reflexivity.
    + intros H; inversion H; right; left; exists tag; rewrite ?G; auto.
  - intros H; right; right; exists tag; split; [reflexivity|].
    split; [left; rewrite ?G; first [exact T | reflexivity]|].
    destruct (1 <=? Item.indent item); inversion H; reflexivity.
Qed.

(** The first member anchor is the head of the member list, always. *)
Lemma scan_first_is_head fields contents s :
  for_each (scan_item fields) contents scan_start = Ok s ->
  first_tag s = hd_error (member_tags s).
Proof.
  intros H.
  apply (for_each_invariant (scan_item fields)
           (fun _ s => first_tag s = hd_error (member_tags s)))
    with (seen := []) in H; [exact H | | reflexivity].
  clear; intros _ s x s' Inv Hstep.
  apply scan_item_cases in Hstep as [[_ ->]|[(tag & _ & _ & _ & ->)|(tag & _ & _ & ->)]];
    auto.
  destruct (1 <=? Item.indent x); [|exact Inv].
  unfold add_member; simpl; rewrite Inv.
  destruct (member_tags s); reflexivity.
Qed.

(** Once the count tag is set it stays, and every later row that names a
    field at depth one or more is a member, whatever its type. *)
Lemma scan_after_count fields l s s' c :
  count_tag s = Some c ->
  for_each (scan_item fields) l s = Ok s' ->
  count_tag s' = Some c /\ member_tags s' = member_tags s ++ members_of fields l.
Proof.
  revert s; induction l as [|x l IH]; intros s Hc H; simpl in H.
  - inversion H; subst; rewrite app_nil_r; auto.
  - apply bind_Ok in H as (s1 & H1 & H2).
    apply scan_item_cases in H1
      as [[Hn ->]|[(tag & _ & _ & Hnone & _)|(tag & Ht & _ & ->)]].
    + destruct (IH _ Hc H2) as [-> ->]; split; [reflexivity|].
      unfold members_of; simpl; rewrite Hn; reflexivity.
    + congruence.
    + unfold members_of at 1; simpl; rewrite Ht; fold (members_of fields l).
      destruct (1 <=? Item.indent x).
      * destruct (IH (add_member tag s) Hc H2) as [-> ->]; split; [reflexivity|].
        simpl; rewrite <- app_assoc; reflexivity.
      * destruct (IH _ Hc H2) as [-> ->]; auto.
Qed.

(** The scan in closed form: the first count-type row gives the count tag;
    every other row that names a field at depth one or more gives a member. *)
Lemma scan_closed_form fields l s s' :
  count_tag s = None ->
  for_each (scan_item fields) l s = Ok s' ->
  (count_tag s' = None
   /\ Forall (fun x => is_count_row fields x = false) l
   /\ member_tags s' = member_tags s ++ members_of fields l)
  \/ (exists pre x post c,
        l = pre ++ x :: post
        /\ Forall (fun x => is_count_row fields x = false) pre
        /\ is_count_row fields x = true
        /\ row_tag fields x = Some c
        /\ count_tag s' = Some c
        /\ member_tags s'
           = member_tags s ++ members_of fields pre ++ members_of fields post).
Proof.
  revert s; induction l as [|x l IH]; intros s Hc H; simpl in H.
  - inversion H; subst; left; rewrite app_nil_r; auto.
  - apply bind_Ok in H as (s1 & H1 & H2).
    apply scan_item_cases in H1
      as [[Hn ->]|[(tag & Ht & Hcount & _ & ->)|(tag & Ht & [Hnc|Hbad] & ->)]].
    + assert (Hx : is_count_row fields x = false)
        by (unfold is_count_row; rewrite Hn; reflexivity).
      destruct (IH _ Hc H2) as [(C & F & M)|(pre & y & post & c & -> & F & Y & T & C & M)].
      * left; repeat split; auto.
        rewrite M; unfold members_of; simpl; rewrite Hn; reflexivity.
      * right; exists (x :: pre), y, post, c; repeat split; auto.
        rewrite M; unfold members_of; simpl; rewrite Hn; reflexivity.
    + right; exists [], x, l, tag.
      destruct (scan_after_count fields l (mkScan (Some tag) (first_tag s) (member_tags s))
                  s' tag eq_refl H2) as [C M].
      repeat split; auto.
    + assert (Hm : members_of fields (x :: l)
                   = (if 1 <=? Item.indent x then [tag] else []) ++ members_of fields l)
        by (unfold members_of; simpl; rewrite Ht; reflexivity).
      assert (Hm' : forall pre, members_of fields (x :: pre)
                   = (if 1 <=? Item.indent x then [tag] else []) ++ members_of fields pre)
        by (intros; unfold members_of; simpl; rewrite Ht; reflexivity).
      destruct (1 <=? Item.indent x).
      * destruct (IH (add_member tag s) Hc H2)
          as [(C & F & M)|(pre & y & post & c & -> & F & Y & T & C & M)].
        -- left; repeat split; auto.
           rewrite M, Hm; simpl; rewrite <- app_assoc; reflexivity.
        -- right; exists (x :: pre), y, post, c; repeat split; auto.
           rewrite M, Hm'; simpl; rewrite <- app_assoc; reflexivity.
      * destruct (IH _ Hc H2)
          as [(C & F & M)|(pre & y & post & c & -> & F & Y & T & C & M)].
        -- left; repeat split; auto. rewrite M, Hm; reflexivity.
        -- right; exists (x :: pre), y, post, c; repeat split; auto.
           rewrite M, Hm'; reflexivity.
    + congruence.
Qed.

(** ** Where a group comes from *)

Lemma identify_component_cases cc fields groups comp_id comp groups' :
  identify_component cc fields groups (comp_id, comp) = Ok groups' ->
  groups' = groups
  \/ exists g, group_from cc fields comp_id comp g
               /\ groups' = PyDict.set String.eqb (Component.name comp) g groups.
Proof.
  unfold identify_component.
  destruct (String.eqb (Component.type comp) "BlockRepeating") eqn:T;
    [|intros H; inversion H; auto].
  apply String.eqb_eq in T.
  destruct (PyDict.get String.eqb comp_id cc) as [[|x contents]|] eqn:G;
    try (intros H; inversion H; auto; fail).
  intros H; apply bind_Ok in H as (s & Hs & H).
  destruct (count_tag s) as [c|] eqn:C; [|inversion H; auto].
  destruct (first_tag s) as [f|] eqn:F; [|inversion H; auto].
  destruct (Py.truthy_int (Some c) && Py.truthy_int (Some f)); inversion H; auto.
  right; eexists; split; [|reflexivity].
  split; [exact T|]; split; [reflexivity|].
  exists (x :: contents), s; simpl; auto.
Qed.

(** A component whose scan finds no count tag, or no first member, adds
    nothing to the groups. *)
Lemma identify_component_excluded cc fields groups comp_id comp contents s :
  PyDict.get String.eqb comp_id cc = Some contents ->
  for_each (scan_item fields) contents scan_start = Ok s ->
  count_tag s = None \/ first_tag s = None ->
  identify_component cc fields groups (comp_id, comp) = Ok groups.
Proof.
  intros G Hs Hnone; unfold identify_component.
  destruct (String.eqb (Component.type comp) "BlockRepeating"); [|reflexivity].
  rewrite G; destruct contents as [|x contents]; [reflexivity|].
  unfold scan_start in Hs; rewrite Hs; simpl.
  destruct Hnone as [-> | ->]; [reflexivity|].
  destruct (count_tag s); reflexivity.
Qed.

Lemma identify_sound components cc fields groups name g :
  identify_repeating_groups components cc fields = Ok groups ->
  In (name, g) groups ->
  exists comp_id comp,
    In (comp_id, comp) components
    /\ name = Component.name comp
    /\ group_from cc fields comp_id comp g.
Proof.
  unfold identify_repeating_groups; intros H; revert name g.
  set (P := fun (seen : list (string * Component.t)) (groups : sdict Group.t) =>
              forall name g, In (name, g) groups ->
                exists comp_id comp,
                  In (comp_id, comp) seen /\ name = Component.name comp
                  /\ group_from cc fields comp_id comp g).
  assert (Hstep : forall seen s x s',
             P seen s -> identify_component cc fields s x = Ok s' -> P (seen ++ [x]) s').
  { clear; intros seen groups [comp_id comp] groups' Inv Hstep name g Hin.
    apply identify_component_cases in Hstep as [->|(g' & Hfrom & ->)].
    - destruct (Inv _ _ Hin) as (ci & c & I & N & F).
      exists ci, c; split; [apply in_or_app; auto | auto].
    - apply (In_set String.eqb String.eqb_eq) in Hin as [[-> ->]|Hin].
      + exists comp_id, comp; split; [apply in_or_app; simpl; auto | auto].
      + destruct (Inv _ _ Hin) as (ci & c & I & N & F).
        exists ci, c; split; [apply in_or_app; auto | auto]. }
  exact (for_each_invariant _ P Hstep components [] [] groups
           (fun _ _ F => match F with end) H).
Qed.

(** The members of a scan all name loaded fields. *)
Lemma scan_members_known fields contents s :
  for_each (scan_item fields) contents scan_start = Ok s ->
  Forall (fun t => PyDict.mem Z.eqb t fields = true) (member_tags s).
Proof.
  intros H; apply Forall_forall; intros t Ht.
  assert (Hin : In t (members_of fields contents)).
  { destruct (scan_closed_form fields contents scan_start s eq_refl H)
      as [(_ & _ & M)|(pre & x & post & c & -> & _ & _ & _ & _ & M)];
      rewrite M in Ht; simpl in Ht; [exact Ht|].
    rewrite members_of_app; apply in_app_or in Ht as [Ht|Ht];
      apply in_or_app; [left; exact Ht|right].
    change (x :: post) with ([x] ++ post); rewrite members_of_app.
    apply in_or_app; right; exact Ht. }
  apply In_members_of in Hin as (pre & y & post & _ & Hy & _).
  eapply row_tag_known; exact Hy.
Qed.

(** The count tag is a member only if a later row names it again. *)
Lemma scan_count_in_members fields contents s c :
  for_each (scan_item fields) contents scan_start = Ok s ->
  count_tag s = Some c ->
  In c (member_tags s) ->
  exists pre x mid y post,
    contents = pre ++ x :: mid ++ y :: post
    /\ row_tag fields x = Some c
    /\ row_tag fields y = Some c
    /\ 1 <= Item.indent y.
Proof.
  intros H C Hin.
  destruct (scan_closed_form fields contents scan_start s eq_refl H)
    as [(C' & _)|(pre & x & post & c' & -> & F & X & T & C' & M)]; [congruence|].
  assert (c' = c) by congruence; subst c'.
  rewrite M in Hin; simpl in Hin; apply in_app_or in Hin as [Hin|Hin].
  - exfalso.
    apply In_members_of in Hin as (p1 & y & p2 & -> & Hy & _).
    rewrite Forall_forall in F.
    assert (Hf : is_count_row fields y = false)
      by (apply F; apply in_or_app; right; left; reflexivity).
    unfold is_count_row in X, Hf; rewrite T in X; rewrite Hy in Hf; congruence.
  - apply In_members_of in Hin as (p1 & y & p2 & -> & Hy & Hi).
    exists pre, x, p1, y, p2; auto.
Qed.

(** ** Groups: count tag, members, anchor *)

(** C1, as the code has it.  Every group of the derived mapping comes from a
    repeating component whose scan found both a count tag and a first
    member; its member list is not empty; and its count tag is among the
    members only when the component's rows name the count field a second
    time, in a later row at depth one or more. *)
Theorem C1_group_count_and_members :
  forall components component_contents fields groups name g,
    identify_repeating_groups components component_contents fields = Ok groups ->
    In (name, g) groups ->
    Group.memberTags g <> []
    /\ (exists comp_id comp,
          In (comp_id, comp) components
          /\ name = Component.name comp
          /\ group_from component_contents fields comp_id comp g)
    /\ (In (Group.countTag g) (Group.memberTags g) ->
        exists comp_id comp pre x mid y post,
          In (comp_id, comp) components
          /\ name = Component.name comp
          /\ PyDict.get String.eqb comp_id component_contents
             = Some (pre ++ x :: mid ++ y :: post)
          /\ row_tag fields x = Some (Group.countTag g)
          /\ row_tag fields y = Some (Group.countTag g)
          /\ 1 <= Item.indent y).
Proof.
  intros components cc fields groups name g H Hin.
  destruct (identify_sound _ _ _ _ _ _ H Hin) as (comp_id & comp & I & N & F).
  pose proof F as (T & Gn & contents & s & G & Hs & C & Fi & M).
  split; [|split].
  - apply scan_first_is_head in Hs; rewrite Fi, M in Hs.
    intros E; rewrite E in Hs; discriminate.
  - exists comp_id, comp; auto.
  - intros Hc; rewrite <- M in Hc.
    destruct (scan_count_in_members _ _ _ _ Hs C Hc)
      as (pre & x & mid & y & post & -> & X & Y & Hi).
    exists comp_id, comp, pre, x, mid, y, post; repeat split; auto.
Qed.

Lemma C1_group_count_and_members_witness :
  identify_repeating_groups scenario_components scenario_contents scenario_fields
  = Ok [("OrdersGroup", scenario_group)]
  /\ In ("OrdersGroup", scenario_group) [("OrdersGroup", scenario_group)]
  /\ Group.memberTags scenario_group <> [].
Proof.
  split; [reflexivity|]; split; [left; reflexivity|].
  apply (C1_group_count_and_members scenario_components scenario_contents
           scenario_fields [("OrdersGroup", scenario_group)] "OrdersGroup"
           scenario_group);
    [reflexivity | left; reflexivity].
Defined.

(** C1 as stated fails: with the count field named twice, the emitted group
    has its count tag among its members. *)
Lemma C1_count_tag_among_members :
  exists fields st g,
    load_version repeated_count_tables = Ok (fields, st, [("OrdersGroup", g)])
    /\ Group.countTag g = 2
    /\ Group.memberTags g = [2]
    /\ In (Group.countTag g) (Group.memberTags g).
Proof.
  eexists _, _, _; split; [vm_compute; reflexivity|].
  simpl; auto.
Qed.

(** C10.  Every group of the derived mapping has a non-empty member list
    whose first element is the group's [firstTag], and every member is the
    tag of a loaded field. *)
Theorem C10_group_anchor_and_members_known :
  forall components component_contents fields groups name g,
    identify_repeating_groups components component_contents fields = Ok groups ->
    In (name, g) groups ->
    Group.memberTags g <> []
    /\ hd_error (Group.memberTags g) = Some (Group.firstTag g)
    /\ Forall (fun tag => PyDict.mem Z.eqb tag fields = true) (Group.memberTags g).
Proof.
  intros components cc fields groups name g H Hin.
  destruct (identify_sound _ _ _ _ _ _ H Hin)
    as (comp_id & comp & _ & _ & _ & _ & contents & s & _ & Hs & _ & Fi & M).
  pose proof (scan_first_is_head _ _ _ Hs) as Hd; rewrite Fi, M in Hd.
  split; [intros E; rewrite E in Hd; discriminate|].
  split; [symmetry; exact Hd|].
  rewrite <- M; eapply scan_members_known; exact Hs.
Qed.

Lemma C10_group_anchor_and_members_known_witness :
  identify_repeating_groups scenario_components scenario_contents scenario_fields
  = Ok [("OrdersGroup", scenario_group)]
  /\ In ("OrdersGroup", scenario_group) [("OrdersGroup", scenario_group)]
  /\ hd_error (Group.memberTags scenario_group) = Some (Group.firstTag scenario_group).
Proof.
  split; [reflexivity|]; split; [left; reflexivity|].
  apply (C10_group_anchor_and_members_known scenario_components scenario_contents
           scenario_fields [("OrdersGroup", scenario_group)] "OrdersGroup"
           scenario_group);
    [reflexivity | left; reflexivity].
Defined.

(** ** The count tag and the count-type rows after it *)

Lemma count_row_names fields y :
  is_count_row fields y = true -> exists c, row_tag fields y = Some c.
Proof.
  unfold is_count_row; destruct (row_tag fields y) as [c|]; [eauto | discriminate].
Qed.

Lemma members_of_cons fields y l c :
  row_tag fields y = Some c ->
  members_of fields (y :: l)
  = (if 1 <=? Item.indent y then [c] else []) ++ members_of fields l.
Proof. intros H; unfold members_of; simpl; rewrite H; reflexivity. Qed.

Lemma Forall_Exists_count_absurd fields (l : list Item.t) :
  Forall (fun x => is_count_row fields x = false) l ->
  Exists (fun x => is_count_row fields x = true) l -> False.
Proof.
  intros F E; apply Exists_exists in E as (x & Hx & Ht).
  rewrite Forall_forall in F; rewrite (F x Hx) in Ht; discriminate.
Qed.

(** C2, as the code has it.  Let [y] be a count-type row of a repeating
    component.  If no count-type row comes before it, [y] gives the count
    tag and no member.  If one does, [y] leaves the count tag alone, and it
    is a member like any other row that names a field: its tag joins the
    member list exactly when its depth is one or more. *)
Theorem C2_first_count_row_only :
  forall fields pre y post s,
    for_each (scan_item fields) (pre ++ y :: post) scan_start = Ok s ->
    is_count_row fields y = true ->
    exists s_pre c,
      for_each (scan_item fields) pre scan_start = Ok s_pre
      /\ row_tag fields y = Some c
      /\ (Forall (fun x => is_count_row fields x = false) pre ->
          count_tag s_pre = None
          /\ count_tag s = Some c
          /\ member_tags s = member_tags s_pre ++ members_of fields post)
      /\ (Exists (fun x => is_count_row fields x = true) pre ->
          count_tag s_pre <> None
          /\ count_tag s = count_tag s_pre
          /\ member_tags s
             = member_tags s_pre
               ++ (if 1 <=? Item.indent y then [c] else [])
               ++ members_of fields post).
Proof.
  intros fields pre y post s H Hy.
  rewrite for_each_app in H; apply bind_Ok in H as (s_pre & Hpre & H).
  destruct (count_row_names _ _ Hy) as [c Hc].
  exists s_pre, c; split; [exact Hpre|]; split; [exact Hc|].
  pose proof (scan_closed_form fields pre scan_start s_pre eq_refl Hpre) as Hform.
  split.
  - intros Hnone.
    destruct Hform as [(C & _ & _)|(p1 & x & p2 & c0 & -> & _ & X & _)].
    + split; [exact C|].
      simpl in H; apply bind_Ok in H as (s1 & H1 & H2).
      apply scan_item_cases in H1
        as [[Hn _]|[(tag & Ht & _ & _ & ->)|(tag & _ & [Hf|Hbad] & _)]];
        try congruence.
      assert (tag = c) by congruence; subst tag.
      apply (scan_after_count fields post
               (mkScan (Some c) (first_tag s_pre) (member_tags s_pre)) s c eq_refl)
        in H2 as [C2 M2].
      split; [exact C2 | exact M2].
    + exfalso; rewrite Forall_forall in Hnone.
      rewrite Hnone in X; [discriminate | apply in_or_app; right; left; reflexivity].
  - intros Hsome.
    destruct Hform as [(_ & F & _)|(p1 & x & p2 & c0 & _ & _ & _ & _ & C & _)].
    + exfalso; eapply Forall_Exists_count_absurd; eassumption.
    + apply (scan_after_count fields (y :: post) s_pre s c0 C) in H as [C2 M2].
      split; [congruence|]; split; [congruence|].
      rewrite M2, (members_of_cons fields y post c Hc); reflexivity.
Qed.

Lemma C2_first_count_row_only_witness :
  let first := Item.mk "2" 0 1 in
  let later := Item.mk "3" 1 2 in
  for_each (scan_item two_counts_fields) ([first] ++ later :: []) scan_start
  = Ok (mkScan (Some 2) (Some 3) [3])
  /\ is_count_row two_counts_fields later = true
  /\ exists s_pre c,
       for_each (scan_item two_counts_fields) [first] scan_start = Ok s_pre
       /\ row_tag two_counts_fields later = Some c.
Proof.
  intros first later; split; [reflexivity|]; split; [reflexivity|].
  destruct (C2_first_count_row_only two_counts_fields [first] later []
              (mkScan (Some 2) (Some 3) [3]) eq_refl eq_refl)
    as (s_pre & c & Hpre & Hc & _).
  exists s_pre, c; split; assumption.
Defined.

(** C2 as stated fails: the second count-type row, field 3 at depth 1, is not
    ignored; it is the member, and the first member, of the emitted group. *)
Lemma C2_later_count_row_is_member :
  is_count_row two_counts_fields (Item.mk "3" 1 2) = true
  /\ exists fields st,
       load_version two_counts_tables
       = Ok (fields, st, [("OrdersGroup", Group.mk "OrdersGroup" 2 3 [3])]).
Proof.
  split; [reflexivity|].
  eexists _, _; vm_compute; reflexivity.
Qed.

(** ** Sorting *)

Lemma fold_left_invariant {A S} (f : S -> A -> S) (P : list A -> S -> Prop) :
  (forall seen s x, P seen s -> P (seen ++ [x]) (f s x)) ->
  forall l seen s, P seen s -> P (seen ++ l) (fold_left f l s).
Proof.
  intros Hstep l; induction l as [|x l IH]; intros seen s HP; simpl.
  - rewrite app_nil_r; exact HP.
  - replace (seen ++ x :: l) with ((seen ++ [x]) ++ l)
      by (rewrite <- app_assoc; reflexivity).
    apply IH, Hstep, HP.
Qed.

Section SortFacts.
Context {A K : Type} (leb : K -> K -> bool) (key : A -> K).

Lemma insert_perm x l : Permutation (Py.insert leb key x l) (x :: l).
Proof.
  induction l as [|y l IH]; simpl; [reflexivity|].
  destruct (leb (key x) (key y)); [reflexivity|].
  rewrite IH; apply perm_swap.
Qed.

Lemma sorted_perm l : Permutation (Py.sorted leb key l) l.
Proof.
  induction l as [|x l IH]; simpl; [reflexivity|].
  rewrite insert_perm; constructor; exact IH.
Qed.

Lemma sorted_In x l : In x (Py.sorted leb key l) <-> In x l.
Proof.
  split; apply Permutation_in; [|symmetry]; apply sorted_perm.
Qed.

Lemma sorted_NoDup l : NoDup l -> NoDup (Py.sorted leb key l).
Proof.
  apply Permutation_NoDup; symmetry; apply sorted_perm.
Qed.

Hypothesis leb_total : forall a b, leb a b = true \/ leb b a = true.
Hypothesis leb_trans : forall a b c, leb a b = true -> leb b c = true -> leb a c = true.

Let le (x y : A) : Prop := leb (key x) (key y) = true.

Lemma insert_sorted x l :
  StronglySorted le l -> StronglySorted le (Py.insert leb key x l).
Proof.
  induction 1 as [|y l Hs IH Hy]; simpl; [repeat constructor|].
  destruct (leb (key x) (key y)) eqn:E.
  - constructor; [constructor; assumption|].
    constructor; [exact E|].
    eapply Forall_impl; [|exact Hy]; intros z Hz; unfold le in *; eauto.
  - constructor; [exact IH|].
    assert (Hyx : le y x) by (destruct (leb_total (key x) (key y)); [congruence|assumption]).
    eapply Permutation_Forall; [symmetry; apply insert_perm|].
    constructor; assumption.
Qed.

Lemma sorted_sorted l : StronglySorted le (Py.sorted leb key l).
Proof.
  induction l as [|x l IH]; simpl; [constructor | apply insert_sorted, IH].
Qed.
End SortFacts.

(** Sorting on an integer key is stable: the elements of one key keep the
    order they had. *)
Lemma insert_stable {A} (key : A -> Z) (p : Z) x l :
  filter (fun y => key y =? p) (Py.insert Z.leb key x l)
  = filter (fun y => key y =? p) (x :: l).
Proof.
  induction l as [|y l IH]; [reflexivity|].
  simpl Py.insert. destruct (key x <=? key y) eqn:E; [reflexivity|].
  apply Z.leb_gt in E.
  change (filter (fun y0 => key y0 =? p) (y :: Py.insert Z.leb key x l))
    with (if key y =? p
          then y :: filter (fun y0 => key y0 =? p) (Py.insert Z.leb key x l)
          else filter (fun y0 => key y0 =? p) (Py.insert Z.leb key x l)).
  rewrite IH; simpl.
  destruct (key y =? p) eqn:Ey, (key x =? p) eqn:Ex; try reflexivity.
  apply Z.eqb_eq in Ey, Ex; lia.
Qed.

Lemma sorted_stable {A} (key : A -> Z) (p : Z) l :
  filter (fun y => key y =? p) (Py.sorted Z.leb key l)
  = filter (fun y => key y =? p) l.
Proof.
  induction l as [|x l IH]; [reflexivity|].
  simpl Py.sorted; rewrite insert_stable; simpl; rewrite IH; reflexivity.
Qed.

Lemma sorted_by_Z {A} (key : A -> Z) l :
  StronglySorted (fun x y => key x <= key y) (Py.sorted Z.leb key l).
Proof.
  assert (H := sorted_sorted Z.leb key
                 (fun a b => ltac:(destruct (Z.leb_spec a b), (Z.leb_spec b a); auto; lia))
                 (fun a b c Hab Hbc =>
                    ltac:(apply Z.leb_le in Hab, Hbc; apply Z.leb_le; lia)) l).
  induction H as [|x l' Hs IH Hx]; constructor; [exact IH|].
  eapply Forall_impl; [|exact Hx]; intros y Hy; apply Z.leb_le; exact Hy.
Qed.

(** ** Appending through a target *)

Lemma modify_ext {K V} (eqb : K -> K -> bool) k (f g : V -> V) d :
  (forall v, f v = g v) -> PyDict.modify eqb k f d = PyDict.modify eqb k g d.
Proof.
  intros E; induction d as [|[k' v] d IH]; simpl; [reflexivity|].
  destruct (eqb k k'); [rewrite E | rewrite IH]; reflexivity.
Qed.

Lemma modify_id {K V} (eqb : K -> K -> bool) k (f : V -> V) d :
  (forall v, f v = v) -> PyDict.modify eqb k f d = d.
Proof.
  intros E; induction d as [|[k' v] d IH]; simpl; [reflexivity|].
  destruct (eqb k k'); [rewrite E | rewrite IH]; reflexivity.
Qed.

Lemma modify_modify {K V} (eqb : K -> K -> bool) k (f g : V -> V) d :
  PyDict.modify eqb k f (PyDict.modify eqb k g d)
  = PyDict.modify eqb k (fun v => f (g v)) d.
Proof.
  induction d as [|[k' v] d IH]; simpl; [reflexivity|].
  destruct (eqb k k') eqn:E; simpl; rewrite E; [reflexivity | rewrite IH; reflexivity].
Qed.

Lemma message_extend_nil m : message_extend [] [] m = m.
Proof. destruct m; unfold message_extend; simpl; rewrite !app_nil_r; reflexivity. Qed.

Lemma component_extend_nil c : component_extend [] [] c = c.
Proof. destruct c; unfold component_extend; simpl; rewrite !app_nil_r; reflexivity. Qed.

Lemma message_extend_extend ts1 gs1 ts2 gs2 m :
  message_extend ts2 gs2 (message_extend ts1 gs1 m)
  = message_extend (ts1 ++ ts2) (gs1 ++ gs2) m.
Proof. unfold message_extend; simpl; rewrite !app_assoc; reflexivity. Qed.

Lemma component_extend_extend ts1 gs1 ts2 gs2 c :
  component_extend ts2 gs2 (component_extend ts1 gs1 c)
  = component_extend (ts1 ++ ts2) (gs1 ++ gs2) c.
Proof. unfold component_extend; simpl; rewrite !app_assoc; reflexivity. Qed.

Lemma extend_nil target st : extend target [] [] st = st.
Proof.
  destruct target, st; unfold extend; simpl; f_equal; apply modify_id;
    [apply message_extend_nil | apply component_extend_nil].
Qed.

Lemma extend_extend target ts1 gs1 ts2 gs2 st :
  extend target ts2 gs2 (extend target ts1 gs1 st)
  = extend target (ts1 ++ ts2) (gs1 ++ gs2) st.
Proof.
  destruct target; unfold extend; simpl; f_equal; rewrite modify_modify;
    apply modify_ext; intros v;
    [apply message_extend_extend | apply component_extend_extend].
Qed.

Lemma append_tag_extend target r st : append_tag target r st = extend target [r] [] st.
Proof.
  destruct target; unfold append_tag, extend; f_equal; apply modify_ext; intros v;
    [unfold message_add_tag, message_extend | unfold component_add_tag, component_extend];
    rewrite app_nil_r; reflexivity.
Qed.

Lemma append_group_extend target g st :
  append_group target g st = extend target [] [g] st.
Proof.
  destruct target; unfold append_group, extend; f_equal; apply modify_ext; intros v;
    [unfold message_add_group, message_extend
    | unfold component_add_group, component_extend];
    rewrite app_nil_r; reflexivity.
Qed.

(** Appending to a record changes no component's name or identifier. *)
Lemma resolve_name_extend target ts gs st name :
  resolve_name (components_of (extend target ts gs st)) name
  = resolve_name (components_of st) name.
Proof.
  destruct target as [k|k]; [reflexivity|].
  unfold extend, resolve_name; simpl.
  induction (components_of st) as [|[k' c] d IH]; simpl; [reflexivity|].
  destruct (String.eqb k k'); simpl.
  - destruct (String.eqb (Component.name c) name); reflexivity.
  - destruct (String.eqb (Component.name c) name); [reflexivity | exact IH].
Qed.

Lemma item_group_refs_ext fields c1 c2 item :
  (forall name, resolve_name c1 name = resolve_name c2 name) ->
  item_group_refs fields c1 item = item_group_refs fields c2 item.
Proof.
  intros E; unfold item_group_refs; rewrite E; reflexivity.
Qed.

(** ** One owner's rows *)

Lemma envelope_not_digit s : is_envelope s = true -> Py.isdigit s = false.
Proof.
  unfold is_envelope; intros H; apply orb_true_iff in H as [H|H];
    apply String.eqb_eq in H; subst; reflexivity.
Qed.

Lemma envelope_names_nothing fields item :
  is_envelope (Item.tagText item) = true -> row_tag fields item = None.
Proof.
  intros H; unfold row_tag; rewrite (envelope_not_digit _ H); reflexivity.
Qed.

Lemma find_name_existsb (vs : list Component.t) name c :
  find (fun c => String.eqb (Component.name c) name) vs = Some c ->
  existsb (String.eqb name) (map Component.name vs) = true.
Proof.
  induction vs as [|v vs IH]; simpl; [discriminate|].
  destruct (String.eqb (Component.name v) name) eqn:E.
  - intros _; rewrite String.eqb_sym, E; reflexivity.
  - intros H; rewrite (IH H); apply orb_true_r.
Qed.

(** One row: what the loop body does to the store. *)
Lemma associate_item_effect fields target st item st' :
  associate_item fields target st item = Ok st' ->
  st' = extend target (item_tag_refs fields item)
          (item_group_refs fields (components_of st) item) st.
Proof.
  unfold associate_item, item_tag_refs, item_group_refs, is_count_row, row_tag,
    PyDict.mem.
  destruct (is_envelope (Item.tagText item)) eqn:Env.
  - rewrite (envelope_not_digit _ Env).
    intros H; inversion H; rewrite extend_nil; reflexivity.
  - destruct (Py.isdigit (Item.tagText item)).
    + destruct (Py.int (Item.tagText item)) as [tag|]; simpl; [|discriminate].
      destruct (PyDict.get Z.eqb tag fields) as [field|] eqn:G;
        [|intros H; inversion H; rewrite extend_nil; reflexivity].
      rewrite ?G.
      destruct (String.eqb (Field.type field) "NumInGroup");
        intros H; inversion H;
        [apply append_group_extend | apply append_tag_extend].
    + unfold resolve_name.
      destruct (find (fun c => String.eqb (Component.name c) (Item.tagText item))
                  (PyDict.values (components_of st))) as [ref_comp|] eqn:F; simpl.
      * rewrite (find_name_existsb _ _ _ F).
        intros H; inversion H; apply append_group_extend.
      * destruct (existsb _ _); intros H; inversion H; rewrite extend_nil; reflexivity.
Qed.

(** The rows of one owner: the store gains, through the target, the
    references of the rows in the order of the rows. *)
Lemma associate_items_effect fields target contents st st' :
  for_each (associate_item fields target) contents st = Ok st' ->
  st' = extend target (flat_map (item_tag_refs fields) contents)
          (flat_map (item_group_refs fields (components_of st)) contents) st.
Proof.
  revert st; induction contents as [|x l IH]; intros st H; simpl in H.
  - inversion H; simpl; rewrite extend_nil; reflexivity.
  - apply bind_Ok in H as (s1 & H1 & H2).
    apply associate_item_effect in H1; apply IH in H2; subst st' s1.
    rewrite extend_extend; simpl; f_equal.
    f_equal; apply flat_map_ext; intros item.
    apply item_group_refs_ext; intros name; apply resolve_name_extend.
Qed.

(** ** All owners *)

Lemma get_app {K V} (eqb : K -> K -> bool) k (d1 d2 : list (K * V)) :
  PyDict.get eqb k (d1 ++ d2)
  = match PyDict.get eqb k d1 with
    | Some v => Some v
    | None => PyDict.get eqb k d2
    end.
Proof.
  induction d1 as [|[k' v] d1 IH]; simpl; [reflexivity|].
  destruct (eqb k k'); [reflexivity | exact IH].
Qed.

Lemma modify_absent {K V} (eqb : K -> K -> bool) k (f : V -> V) d :
  PyDict.get eqb k d = None -> PyDict.modify eqb k f d = d.
Proof.
  induction d as [|[k' v] d IH]; simpl; [reflexivity|].
  destruct (eqb k k'); [discriminate | intros H; rewrite IH by exact H; reflexivity].
Qed.

Lemma owner_items_snoc seen k' l k :
  ~ In k' (PyDict.keys seen) ->
  owner_items (seen ++ [(k', l)]) k
  = if String.eqb k k' then l else owner_items seen k.
Proof.
  intros Hnin; unfold owner_items; rewrite get_app; simpl.
  destruct (String.eqb k k') eqn:E.
  - apply String.eqb_eq in E; subst.
    apply (get_None_not_In String.eqb String.eqb_eq) in Hnin; rewrite Hnin; reflexivity.
  - destruct (PyDict.get String.eqb k seen); reflexivity.
Qed.

(** One owner: the message record under the owner's identifier gains the
    references when there is one; otherwise the component record does. *)
Lemma associate_owner_effect fields s k l s' :
  associate_owner fields s (k, l) = Ok s' ->
  let ts := flat_map (item_tag_refs fields) l in
  let gs := flat_map (item_group_refs fields (components_of s)) l in
  s' = if PyDict.mem String.eqb k (messages_of s)
       then mkStore (PyDict.modify String.eqb k (message_extend ts gs) (messages_of s))
              (components_of s)
       else mkStore (messages_of s)
              (PyDict.modify String.eqb k (component_extend ts gs) (components_of s)).
Proof.
  unfold associate_owner, resolve_target, PyDict.mem.
  destruct (PyDict.get String.eqb k (messages_of s)) as [m|] eqn:Gm.
  - intros H; apply associate_items_effect in H; exact H.
  - destruct (PyDict.get String.eqb k (components_of s)) as [c|] eqn:Gc.
    + intros H; apply associate_items_effect in H; exact H.
    + intros H; inversion H; subst; simpl.
      rewrite modify_absent by exact Gc; destruct s'; reflexivity.
Qed.

(** The associator in closed form.  After the loop over the owners, the
    record under [k] has gained the references of [k]'s own items, in the
    order of the items: the message record when [k] is a message, the
    component record only when it is not. *)
Lemma associate_owners_effect fields cc st0 st' :
  NoDup (PyDict.keys cc) ->
  for_each (associate_owner fields) cc st0 = Ok st' ->
  let ts k := flat_map (item_tag_refs fields) (owner_items cc k) in
  let gs k := flat_map (item_group_refs fields (components_of st0)) (owner_items cc k) in
  PyDict.keys (messages_of st') = PyDict.keys (messages_of st0)
  /\ PyDict.keys (components_of st') = PyDict.keys (components_of st0)
  /\ (forall name,
        resolve_name (components_of st') name = resolve_name (components_of st0) name)
  /\ (forall k,
        PyDict.get String.eqb k (messages_of st')
        = option_map (message_extend (ts k) (gs k))
            (PyDict.get String.eqb k (messages_of st0)))
  /\ (forall k,
        PyDict.get String.eqb k (components_of st')
        = option_map
            (fun c => if PyDict.mem String.eqb k (messages_of st0) then c
                      else component_extend (ts k) (gs k) c)
            (PyDict.get String.eqb k (components_of st0))).
Proof.
  intros ND H.
  set (P := fun (seen : sdict (list Item.t)) (st : Store) =>
    NoDup (PyDict.keys seen) ->
    PyDict.keys (messages_of st) = PyDict.keys (messages_of st0)
    /\ PyDict.keys (components_of st) = PyDict.keys (components_of st0)
    /\ (forall name,
          resolve_name (components_of st) name = resolve_name (components_of st0) name)
    /\ (forall k,
          PyDict.get String.eqb k (messages_of st)
          = option_map
              (message_extend
                 (flat_map (item_tag_refs fields) (owner_items seen k))
                 (flat_map (item_group_refs fields (components_of st0))
                    (owner_items seen k)))
              (PyDict.get String.eqb k (messages_of st0)))
    /\ (forall k,
          PyDict.get String.eqb k (components_of st)
          = option_map
              (fun c => if PyDict.mem String.eqb k (messages_of st0) then c
                        else component_extend
                               (flat_map (item_tag_refs fields) (owner_items seen k))
                               (flat_map (item_group_refs fields (components_of st0))
                                  (owner_items seen k)) c)
              (PyDict.get String.eqb k (components_of st0)))).
  assert (Hstep : forall seen s x s',
             P seen s -> associate_owner fields s x = Ok s' -> P (seen ++ [x]) s').
  { clear; intros seen s [k' l] s' Inv Hstep ND.
    unfold PyDict.keys in ND; rewrite map_app in ND; simpl in ND.
    assert (Hnin : ~ In k' (PyDict.keys seen)).
    { intros Hin; apply NoDup_remove_2 in ND; apply ND.
      rewrite app_nil_r; exact Hin. }
    apply NoDup_remove_1 in ND; rewrite app_nil_r in ND.
    destruct (Inv ND) as (Km & Kc & Rn & Gm & Gc); clear Inv.
    apply associate_owner_effect in Hstep.
    rewrite (flat_map_ext _ _ (fun item =>
               item_group_refs_ext fields _ _ item Rn)) in Hstep.
    assert (Hmem : PyDict.mem String.eqb k' (messages_of s)
                   = PyDict.mem String.eqb k' (messages_of st0)).
    { unfold PyDict.mem; rewrite Gm.
      destruct (PyDict.get String.eqb k' (messages_of st0)); reflexivity. }
    rewrite Hmem in Hstep.
    assert (Hnone : owner_items seen k' = []).
    { unfold owner_items.
      apply (get_None_not_In String.eqb String.eqb_eq) in Hnin; rewrite Hnin; reflexivity. }
    destruct (PyDict.mem String.eqb k' (messages_of st0)) eqn:M; subst s'; simpl.
    - rewrite (keys_modify String.eqb).
      split; [exact Km|]; split; [exact Kc|]; split; [exact Rn|]; split.
      + intros k; rewrite (owner_items_snoc _ _ _ _ Hnin).
        destruct (String.eqb k k') eqn:E.
        * apply String.eqb_eq in E; subst k.
          rewrite (get_modify_same String.eqb), Gm, Hnone; simpl.
          destruct (PyDict.get String.eqb k' (messages_of st0)); simpl; [|reflexivity].
          rewrite message_extend_extend; reflexivity.
        * rewrite (get_modify_other String.eqb String.eqb_eq)
            by (intros ->; rewrite String.eqb_refl in E; discriminate).
          apply Gm.
      + intros k; rewrite (owner_items_snoc _ _ _ _ Hnin), Gc.
        destruct (String.eqb k k') eqn:E; [|reflexivity].
        apply String.eqb_eq in E; subst k; rewrite M; reflexivity.
    - rewrite (keys_modify String.eqb).
      split; [exact Km|]; split; [exact Kc|]; split; [|split].
      + intros name; rewrite <- Rn.
        apply (resolve_name_extend (ComponentAt k') _ _ s name).
      + intros k; rewrite (owner_items_snoc _ _ _ _ Hnin), Gm.
        destruct (String.eqb k k') eqn:E; [|reflexivity].
        apply String.eqb_eq in E; subst k.
        unfold PyDict.mem in M.
        destruct (PyDict.get String.eqb k' (messages_of st0)); [discriminate|reflexivity].
      + intros k; rewrite (owner_items_snoc _ _ _ _ Hnin).
        destruct (String.eqb k k') eqn:E.
        * apply String.eqb_eq in E; subst k.
          rewrite (get_modify_same String.eqb), Gc, Hnone, M; simpl.
          destruct (PyDict.get String.eqb k' (components_of st0)); simpl; [|reflexivity].
          rewrite component_extend_extend; reflexivity.
        * rewrite (get_modify_other String.eqb String.eqb_eq)
            by (intros ->; rewrite String.eqb_refl in E; discriminate).
          apply Gc. }
  assert (Hinit : P [] st0).
  { intros _; repeat split; auto; intros k; unfold owner_items; simpl.
    - destruct (PyDict.get String.eqb k (messages_of st0)); simpl; [|reflexivity].
      rewrite message_extend_nil; reflexivity.
    - destruct (PyDict.get String.eqb k (components_of st0)); simpl; [|reflexivity].
      rewrite component_extend_nil; destruct (PyDict.mem _ _ _); reflexivity. }
  exact (for_each_invariant _ P Hstep cc [] st0 st' Hinit H ND).
Qed.

(** ** Grouping the rows by owner *)

Lemma rows_of_snoc k seen r :
  rows_of k (seen ++ [r])
  = rows_of k seen
    ++ (if String.eqb (Row.ComponentID r) k then [make_item r] else []).
Proof.
  unfold rows_of; rewrite filter_app, map_app; simpl.
  destruct (String.eqb (Row.ComponentID r) k); reflexivity.
Qed.

Lemma group_contents_spec rows :
  NoDup (PyDict.keys (group_contents rows))
  /\ forall k,
       PyDict.get String.eqb k (group_contents rows)
       = match rows_of k rows with
         | [] => None
         | l => Some l
         end.
Proof.
  unfold group_contents.
  apply (fold_left_invariant
           (fun cc content =>
              contents_append (Row.ComponentID content) (make_item content) cc)
           (fun seen cc =>
              NoDup (PyDict.keys cc)
              /\ forall k,
                   PyDict.get String.eqb k cc
                   = match rows_of k seen with [] => None | l => Some l end))
    with (seen := []); [|split; [constructor | reflexivity]].
  clear; intros seen cc r [ND G]; unfold contents_append; split.
  - destruct (PyDict.get String.eqb (Row.ComponentID r) cc);
      apply (NoDup_keys_set String.eqb String.eqb_eq); exact ND.
  - intros k; rewrite rows_of_snoc.
    destruct (String.eqb (Row.ComponentID r) k) eqn:E.
    + apply String.eqb_eq in E; subst k.
      rewrite (G (Row.ComponentID r)).
      destruct (rows_of (Row.ComponentID r) seen) as [|x l];
        rewrite (get_set_same String.eqb String.eqb_eq); reflexivity.
    + rewrite app_nil_r, <- (G k).
      assert (Hne : k <> Row.ComponentID r)
        by (intros ->; rewrite String.eqb_refl in E; discriminate).
      destruct (PyDict.get String.eqb (Row.ComponentID r) cc);
        apply (get_set_other String.eqb String.eqb_eq); exact Hne.
Qed.

Lemma sort_contents_keys cc : PyDict.keys (sort_contents cc) = PyDict.keys cc.
Proof.
  unfold sort_contents, PyDict.keys; rewrite map_map.
  apply map_ext; intros [k l]; reflexivity.
Qed.

Lemma sort_contents_get cc k :
  PyDict.get String.eqb k (sort_contents cc)
  = option_map sort_by_position (PyDict.get String.eqb k cc).
Proof.
  induction cc as [|[k' l] cc IH]; simpl; [reflexivity|].
  destruct (String.eqb k k'); [reflexivity | exact IH].
Qed.

(** What the associator keeps for an owner: the owner's rows, sorted. *)
Lemma owner_items_sorted rows k :
  owner_items (sort_contents (group_contents rows)) k
  = sort_by_position (rows_of k rows).
Proof.
  unfold owner_items; rewrite sort_contents_get.
  destruct (group_contents_spec rows) as [_ G]; rewrite G.
  destruct (rows_of k rows); reflexivity.
Qed.

Lemma parse_msg_contents_Ok rows st fields st' cc :
  parse_msg_contents rows st fields = Ok (st', cc) ->
  cc = sort_contents (group_contents rows)
  /\ NoDup (PyDict.keys cc)
  /\ for_each (associate_owner fields) cc st = Ok st'.
Proof.
  unfold parse_msg_contents; intros H; apply bind_Ok in H as (s1 & H1 & H2).
  inversion H2; subst; split; [reflexivity|]; split; [|exact H1].
  rewrite sort_contents_keys; apply group_contents_spec.
Qed.

(** ** The order of the file does not matter *)

Lemma filter_Permutation {A} (f : A -> bool) l1 l2 :
  Permutation l1 l2 -> Permutation (filter f l1) (filter f l2).
Proof.
  induction 1 as [|x l1 l2 _ IH|x y l|l1 l2 l3 _ IH1 _ IH2]; simpl.
  - constructor.
  - destruct (f x); [constructor|]; exact IH.
  - destruct (f x), (f y); try reflexivity; apply perm_swap.
  - etransitivity; eassumption.
Qed.

(** A list sorted on pairwise different keys is the only sorted arrangement
    of its elements. *)
Lemma strongly_sorted_unique {A} (key : A -> Z) s1 :
  forall s2,
    StronglySorted (fun x y => key x <= key y) s1 ->
    StronglySorted (fun x y => key x <= key y) s2 ->
    Permutation s1 s2 ->
    NoDup (map key s1) ->
    s1 = s2.
Proof.
  induction s1 as [|x t1 IH]; intros s2 S1 S2 Hp ND.
  - apply Permutation_nil in Hp; subst; reflexivity.
  - destruct s2 as [|y t2];
      [symmetry in Hp; apply Permutation_nil in Hp; discriminate|].
    apply StronglySorted_inv in S1 as [S1 F1], S2 as [S2 F2].
    rewrite Forall_forall in F1, F2.
    inversion ND as [|? ? Hnin ND']; subst.
    assert (Hxy : x = y).
    { assert (Hx : In x (y :: t2)) by (eapply Permutation_in; [exact Hp | left; reflexivity]).
      assert (Hy : In y (x :: t1))
        by (eapply Permutation_in; [symmetry; exact Hp | left; reflexivity]).
      destruct Hx as [Hx|Hx]; [auto|].
      destruct Hy as [Hy|Hy]; [auto|].
      exfalso; apply Hnin.
      assert (key x = key y) by (pose proof (F1 _ Hy); pose proof (F2 _ Hx); lia).
      rewrite H; apply in_map; exact Hy. }
    subst y; f_equal; apply IH; auto.
    eapply Permutation_cons_inv; exact Hp.
Qed.

Lemma sorted_order_independent {A} (key : A -> Z) l1 l2 :
  NoDup (map key l1) ->
  Permutation l1 l2 ->
  Py.sorted Z.leb key l1 = Py.sorted Z.leb key l2.
Proof.
  intros ND Hp; apply (strongly_sorted_unique key); try apply sorted_by_Z.
  - rewrite (sorted_perm Z.leb key l1), Hp; symmetry; apply sorted_perm.
  - eapply Permutation_NoDup; [|exact ND].
    apply Permutation_map; symmetry; apply sorted_perm.
Qed.

(** C3.  For every owner, the rows the associator processes are the owner's
    rows sorted ascending by position: a rearrangement of the owner's rows
    of the file, in ascending position order, rows of one position in file
    order; and the same whatever the order of the file when the owner's
    positions are pairwise different.  The references recorded on the owner
    (on the message record, else on the component record) are those of the
    rows in that order. *)
Theorem C3_rows_processed_in_position_order :
  forall rows messages components fields st' cc owner,
    parse_msg_contents rows (mkStore messages components) fields = Ok (st', cc) ->
    let file_rows := rows_of owner rows in
    let processed := sort_by_position file_rows in
    owner_items cc owner = processed
    /\ Permutation processed file_rows
    /\ StronglySorted (fun x y => Item.position x <= Item.position y) processed
    /\ (forall p,
          filter (fun x => Item.position x =? p) processed
          = filter (fun x => Item.position x =? p) file_rows)
    /\ (forall rows2,
          Permutation rows rows2 ->
          NoDup (map Item.position file_rows) ->
          sort_by_position (rows_of owner rows2) = processed)
    /\ PyDict.get String.eqb owner (messages_of st')
       = option_map
           (message_extend (flat_map (item_tag_refs fields) processed)
              (flat_map (item_group_refs fields components) processed))
           (PyDict.get String.eqb owner messages)
    /\ PyDict.get String.eqb owner (components_of st')
       = option_map
           (fun c =>
              if PyDict.mem String.eqb owner messages then c
              else component_extend (flat_map (item_tag_refs fields) processed)
                     (flat_map (item_group_refs fields components) processed) c)
           (PyDict.get String.eqb owner components).
Proof.
  intros rows messages components fields st' cc owner H file_rows processed.
  apply parse_msg_contents_Ok in H as (-> & ND & H).
  destruct (associate_owners_effect _ _ _ _ ND H) as (_ & _ & _ & Gm & Gc).
  specialize (Gm owner); specialize (Gc owner).
  rewrite owner_items_sorted in Gm, Gc; simpl in Gm, Gc.
  split; [apply owner_items_sorted|].
  split; [apply sorted_perm|].
  split; [apply sorted_by_Z|].
  split; [intros p; apply sorted_stable|].
  split; [|split; assumption].
  intros rows2 Hp Hnd; symmetry; apply sorted_order_independent; [exact Hnd|].
  unfold file_rows, rows_of; apply Permutation_map, filter_Permutation, Hp.
Qed.

Lemma C3_rows_processed_in_position_order_witness :
  exists st' cc,
    parse_msg_contents (MsgContents_xml shuffled_tables)
      (mkStore (parse_messages (Messages_xml shuffled_tables)) [])
      (parse_fields (Fields_xml shuffled_tables)) = Ok (st', cc)
    /\ map Item.position (rows_of "10" (MsgContents_xml shuffled_tables)) = [3; 1; 2]
    /\ map Item.position (owner_items cc "10") = [1; 2; 3]
    /\ option_map Message.tags (PyDict.get String.eqb "10" (messages_of st'))
       = Some [TagRef.mk 11 0; TagRef.mk 54 0; TagRef.mk 38 0].
Proof.
  eexists _, _; split; [vm_compute; reflexivity|].
  split; [reflexivity|].
  destruct (C3_rows_processed_in_position_order
              (MsgContents_xml shuffled_tables)
              (parse_messages (Messages_xml shuffled_tables)) []
              (parse_fields (Fields_xml shuffled_tables)) _ _ "10" eq_refl)
    as (Hitems & _ & _ & _ & _ & Hm & _).
  split;
    [exact (f_equal (map Item.position) Hitems)
    | exact (f_equal (option_map Message.tags) Hm)].
Defined.

(** ** Message before component *)

(** C9.  For an owner identifier that is a component: when it is a message
    too, the references go to the message record and the component record
    stays as it was; only when it is not a message do they go to the
    component record. *)
Theorem C9_message_record_wins :
  forall rows messages components fields st' cc owner c,
    parse_msg_contents rows (mkStore messages components) fields = Ok (st', cc) ->
    PyDict.get String.eqb owner components = Some c ->
    let ts := flat_map (item_tag_refs fields) (owner_items cc owner) in
    let gs := flat_map (item_group_refs fields components) (owner_items cc owner) in
    match PyDict.get String.eqb owner messages with
    | Some m =>
        resolve_target owner (mkStore messages components) = Some (MessageAt owner)
        /\ PyDict.get String.eqb owner (messages_of st') = Some (message_extend ts gs m)
        /\ PyDict.get String.eqb owner (components_of st') = Some c
    | None =>
        resolve_target owner (mkStore messages components) = Some (ComponentAt owner)
        /\ PyDict.get String.eqb owner (components_of st') = Some (component_extend ts gs c)
    end.
Proof.
  intros rows messages components fields st' cc owner c H Hc ts gs.
  apply parse_msg_contents_Ok in H as (_ & ND & H).
  destruct (associate_owners_effect _ _ _ _ ND H) as (_ & _ & _ & Gm & Gc).
  specialize (Gm owner); specialize (Gc owner); simpl in Gm, Gc.
  unfold resolve_target, PyDict.mem in *; simpl.
  rewrite Hc in *; simpl in Gc.
  destruct (PyDict.get String.eqb owner messages) as [m|]; simpl in Gm; auto.
Qed.

Lemma C9_message_record_wins_witness :
  exists st' cc,
    parse_msg_contents (MsgContents_xml shared_id_tables)
      (mkStore (parse_messages (Messages_xml shared_id_tables))
         (parse_components (Components_xml shared_id_tables)))
      (parse_fields (Fields_xml shared_id_tables)) = Ok (st', cc)
    /\ PyDict.get String.eqb "10" (parse_components (Components_xml shared_id_tables))
       = Some (Component.mk "10" "Parties" "Block" [] [])
    /\ PyDict.get String.eqb "10" (messages_of st')
       = Some (Message.mk "10" "D" "NewOrderSingle" [TagRef.mk 11 0] [])
    /\ PyDict.get String.eqb "10" (components_of st')
       = Some (Component.mk "10" "Parties" "Block" [] []).
Proof.
  eexists _, _; split; [vm_compute; reflexivity|].
  split; [reflexivity|].
  exact (proj2 (C9_message_record_wins
                  (MsgContents_xml shared_id_tables)
                  (parse_messages (Messages_xml shared_id_tables))
                  (parse_components (Components_xml shared_id_tables))
                  (parse_fields (Fields_xml shared_id_tables)) _ _ "10"
                  (Component.mk "10" "Parties" "Block" [] []) eq_refl eq_refl)).
Defined.

(** ** Envelope placeholders *)

Lemma for_each_skip {A S} (body : S -> A -> result S) (keep : A -> bool) l :
  (forall s x, keep x = false -> body s x = Ok s) ->
  forall s, for_each body l s = for_each body (filter keep l) s.
Proof.
  intros Hskip; induction l as [|x l IH]; intros s; simpl; [reflexivity|].
  destruct (keep x) eqn:E; simpl.
  - destruct (body s x); simpl; auto.
  - rewrite (Hskip s x E); simpl; apply IH.
Qed.

(** The loops pass over the placeholders.  For every owner, message or
    component, the loop of the associator over the owner's rows leaves the
    store exactly as the loop over the rows without the placeholders does;
    and the scan of the group identifier gives exactly what it gives without
    them. *)
Lemma envelope_rows_skipped fields target contents st s :
  for_each (associate_item fields target) contents st
  = for_each (associate_item fields target) (filter keep_item contents) st
  /\ for_each (scan_item fields) contents s
     = for_each (scan_item fields) (filter keep_item contents) s.
Proof.
  split; apply for_each_skip.
  - intros st0 x E; apply negb_false_iff in E.
    unfold associate_item; rewrite E; reflexivity.
  - intros s0 x E; apply negb_false_iff in E.
    unfold scan_item; rewrite (envelope_not_digit _ E); reflexivity.
Qed.

(** ** Printing integers *)

Lemma str_inj a b : Py.str a = Py.str b -> a = b.
Proof.
  unfold Py.str; intros H.
  assert (Hnn : forall z, Z.to_int z <> Decimal.Pos Decimal.Nil
                          /\ Z.to_int z <> Decimal.Neg Decimal.Nil).
  { intros [|p|p]; simpl; split; try discriminate;
      intros E; inversion E as [E']; revert E'; apply DecimalPos.Unsigned.to_uint_nonnil. }
  apply DecimalZ.to_int_inj.
  assert (E : Some (Z.to_int a) = Some (Z.to_int b)).
  { rewrite <- (NilZero.isi (Z.to_int a)) by apply Hnn.
    rewrite <- (NilZero.isi (Z.to_int b)) by apply Hnn.
    rewrite H; reflexivity. }
  inversion E; reflexivity.
Qed.

(** ** The field table *)

Lemma parse_fields_spec rows :
  NoDup (PyDict.keys (parse_fields rows))
  /\ (forall t,
        PyDict.get Z.eqb t (parse_fields rows)
        = option_map (fun r => Field.mk (Row.f_Tag r) (Row.f_Name r) (Row.f_Type r) [])
            (find (fun r => Row.f_Tag r =? t) (rev rows))).
Proof.
  unfold parse_fields.
  apply (fold_left_invariant
           (fun fields field =>
              PyDict.set Z.eqb (Row.f_Tag field)
                (Field.mk (Row.f_Tag field) (Row.f_Name field) (Row.f_Type field) [])
                fields)
           (fun seen fields =>
              NoDup (PyDict.keys fields)
              /\ forall t,
                   PyDict.get Z.eqb t fields
                   = option_map
                       (fun r => Field.mk (Row.f_Tag r) (Row.f_Name r) (Row.f_Type r) [])
                       (find (fun r => Row.f_Tag r =? t) (rev seen))))
    with (seen := []); [|split; [constructor | reflexivity]].
  clear; intros seen fields r [ND G]; split.
  - apply (NoDup_keys_set Z.eqb Z.eqb_eq); exact ND.
  - intros t; rewrite rev_app_distr; simpl.
    destruct (Row.f_Tag r =? t) eqn:E.
    + apply Z.eqb_eq in E; subst t.
      rewrite (get_set_same Z.eqb Z.eqb_eq); reflexivity.
    + rewrite (get_set_other Z.eqb Z.eqb_eq); [apply G|].
      intros ->; rewrite Z.eqb_refl in E; discriminate.
Qed.

Lemma parse_fields_invariants rows :
  tags_agree (parse_fields rows) /\ enum_values_distinct (parse_fields rows).
Proof.
  destruct (parse_fields_spec rows) as [ND G].
  split; intros t f Hin; apply (In_get Z.eqb Z.eqb_eq _ _ _ ND) in Hin;
    rewrite G in Hin;
    destruct (find (fun r => Row.f_Tag r =? t) (rev rows)) as [r|] eqn:F;
    try discriminate; inversion Hin; subst; simpl.
  - apply find_some in F as [_ E]; apply Z.eqb_eq; exact E.
  - constructor.
Qed.

(** Attaching the enums changes neither the tags nor the names and types. *)
Lemma parse_enums_spec enum_rows fields0 :
  tags_agree fields0 ->
  enum_values_distinct fields0 ->
  PyDict.keys (parse_enums enum_rows fields0) = PyDict.keys fields0
  /\ tags_agree (parse_enums enum_rows fields0)
  /\ enum_values_distinct (parse_enums enum_rows fields0)
  /\ (forall t,
        option_map (fun f => (Field.name f, Field.type f))
          (PyDict.get Z.eqb t (parse_enums enum_rows fields0))
        = option_map (fun f => (Field.name f, Field.type f))
            (PyDict.get Z.eqb t fields0)).
Proof.
  intros T0 E0; unfold parse_enums.
  apply (fold_left_invariant
           (fun fields enum =>
              match PyDict.get Z.eqb (Row.e_Tag enum) fields with
              | Some f =>
                  PyDict.set Z.eqb (Row.e_Tag enum)
                    (Field.mk (Field.tag f) (Field.name f) (Field.type f)
                       (PyDict.set String.eqb (Row.e_Value enum)
                          (enum_description enum) (Field.enums f)))
                    fields
              | None => fields
              end)
           (fun _ fields =>
              PyDict.keys fields = PyDict.keys fields0
              /\ tags_agree fields
              /\ enum_values_distinct fields
              /\ (forall t,
                    option_map (fun f => (Field.name f, Field.type f))
                      (PyDict.get Z.eqb t fields)
                    = option_map (fun f => (Field.name f, Field.type f))
                        (PyDict.get Z.eqb t fields0))))
    with (seen := []); [|auto].
  clear - T0 E0; intros _ fields enum (K & T & E & N).
  destruct (PyDict.get Z.eqb (Row.e_Tag enum) fields) as [f|] eqn:G; [|auto].
  pose proof (get_In Z.eqb Z.eqb_eq _ _ _ G) as Hin.
  split; [|split; [|split]].
  - rewrite (keys_set Z.eqb); unfold PyDict.mem; rewrite G; exact K.
  - intros t g Hg; apply (In_set Z.eqb Z.eqb_eq) in Hg as [[-> ->]|Hg]; simpl; eauto.
  - intros t g Hg; apply (In_set Z.eqb Z.eqb_eq) in Hg as [[-> ->]|Hg]; simpl; eauto.
    apply (NoDup_keys_set String.eqb String.eqb_eq); eauto.
  - intros t; rewrite <- N.
    destruct (Z.eq_dec t (Row.e_Tag enum)) as [->|Hne].
    + rewrite (get_set_same Z.eqb Z.eqb_eq), G; reflexivity.
    + rewrite (get_set_other Z.eqb Z.eqb_eq) by exact Hne; reflexivity.
Qed.

(** ** The fields section *)

Lemma StronglySorted_le_lt l :
  NoDup l -> StronglySorted Z.le l -> StronglySorted Z.lt l.
Proof.
  induction 2 as [|x l Hs IH Hx]; constructor.
  - apply IH; inversion H; assumption.
  - inversion H as [|? ? Hnin _]; subst.
    rewrite Forall_forall in *; intros y Hy.
    pose proof (Hx y Hy); assert (x <> y) by (intros ->; contradiction); lia.
Qed.

Lemma sorted_keys_ascending {V} (fields : zdict V) :
  NoDup (PyDict.keys fields) ->
  StronglySorted Z.lt (Py.sorted Z.leb (fun tag => tag) (PyDict.keys fields)).
Proof.
  intros ND; apply StronglySorted_le_lt; [apply sorted_NoDup, ND|].
  apply (sorted_by_Z (fun tag : Z => tag)).
Qed.

Lemma In_keys_get {K V} (eqb : K -> K -> bool)
    (eqb_eq : forall a b, eqb a b = true <-> a = b) k (d : list (K * V)) :
  In k (PyDict.keys d) -> exists v, PyDict.get eqb k d = Some v.
Proof.
  intros Hin; destruct (PyDict.get eqb k d) as [v|] eqn:G; [eauto|].
  apply (get_None_not_In eqb eqb_eq) in G; contradiction.
Qed.

Lemma fields_section_tags fields l :
  tags_agree fields ->
  (forall t, In t l -> In t (PyDict.keys fields)) ->
  map (attr "tag")
    (flat_map
       (fun tag =>
          match PyDict.get Z.eqb tag fields with
          | Some field => [field_element field]
          | None => []
          end) l)
  = map (fun t => Some (Py.str t)) l.
Proof.
  intros T; induction l as [|t l IH]; intros Hl; simpl; [reflexivity|].
  destruct (In_keys_get Z.eqb Z.eqb_eq t fields (Hl t (or_introl eq_refl))) as [f G].
  pose proof (T t f (get_In Z.eqb Z.eqb_eq _ _ _ G)) as Hf; subst t.
  rewrite G, map_app, IH by (intros; apply Hl; right; assumption); reflexivity.
Qed.

Lemma fields_section_children fields field_el :
  In field_el (children_of (fields_section fields)) ->
  exists t f, In (t, f) fields /\ field_el = field_element f.
Proof.
  simpl; intros H; apply in_flat_map in H as (t & _ & H).
  destruct (PyDict.get Z.eqb t fields) as [f|] eqn:G; [|contradiction].
  destruct H as [<-|[]]; exists t, f; split; [|reflexivity].
  apply (get_In Z.eqb Z.eqb_eq); exact G.
Qed.

Lemma find_rev_In_tags rows t :
  In t (map Row.f_Tag rows)
  <-> exists r, find (fun r => Row.f_Tag r =? t) (rev rows) = Some r.
Proof.
  split.
  - intros H; apply in_map_iff in H as (r & <- & Hr).
    destruct (find (fun r0 => Row.f_Tag r0 =? Row.f_Tag r) (rev rows)) as [r'|] eqn:F;
      [eauto|].
    apply in_rev in Hr; apply (find_none _ _ F r) in Hr.
    rewrite Z.eqb_refl in Hr; discriminate.
  - intros [r F]; apply find_some in F as [Hin E].
    apply Z.eqb_eq in E; subst t; apply in_map, in_rev; exact Hin.
Qed.

(** C6.  The [tag] attributes of the field elements are the decimal
    renderings of a strictly ascending list of integers, so no tag comes
    twice; the list is made of the tags of the field table, each once
    however often the table repeats it, and the element of a repeated tag
    carries the name and type of the last record with that tag. *)
Theorem C6_field_tags_strictly_ascending :
  forall field_rows enum_rows,
    let fields := parse_enums enum_rows (parse_fields field_rows) in
    let field_els := children_of (fields_section fields) in
    exists tags,
      map (attr "tag") field_els = map (fun t => Some (Py.str t)) tags
      /\ StronglySorted Z.lt tags
      /\ NoDup (map (attr "tag") field_els)
      /\ (forall t, In t tags <-> In t (map Row.f_Tag field_rows))
      /\ (forall t r,
            find (fun r => Row.f_Tag r =? t) (rev field_rows) = Some r ->
            exists enum_els,
              In (Elem "field"
                    [("tag", Py.str t); ("name", Row.f_Name r); ("type", Row.f_Type r)]
                    enum_els)
                 field_els).
Proof.
  intros field_rows enum_rows fields field_els.
  destruct (parse_fields_spec field_rows) as [ND0 G0].
  destruct (parse_fields_invariants field_rows) as [T0 E0].
  destruct (parse_enums_spec enum_rows _ T0 E0) as (K & T & _ & N).
  fold fields in K, T, N.
  assert (ND : NoDup (PyDict.keys fields)) by (rewrite K; exact ND0).
  set (tags := Py.sorted Z.leb (fun tag => tag) (PyDict.keys fields)).
  assert (Hattrs : map (attr "tag") field_els = map (fun t => Some (Py.str t)) tags).
  { apply fields_section_tags; [exact T|].
    intros t Ht; exact (proj1 (sorted_In Z.leb (fun tag : Z => tag) t _) Ht). }
  assert (Hsorted : StronglySorted Z.lt tags) by (apply sorted_keys_ascending, ND).
  assert (Hkeys : forall t, In t tags <-> In t (map Row.f_Tag field_rows)).
  { intros t; unfold tags; rewrite (sorted_In Z.leb (fun tag : Z => tag)), K.
    rewrite find_rev_In_tags; split.
    - intros Hin; apply (In_keys_get Z.eqb Z.eqb_eq) in Hin as [f G].
      rewrite G0 in G.
      destruct (find (fun r => Row.f_Tag r =? t) (rev field_rows)) as [r|];
        [eauto | discriminate].
    - intros [r F].
      destruct (PyDict.get Z.eqb t (parse_fields field_rows)) eqn:G.
      + apply (get_In Z.eqb Z.eqb_eq) in G.
        change t with (fst (t, t0)); apply in_map; exact G.
      + rewrite G0, F in G; discriminate. }
  exists tags; split; [exact Hattrs|]; split; [exact Hsorted|]; split; [|split].
  - rewrite Hattrs; apply Finite.Injective_map_NoDup.
    + intros a b E; inversion E; apply str_inj; assumption.
    + apply sorted_NoDup, ND.
  - exact Hkeys.
  - intros t r F.
    specialize (N t); rewrite G0, F in N; simpl in N.
    destruct (PyDict.get Z.eqb t fields) as [f|] eqn:G; [|discriminate].
    simpl in N; inversion N as [[Hn Ht]].
    exists (map enum_element (Py.sorted String.leb fst (Field.enums f))).
    unfold field_els; simpl; apply in_flat_map; exists t; split.
    + apply Hkeys, find_rev_In_tags; eauto.
    + rewrite G; left; unfold field_element.
      rewrite (T t f (get_In Z.eqb Z.eqb_eq _ _ _ G)); reflexivity.
Qed.

(** ** Enum entries *)

Lemma take_length n s : (String.length (Py.take n s) <= n)%nat.
Proof.
  revert s; induction n as [|n IH]; intros [|c s]; simpl; try lia.
  specialize (IH s); lia.
Qed.

Lemma enum_element_value l :
  map (attr "value") (map enum_element l) = map (fun e => Some (fst e)) l.
Proof.
  rewrite map_map; apply map_ext; intros [value desc]; reflexivity.
Qed.

(** C4, as the code has it.  Under every field element the [value]
    attributes of the enum entries are pairwise different.  The [desc]
    attribute is the first 100 characters of the stored description, hence
    at most 100 characters long, whenever that description is there and not
    empty; when it is absent or empty the raw value is emitted in its place,
    whole. *)
Theorem C4_enum_values_unique_desc_bounded :
  forall field_rows enum_rows field_el,
    let fields := parse_enums enum_rows (parse_fields field_rows) in
    In field_el (children_of (fields_section fields)) ->
    NoDup (map (attr "value") (children_of field_el))
    /\ forall enum_el,
         In enum_el (children_of field_el) ->
         exists t f value desc text,
           In (t, f) fields
           /\ In (value, desc) (Field.enums f)
           /\ enum_el = Elem "enum" [("value", value); ("desc", text)] []
           /\ (Py.truthy desc = true ->
               (String.length text <= 100)%nat
               /\ exists whole, desc = Some whole /\ text = Py.take 100 whole)
           /\ (Py.truthy desc = false -> text = value).
Proof.
  intros field_rows enum_rows field_el fields Hin.
  destruct (parse_fields_invariants field_rows) as [T0 E0].
  destruct (parse_enums_spec enum_rows _ T0 E0) as (_ & _ & E & _).
  fold fields in E.
  apply fields_section_children in Hin as (t & f & Hf & ->).
  simpl children_of; split.
  - rewrite enum_element_value, <- (map_map fst Some).
    apply Finite.Injective_map_NoDup; [intros a b H; inversion H; reflexivity|].
    eapply Permutation_NoDup;
      [apply Permutation_map; symmetry; apply (sorted_perm String.leb fst)|].
    exact (E t f Hf).
  - intros enum_el He; apply in_map_iff in He as ([value desc] & <- & He).
    apply (proj1 (sorted_In String.leb fst _ _)) in He.
    exists t, f, value, desc.
    destruct desc as [[|c d]|].
    + exists value; split; [exact Hf|]; split; [exact He|]; split; [reflexivity|].
      split; [discriminate | reflexivity].
    + exists (Py.take 100 (String c d)).
      split; [exact Hf|]; split; [exact He|]; split; [reflexivity|].
      split; [intros _ | discriminate].
      split; [apply take_length | exists (String c d); auto].
    + exists value; split; [exact Hf|]; split; [exact He|]; split; [reflexivity|].
      split; [discriminate | reflexivity].
Qed.

Lemma C4_enum_values_unique_desc_bounded_witness :
  In scenario_field_element
    (children_of
       (fields_section
          (parse_enums (Enums_xml scenario) (parse_fields (Fields_xml scenario)))))
  /\ NoDup (map (attr "value") (children_of scenario_field_element)).
Proof.
  split; [left; reflexivity|].
  apply (C4_enum_values_unique_desc_bounded (Fields_xml scenario) (Enums_xml scenario)
           scenario_field_element).
  left; reflexivity.
Defined.

(** C4 as stated fails: an enum entry without description text and with a
    raw value of 101 characters is emitted with a [desc] of 101 characters. *)
Lemma C4_desc_longer_than_bound :
  exists field_el enum_el text,
    In field_el
      (children_of
         (fields_section (parse_enums long_value_enums (parse_fields long_value_fields))))
    /\ In enum_el (children_of field_el)
    /\ attr "desc" enum_el = Some text
    /\ String.length text = 101%nat.
Proof.
  eexists _, _, _; split; [left; reflexivity|].
  split; [left; reflexivity|].
  split; vm_compute; reflexivity.
Qed.

(** ** The command line *)

(** C8.  With fewer than two arguments the program prints the two usage
    lines and exits with status 1; with a resolved repository path that does
    not exist it prints the error line and exits with status 1.  In both
    cases nothing else happened: no directory made, no file written, no line
    of a version printed. *)
Theorem C8_usage_and_missing_repository :
  forall path_join basename path_exists tables_at pretty_xml argv w,
    let resolved := resolved_repo_path path_join basename path_exists argv in
    (List.length argv <? 3)%nat || negb (path_exists resolved) = true ->
    exists w',
      main path_join basename path_exists tables_at pretty_xml argv w
      = (w', SystemExit 1)
      /\ exit_status (SystemExit 1) <> 0
      /\ stdout w'
         = stdout w
           ++ (if (List.length argv <? 3)%nat
               then [usage_line; example_line]
               else [("Error: Repository path not found: " ++ resolved)%string])
      /\ files w' = files w
      /\ made_dirs w' = made_dirs w.
Proof.
  intros path_join basename path_exists tables_at pretty_xml argv w resolved H.
  unfold main; fold (resolved_repo_path path_join basename path_exists argv).
  fold resolved.
  destruct (List.length argv <? 3)%nat; simpl in H.
  - eexists; split; [reflexivity|]; simpl.
    split; [discriminate|]; split; [rewrite <- app_assoc; reflexivity | auto].
  - rewrite H; eexists; split; [reflexivity|]; simpl.
    split; [discriminate | auto].
Qed.

Lemma C8_usage_and_missing_repository_witness :
  (exists w',
     main sample_join sample_basename sample_exists (fun _ => scenario)
       sample_pretty_xml ["generate-fix-dictionary.py"; "repo"] empty_world
     = (w', SystemExit 1)
     /\ stdout w' = [usage_line; example_line])
  /\ (exists w',
        main sample_join sample_basename sample_exists (fun _ => scenario)
          sample_pretty_xml ["generate-fix-dictionary.py"; "elsewhere"; "out"]
          empty_world
        = (w', SystemExit 1)
        /\ stdout w' = ["Error: Repository path not found: elsewhere"]).
Proof.
  split.
  - destruct (C8_usage_and_missing_repository sample_join sample_basename
                sample_exists (fun _ => scenario) sample_pretty_xml
                ["generate-fix-dictionary.py"; "repo"] empty_world eq_refl)
      as (w' & Hrun & _ & Hout & _).
    exists w'; split; [exact Hrun | exact Hout].
  - destruct (C8_usage_and_missing_repository sample_join sample_basename
                sample_exists (fun _ => scenario) sample_pretty_xml
                ["generate-fix-dictionary.py"; "elsewhere"; "out"] empty_world eq_refl)
      as (w' & Hrun & _ & Hout & _).
    exists w'; split; [exact Hrun | exact Hout].
Defined.

(** ** When the run raises *)

Example scenario_runs : version_document scenario "FIX.4.4" = Ok scenario_document.
Proof. reflexivity. Qed.

Example superscript_raises :
  Py.isdigit superscript_two = true /\ Py.int superscript_two = ValueError.
Proof. split; reflexivity. Qed.

Lemma for_each_total {A S} (body : S -> A -> result S) l :
  (forall s x, In x l -> exists s', body s x = Ok s') ->
  forall s, exists s', for_each body l s = Ok s'.
Proof.
  induction l as [|x l IH]; intros Hbody s; simpl; [eauto|].
  destruct (Hbody s x (or_introl eq_refl)) as [s1 ->]; simpl.
  apply IH; intros s0 y Hy; apply Hbody; right; exact Hy.
Qed.

Lemma int_total s :
  Py.isdigit s = true -> plain_text s = true -> exists n, Py.int s = Ok n.
Proof.
  unfold plain_text, Py.int; intros D P; rewrite D in P; simpl in P.
  rewrite P; eauto.
Qed.

Lemma associate_item_total fields target st item :
  plain_text (Item.tagText item) = true ->
  exists st', associate_item fields target st item = Ok st'.
Proof.
  intros P; unfold associate_item.
  destruct (is_envelope (Item.tagText item)); [eauto|].
  destruct (Py.isdigit (Item.tagText item)) eqn:D.
  - destruct (int_total _ D P) as [n ->]; simpl.
    destruct (PyDict.get Z.eqb n fields) as [field|]; [|eauto].
    destruct (String.eqb (Field.type field) "NumInGroup"); eauto.
  - destruct (existsb _ _); [|eauto].
    destruct (find _ _); eauto.
Qed.

Lemma scan_item_total fields s item :
  plain_text (Item.tagText item) = true ->
  exists s', scan_item fields s item = Ok s'.
Proof.
  intros P; unfold scan_item.
  destruct (Py.isdigit (Item.tagText item)) eqn:D; [|eauto].
  destruct (int_total _ D P) as [n ->]; simpl.
  destruct (PyDict.get Z.eqb n fields) as [field|]; [|eauto].
  destruct (String.eqb (Field.type field) "NumInGroup" && _); [eauto|].
  destruct (1 <=? Item.indent item); eauto.
Qed.

(** The items kept for the owners are the rows of the file. *)
Lemma stored_items_from_rows rows k l item :
  In (k, l) (sort_contents (group_contents rows)) ->
  In item l ->
  exists content, In content rows /\ item = make_item content.
Proof.
  intros Hkl Hitem.
  assert (ND : NoDup (PyDict.keys (sort_contents (group_contents rows))))
    by (rewrite sort_contents_keys; apply group_contents_spec).
  apply (In_get String.eqb String.eqb_eq _ _ _ ND) in Hkl.
  pose proof (owner_items_sorted rows k) as Ho; unfold owner_items in Ho.
  rewrite Hkl in Ho; subst l.
  apply (proj1 (sorted_In Z.leb Item.position _ _)) in Hitem.
  unfold rows_of in Hitem; apply in_map_iff in Hitem as (content & <- & Hc).
  apply filter_In in Hc as [Hc _]; eauto.
Qed.

(** The run of a version raises on nothing but a numeric tag-text that holds
    a superscript digit. *)
Lemma load_version_total t :
  Forall (fun content => plain_text (Row.TagText content) = true) (MsgContents_xml t) ->
  exists loaded, load_version t = Ok loaded.
Proof.
  intros Hplain; rewrite Forall_forall in Hplain.
  assert (Hitems : forall k l item,
             In (k, l) (sort_contents (group_contents (MsgContents_xml t))) ->
             In item l -> plain_text (Item.tagText item) = true).
  { intros k l item Hkl Hitem.
    destruct (stored_items_from_rows _ _ _ _ Hkl Hitem) as (content & Hc & ->).
    apply Hplain; exact Hc. }
  unfold load_version, parse_msg_contents.
  set (fields := parse_enums (Enums_xml t) (parse_fields (Fields_xml t))).
  set (cc := sort_contents (group_contents (MsgContents_xml t))) in *.
  destruct (for_each_total (associate_owner fields) cc) with
    (s := mkStore (parse_messages (Messages_xml t))
            (parse_components (Components_xml t))) as [st' Hst].
  { intros s [k l] Hkl; unfold associate_owner.
    destruct (resolve_target k s) as [target|]; [|eauto].
    apply for_each_total; intros s0 item Hitem.
    apply associate_item_total; eapply Hitems; eassumption. }
  rewrite Hst; simpl.
  destruct (for_each_total (identify_component cc fields) (components_of st'))
    with (s := @nil (string * Group.t)) as [groups Hgroups].
  { intros groups [comp_id comp] _; unfold identify_component.
    destruct (String.eqb (Component.type comp) "BlockRepeating"); [|eauto].
    destruct (PyDict.get String.eqb comp_id cc) as [[|x contents]|] eqn:G; eauto.
    destruct (for_each_total (scan_item fields) (x :: contents))
      with (s := mkScan None None []) as [s Hs].
    { intros s0 item Hitem; apply scan_item_total.
      eapply Hitems; [apply (get_In String.eqb String.eqb_eq); exact G | exact Hitem]. }
    rewrite Hs; simpl.
    destruct (count_tag s), (first_tag s); eauto.
    destruct (_ && _); eauto. }
  unfold identify_repeating_groups; rewrite Hgroups; simpl; eauto.
Qed.

(** ** Placeholders removed from the file *)

Lemma insert_below {A} (key : A -> Z) x l :
  Forall (fun y => key x <= key y) l -> Py.insert Z.leb key x l = x :: l.
Proof.
  intros F; destruct l as [|y l]; [reflexivity|]; simpl.
  inversion F as [|? ? Hy _]; subst.
  apply Z.leb_le in Hy; rewrite Hy; reflexivity.
Qed.

Lemma filter_insert {A} (key : A -> Z) (p : A -> bool) x l :
  StronglySorted (fun a b => key a <= key b) l ->
  filter p (Py.insert Z.leb key x l)
  = if p x then Py.insert Z.leb key x (filter p l) else filter p l.
Proof.
  induction 1 as [|y l Hs IH Hy]; simpl.
  - destruct (p x); reflexivity.
  - destruct (key x <=? key y) eqn:E.
    + simpl; destruct (p x) eqn:Px; [|reflexivity].
      apply Z.leb_le in E.
      symmetry; apply insert_below.
      destruct (p y); [constructor; [exact E|]|];
        apply Forall_forall; intros z Hz; apply filter_In in Hz as [Hz _];
        rewrite Forall_forall in Hy; specialize (Hy z Hz); lia.
    + simpl; rewrite IH.
      destruct (p x), (p y); simpl; rewrite ?E; reflexivity.
Qed.

Lemma filter_sorted {A} (key : A -> Z) (p : A -> bool) l :
  filter p (Py.sorted Z.leb key l) = Py.sorted Z.leb key (filter p l).
Proof.
  induction l as [|x l IH]; [reflexivity|].
  simpl Py.sorted; rewrite filter_insert by apply sorted_by_Z.
  simpl; rewrite IH; destruct (p x); reflexivity.
Qed.

Lemma rows_of_without k rows :
  rows_of k (filter keep_row rows) = filter keep_item (rows_of k rows).
Proof.
  unfold rows_of; induction rows as [|r rows IH]; [reflexivity|]; simpl.
  destruct (keep_row r) eqn:Kr, (String.eqb (Row.ComponentID r) k) eqn:E; simpl;
    rewrite ?E; simpl; unfold keep_item; simpl; fold (keep_row r);
    rewrite ?Kr, ?IH; reflexivity.
Qed.

Lemma owner_items_without t k :
  owner_items (loaded_contents (without_placeholders t)) k
  = filter keep_item (owner_items (loaded_contents t) k).
Proof.
  unfold loaded_contents; simpl; rewrite !owner_items_sorted, rows_of_without.
  symmetry; apply filter_sorted.
Qed.

Lemma flat_map_filter {A B} (f : A -> list B) (p : A -> bool) l :
  (forall x, p x = false -> f x = []) ->
  flat_map f (filter p l) = flat_map f l.
Proof.
  intros Hnil; induction l as [|x l IH]; [reflexivity|]; simpl.
  destruct (p x) eqn:E; simpl; rewrite IH; [reflexivity|].
  rewrite (Hnil x E); reflexivity.
Qed.

Lemma placeholder_gives_no_tag fields item :
  keep_item item = false -> item_tag_refs fields item = [].
Proof.
  unfold keep_item; intros H; apply negb_false_iff in H.
  unfold item_tag_refs; rewrite (envelope_names_nothing _ _ H); reflexivity.
Qed.

Lemma placeholder_gives_no_group fields components item :
  keep_item item = false -> item_group_refs fields components item = [].
Proof.
  unfold keep_item; intros H; apply negb_false_iff in H.
  unfold item_group_refs; rewrite H; reflexivity.
Qed.

Lemma placeholder_is_plain item : keep_item item = false -> plain_text (Item.tagText item) = true.
Proof.
  unfold keep_item, plain_text; intros H; apply negb_false_iff in H.
  rewrite (envelope_not_digit _ H); reflexivity.
Qed.

(** ** Which runs raise *)

Lemma associate_item_Ok_plain fields target st item st' :
  associate_item fields target st item = Ok st' ->
  plain_text (Item.tagText item) = true.
Proof.
  unfold associate_item, plain_text.
  destruct (is_envelope (Item.tagText item)) eqn:Env;
    [rewrite (envelope_not_digit _ Env); reflexivity|].
  destruct (Py.isdigit (Item.tagText item)); [|reflexivity].
  unfold Py.int; destruct (forallb Py.is_decimal _); [reflexivity | discriminate].
Qed.

Lemma for_each_Ok_each {A S} (body : S -> A -> result S) (Q : A -> Prop) :
  (forall s x s', body s x = Ok s' -> Q x) ->
  forall l s s', for_each body l s = Ok s' -> Forall Q l.
Proof.
  intros Hb l; induction l as [|x l IH]; intros s s' H; [constructor|].
  simpl in H; apply bind_Ok in H as (s1 & H1 & H2).
  constructor; [eapply Hb; exact H1 | eapply IH; exact H2].
Qed.

Lemma for_each_total_invariant {A S} (body : S -> A -> result S) (I : S -> Prop) l :
  (forall s x, In x l -> I s -> exists s', body s x = Ok s' /\ I s') ->
  forall s, I s -> exists s', for_each body l s = Ok s'.
Proof.
  induction l as [|x l IH]; intros Hbody s Hs; simpl; [eauto|].
  destruct (Hbody s x (or_introl eq_refl) Hs) as (s1 & -> & H1); simpl.
  apply IH; [|exact H1].
  intros s0 y Hy; apply Hbody; right; exact Hy.
Qed.

Lemma get_modify {K V} (eqb : K -> K -> bool)
    (eqb_eq : forall a b, eqb a b = true <-> a = b) k k' (f : V -> V) d :
  PyDict.get eqb k (PyDict.modify eqb k' f d)
  = if eqb k k' then option_map f (PyDict.get eqb k d) else PyDict.get eqb k d.
Proof.
  destruct (eqb k k') eqn:E.
  - apply eqb_eq in E; subst; apply get_modify_same.
  - apply get_modify_other; [exact eqb_eq|].
    intros ->; rewrite (eqb_refl_true eqb eqb_eq) in E; discriminate.
Qed.

(** Processing an owner changes no answer of [resolve_target]. *)
Lemma associate_owner_resolve fields s x s' :
  associate_owner fields s x = Ok s' ->
  forall k, resolve_target k s' = resolve_target k s.
Proof.
  destruct x as [k' l]; intros H k; apply associate_owner_effect in H.
  unfold resolve_target; subst s'.
  destruct (PyDict.mem String.eqb k' (messages_of s)); simpl;
    rewrite (get_modify String.eqb String.eqb_eq);
    destruct (String.eqb k k');
    try reflexivity.
  - destruct (PyDict.get String.eqb k (messages_of s)); reflexivity.
  - destruct (PyDict.get String.eqb k (messages_of s)); [reflexivity|].
    destruct (PyDict.get String.eqb k (components_of s)); reflexivity.
Qed.

Lemma associate_owners_Ok_plain fields cc st0 st :
  for_each (associate_owner fields) cc st0 = Ok st ->
  contents_plain st0 cc.
Proof.
  intros H.
  set (P := fun (seen : sdict (list Item.t)) (s : Store) =>
              (forall k, resolve_target k s = resolve_target k st0)
              /\ contents_plain st0 seen).
  assert (Hstep : forall seen s x s',
             P seen s -> associate_owner fields s x = Ok s' -> P (seen ++ [x]) s').
  { clear; intros seen s [k' l'] s' [R C] Hstep; split.
    - intros k; rewrite (associate_owner_resolve _ _ _ _ Hstep); apply R.
    - intros k l item Hkl Hres Hitem.
      apply in_app_or in Hkl as [Hkl|[Hkl|[]]]; [eapply C; eassumption|].
      inversion Hkl; subst k' l'; clear Hkl.
      rewrite <- R in Hres; unfold associate_owner in Hstep.
      destruct (resolve_target k s) as [target|]; [|contradiction].
      apply (for_each_Ok_each _ (fun item => plain_text (Item.tagText item) = true))
        in Hstep; [|intros ? ? ?; apply associate_item_Ok_plain].
      rewrite Forall_forall in Hstep; apply Hstep; exact Hitem. }
  assert (Hinit : P [] st0) by (split; [reflexivity | intros ? ? ? []]).
  exact (proj2 (for_each_invariant _ P Hstep cc [] st0 st Hinit H)).
Qed.

Lemma associate_owners_total fields cc st0 :
  contents_plain st0 cc ->
  exists st, for_each (associate_owner fields) cc st0 = Ok st.
Proof.
  intros C.
  apply (for_each_total_invariant (associate_owner fields)
           (fun s => forall k, resolve_target k s = resolve_target k st0));
    [|reflexivity].
  intros s [k l] Hkl R.
  assert (Hok : exists s', associate_owner fields s (k, l) = Ok s').
  { unfold associate_owner.
    destruct (resolve_target k s) as [target|] eqn:T; [|eauto].
    apply for_each_total; intros s0 item Hitem; apply associate_item_total.
    apply (C k l item Hkl); [rewrite <- R, T; discriminate | exact Hitem]. }
  destruct Hok as [s' Hs']; exists s'; split; [exact Hs'|].
  intros k0; rewrite (associate_owner_resolve _ _ _ _ Hs'); apply R.
Qed.

Lemma resolve_target_keys k st :
  resolve_target k st <> None
  <-> In k (PyDict.keys (messages_of st)) \/ In k (PyDict.keys (components_of st)).
Proof.
  unfold resolve_target.
  pose proof (get_None_not_In String.eqb String.eqb_eq k (messages_of st)) as Hm.
  pose proof (get_None_not_In String.eqb String.eqb_eq k (components_of st)) as Hc.
  destruct (PyDict.get String.eqb k (messages_of st)).
  - split; [intros _; left | discriminate].
    destruct (in_dec string_dec k (PyDict.keys (messages_of st))) as [H|H]; [exact H|].
    apply Hm in H; discriminate.
  - destruct (PyDict.get String.eqb k (components_of st)).
    + split; [intros _; right | discriminate].
      destruct (in_dec string_dec k (PyDict.keys (components_of st))) as [H|H];
        [exact H|].
      apply Hc in H; discriminate.
    + split; [intros H; contradiction|].
      intros [H|H]; [apply Hm in H | apply Hc in H]; auto.
Qed.

Lemma identify_total components cc fields :
  (forall k c l item,
     In (k, c) components ->
     PyDict.get String.eqb k cc = Some l ->
     In item l ->
     plain_text (Item.tagText item) = true) ->
  exists groups, identify_repeating_groups components cc fields = Ok groups.
Proof.
  intros Hplain; unfold identify_repeating_groups.
  apply for_each_total_invariant with (I := fun _ => True); [|exact I].
  intros groups [comp_id comp] Hin _; unfold identify_component.
  destruct (String.eqb (Component.type comp) "BlockRepeating"); [|eauto].
  destruct (PyDict.get String.eqb comp_id cc) as [[|x contents]|] eqn:G; eauto.
  destruct (for_each_total (scan_item fields) (x :: contents))
    with (s := mkScan None None []) as [s Hs].
  { intros s0 item Hitem; apply scan_item_total.
    eapply Hplain; eassumption. }
  rewrite Hs; simpl.
  destruct (count_tag s), (first_tag s); eauto.
  destruct (_ && _); eauto.
Qed.

(** The run of a version goes through exactly when every row of an owner
    that resolves to a record has plain tag-text. *)
Lemma load_version_Ok_iff t :
  (exists loaded, load_version t = Ok loaded)
  <-> contents_plain (loaded_store t) (loaded_contents t).
Proof.
  unfold load_version, parse_msg_contents.
  fold (loaded_store t); fold (loaded_contents t).
  set (fields := parse_enums (Enums_xml t) (parse_fields (Fields_xml t))).
  split.
  - intros [loaded H].
    apply bind_Ok in H as ([st cc] & H & _).
    apply bind_Ok in H as (st' & H & _).
    eapply associate_owners_Ok_plain; exact H.
  - intros C.
    destruct (associate_owners_total fields _ _ C) as [st Hst].
    rewrite Hst; simpl.
    assert (ND : NoDup (PyDict.keys (loaded_contents t)))
      by (unfold loaded_contents; rewrite sort_contents_keys; apply group_contents_spec).
    destruct (associate_owners_effect _ _ _ _ ND Hst) as (_ & Kc & _).
    destruct (identify_total (components_of st) (loaded_contents t) fields)
      as [groups Hg].
    { intros k c l item Hkc Hget Hitem.
      apply (C k l item); [apply (get_In String.eqb String.eqb_eq); exact Hget| |exact Hitem].
      apply resolve_target_keys; right; rewrite <- Kc.
      change k with (fst (k, c)); apply in_map; exact Hkc. }
    rewrite Hg; simpl; eauto.
Qed.

Lemma contents_plain_without t :
  contents_plain (loaded_store t) (loaded_contents t)
  <-> contents_plain (loaded_store (without_placeholders t))
        (loaded_contents (without_placeholders t)).
Proof.
  assert (NDall : forall t', NoDup (PyDict.keys (loaded_contents t')))
    by (intros; unfold loaded_contents; rewrite sort_contents_keys;
        apply group_contents_spec).
  assert (Hown : forall t' k l, In (k, l) (loaded_contents t') ->
                                owner_items (loaded_contents t') k = l).
  { intros t' k l Hkl; unfold owner_items.
    rewrite (In_get String.eqb String.eqb_eq _ _ _ (NDall t') Hkl); reflexivity. }
  assert (Hback : forall t' k item, In item (owner_items (loaded_contents t') k) ->
                    In (k, owner_items (loaded_contents t') k) (loaded_contents t')).
  { intros t' k item Hitem; unfold owner_items in *.
    destruct (PyDict.get String.eqb k (loaded_contents t')) eqn:G; [|contradiction].
    apply (get_In String.eqb String.eqb_eq); exact G. }
  change (loaded_store (without_placeholders t)) with (loaded_store t).
  split; intros C k l item Hkl Hres Hitem.
  - rewrite <- (Hown _ _ _ Hkl), owner_items_without in Hitem.
    apply filter_In in Hitem as [Hitem _].
    eapply C; [eapply Hback; exact Hitem | exact Hres | exact Hitem].
  - destruct (keep_item item) eqn:Keep; [|apply placeholder_is_plain; exact Keep].
    assert (Hitem' : In item (owner_items (loaded_contents (without_placeholders t)) k)).
    { rewrite owner_items_without; apply filter_In; split; [|exact Keep].
      rewrite (Hown _ _ _ Hkl); exact Hitem. }
    eapply C; [eapply Hback; exact Hitem' | exact Hres | exact Hitem'].
Qed.

(** ** The document without the placeholder rows *)

Lemma dict_ext {K V} (eqb : K -> K -> bool)
    (eqb_eq : forall a b, eqb a b = true <-> a = b) (d1 : list (K * V)) :
  forall d2,
    NoDup (PyDict.keys d1) ->
    PyDict.keys d1 = PyDict.keys d2 ->
    (forall k, PyDict.get eqb k d1 = PyDict.get eqb k d2) ->
    d1 = d2.
Proof.
  induction d1 as [|[k1 v1] d1 IH]; intros [|[k2 v2] d2] ND Hkeys G; try discriminate;
    [reflexivity|].
  simpl in Hkeys; inversion Hkeys as [[Hk Hks]]; subst k2.
  inversion ND as [|? ? Hnin ND']; subst.
  pose proof (G k1) as G1; simpl in G1; rewrite (eqb_refl_true eqb eqb_eq) in G1.
  inversion G1; subst v2; f_equal.
  apply IH; [exact ND' | exact Hks |].
  intros k; specialize (G k); simpl in G.
  destruct (eqb k k1) eqn:E; [|exact G].
  apply eqb_eq in E; subst k.
  pose proof (proj2 (get_None_not_In eqb eqb_eq k1 d1) Hnin) as N1.
  rewrite Hks in Hnin.
  pose proof (proj2 (get_None_not_In eqb eqb_eq k1 d2) Hnin) as N2.
  congruence.
Qed.

Lemma loaded_store_NoDup t :
  NoDup (PyDict.keys (messages_of (loaded_store t)))
  /\ NoDup (PyDict.keys (components_of (loaded_store t))).
Proof.
  unfold loaded_store, parse_messages, parse_components; simpl; split.
  - apply (fold_left_invariant _ (fun _ d => NoDup (PyDict.keys d)))
      with (seen := []); [|constructor].
    intros _ d x ND; apply (NoDup_keys_set String.eqb String.eqb_eq); exact ND.
  - apply (fold_left_invariant _ (fun _ d => NoDup (PyDict.keys d)))
      with (seen := []); [|constructor].
    intros _ d x ND; apply (NoDup_keys_set String.eqb String.eqb_eq); exact ND.
Qed.

Lemma load_version_Ok_parts t fields st groups :
  load_version t = Ok (fields, st, groups) ->
  fields = parse_enums (Enums_xml t) (parse_fields (Fields_xml t))
  /\ for_each (associate_owner fields) (loaded_contents t) (loaded_store t) = Ok st
  /\ identify_repeating_groups (components_of st) (loaded_contents t) fields
     = Ok groups.
Proof.
  unfold load_version, parse_msg_contents.
  fold (loaded_store t); fold (loaded_contents t).
  intros H; apply bind_Ok in H as ([st1 cc] & H1 & H2).
  apply bind_Ok in H1 as (st2 & H1 & Hcc); inversion Hcc; subst st2 cc; clear Hcc.
  apply bind_Ok in H2 as (groups1 & H2 & H3); inversion H3; subst.
  auto.
Qed.

Lemma for_each_ext {A S} (body1 body2 : S -> A -> result S) l :
  (forall s x, body1 s x = body2 s x) ->
  forall s, for_each body1 l s = for_each body2 l s.
Proof.
  intros E; induction l as [|x l IH]; intros s; simpl; [reflexivity|].
  rewrite E; destruct (body2 s x); simpl; auto.
Qed.

(** The identifier reads a component's rows through [owner_items] only. *)
Lemma identify_component_items cc fields groups comp_id comp :
  identify_component cc fields groups (comp_id, comp)
  = if String.eqb (Component.type comp) "BlockRepeating" then
      do s <- for_each (scan_item fields) (owner_items cc comp_id) (mkScan None None []);
      match count_tag s, first_tag s with
      | Some c, Some f =>
          if Py.truthy_int (Some c) && Py.truthy_int (Some f)
          then Ok (PyDict.set String.eqb (Component.name comp)
                     (Group.mk (Component.name comp) c f (member_tags s)) groups)
          else Ok groups
      | _, _ => Ok groups
      end
    else Ok groups.
Proof.
  unfold identify_component, owner_items.
  destruct (String.eqb (Component.type comp) "BlockRepeating"); [|reflexivity].
  destruct (PyDict.get String.eqb comp_id cc) as [[|x l]|]; reflexivity.
Qed.

Lemma identify_without t components fields :
  identify_repeating_groups components (loaded_contents (without_placeholders t)) fields
  = identify_repeating_groups components (loaded_contents t) fields.
Proof.
  unfold identify_repeating_groups; apply for_each_ext.
  intros groups [comp_id comp]; rewrite !identify_component_items.
  rewrite owner_items_without.
  rewrite <- (proj2 (envelope_rows_skipped fields (MessageAt comp_id)
                       (owner_items (loaded_contents t) comp_id)
                       (mkStore [] []) (mkScan None None []))).
  reflexivity.
Qed.

Lemma associate_without t fields st st' :
  for_each (associate_owner fields) (loaded_contents t) (loaded_store t) = Ok st ->
  for_each (associate_owner fields) (loaded_contents (without_placeholders t))
    (loaded_store t) = Ok st' ->
  st' = st.
Proof.
  intros H H'.
  assert (NDall : forall t', NoDup (PyDict.keys (loaded_contents t')))
    by (intros; unfold loaded_contents; rewrite sort_contents_keys;
        apply group_contents_spec).
  destruct (associate_owners_effect _ _ _ _ (NDall _) H) as (Km & Kc & _ & Gm & Gc).
  destruct (associate_owners_effect _ _ _ _ (NDall _) H') as (Km' & Kc' & _ & Gm' & Gc').
  destruct (loaded_store_NoDup t) as [NDm NDc].
  assert (Ht : forall k,
             flat_map (item_tag_refs fields)
               (owner_items (loaded_contents (without_placeholders t)) k)
             = flat_map (item_tag_refs fields) (owner_items (loaded_contents t) k)).
  { intros k; rewrite owner_items_without; apply flat_map_filter.
    intros; apply placeholder_gives_no_tag; assumption. }
  assert (Hg : forall k,
             flat_map (item_group_refs fields (components_of (loaded_store t)))
               (owner_items (loaded_contents (without_placeholders t)) k)
             = flat_map (item_group_refs fields (components_of (loaded_store t)))
                 (owner_items (loaded_contents t) k)).
  { intros k; rewrite owner_items_without; apply flat_map_filter.
    intros; apply placeholder_gives_no_group; assumption. }
  destruct st as [ms cs], st' as [ms' cs']; simpl in *; f_equal.
  - apply (dict_ext String.eqb String.eqb_eq);
      [rewrite Km'; exact NDm | congruence |].
    intros k; rewrite Gm, Gm', Ht, Hg; reflexivity.
  - apply (dict_ext String.eqb String.eqb_eq);
      [rewrite Kc'; exact NDc | congruence |].
    intros k; rewrite Gc, Gc', Ht, Hg; reflexivity.
Qed.

(** C5.  A row whose tag-text is [StandardHeader] or [StandardTrailer]
    produces nothing in the output: taking all such rows out of the content
    table changes neither what the run of a version loads (the field table,
    every record of every message and component with its scalar tags and its
    group and component references, every group with its members) nor the
    document it emits, nor whether it raises. *)
Theorem C5_envelope_rows_produce_nothing :
  forall t version,
    load_version (without_placeholders t) = load_version t
    /\ version_document (without_placeholders t) version = version_document t version.
Proof.
  intros t version.
  assert (Hload : load_version (without_placeholders t) = load_version t).
  { destruct (load_version t) as [[[fields st] groups]|] eqn:E.
    - assert (C : contents_plain (loaded_store t) (loaded_contents t))
        by (apply load_version_Ok_iff; eauto).
      apply contents_plain_without, load_version_Ok_iff in C
        as [[[fields' st'] groups'] E'].
      rewrite E'.
      apply load_version_Ok_parts in E as (-> & A & G).
      apply load_version_Ok_parts in E' as (-> & A' & G').
      simpl in A', G'.
      change (loaded_store (without_placeholders t)) with (loaded_store t) in A'.
      assert (st' = st) by (eapply associate_without; eassumption); subst st'.
      rewrite identify_without, G in G'; inversion G'; reflexivity.
    - destruct (load_version (without_placeholders t)) as [loaded|] eqn:E';
        [|reflexivity].
      assert (C : contents_plain (loaded_store t) (loaded_contents t))
        by (apply contents_plain_without, load_version_Ok_iff; eauto).
      apply load_version_Ok_iff in C as [loaded' E'']; congruence. }
  split; [exact Hload|].
  unfold version_document; rewrite Hload; reflexivity.
Qed.

Example envelope_rows_example :
  exists fields st,
    load_version envelope_tables = Ok (fields, st, [])
    /\ PyDict.get String.eqb "10" (messages_of st)
       = Some (Message.mk "10" "D" "NewOrderSingle" [TagRef.mk 11 0] []).
Proof. eexists _, _; split; reflexivity. Qed.

(** * Further properties of the code *)

(** ** Order of strings *)

Lemma ascii_compare_refl a : Ascii.compare a a = Eq.
Proof. unfold Ascii.compare; apply N.compare_refl. Qed.

Lemma string_compare_refl s : String.compare s s = Eq.
Proof.
  induction s as [|a s IH]; simpl; [reflexivity|].
  rewrite ascii_compare_refl; exact IH.
Qed.

Lemma string_compare_Lt_trans a :
  forall b c,
    String.compare a b = Lt -> String.compare b c = Lt -> String.compare a c = Lt.
Proof.
  induction a as [|x a IH]; intros [|y b] [|z c]; simpl; try discriminate; auto.
  unfold Ascii.compare.
  destruct (N.compare_spec (N_of_ascii x) (N_of_ascii y)) as [Exy|Lxy|Gxy];
    try discriminate;
    destruct (N.compare_spec (N_of_ascii y) (N_of_ascii z)) as [Eyz|Lyz|Gyz];
    try discriminate; intros H1 H2.
  - rewrite Exy, Eyz, N.compare_refl; eapply IH; eassumption.
  - rewrite Exy; apply N.compare_lt_iff in Lyz; rewrite Lyz; reflexivity.
  - rewrite <- Eyz; apply N.compare_lt_iff in Lxy; rewrite Lxy; reflexivity.
  - assert (L : (N_of_ascii x < N_of_ascii z)%N) by lia.
    apply N.compare_lt_iff in L; rewrite L; reflexivity.
Qed.

Lemma string_leb_trans a b c :
  String.leb a b = true -> String.leb b c = true -> String.leb a c = true.
Proof.
  unfold String.leb.
  destruct (String.compare a b) eqn:Eab; try discriminate;
    destruct (String.compare b c) eqn:Ebc; try discriminate; intros _ _.
  - apply String.compare_eq_iff in Eab, Ebc; subst; rewrite string_compare_refl; reflexivity.
  - apply String.compare_eq_iff in Eab; subst; rewrite Ebc; reflexivity.
  - apply String.compare_eq_iff in Ebc; subst; rewrite Eab; reflexivity.
  - rewrite (string_compare_Lt_trans _ _ _ Eab Ebc); reflexivity.
Qed.

Lemma sorted_by_string {A} (key : A -> string) l :
  StronglySorted (fun x y => String.leb (key x) (key y) = true)
    (Py.sorted String.leb key l).
Proof.
  apply (sorted_sorted String.leb key String.leb_total string_leb_trans).
Qed.

Lemma string_ltb_of_leb a b : String.leb a b = true -> a <> b -> String.ltb a b = true.
Proof.
  unfold String.leb, String.ltb; intros H Hne.
  destruct (String.compare a b) eqn:E; try discriminate; [|reflexivity].
  apply String.compare_eq_iff in E; contradiction.
Qed.

Lemma sorted_strings_ascending l :
  NoDup l ->
  StronglySorted (fun a b => String.ltb a b = true)
    (Py.sorted String.leb (fun s => s) l).
Proof.
  intros ND.
  assert (ND' : NoDup (Py.sorted String.leb (fun s : string => s) l))
    by (apply sorted_NoDup, ND).
  pose proof (sorted_by_string (fun s : string => s) l) as S.
  induction S as [|x l' Hs IH Hx]; constructor.
  - apply IH; inversion ND'; assumption.
  - inversion ND' as [|? ? Hnin _]; subst.
    rewrite Forall_forall in *; intros y Hy.
    apply string_ltb_of_leb; [apply Hx, Hy | intros ->; contradiction].
Qed.

(** ** The loaders as dictionaries *)

(** A dictionary filled record by record: a key holds the value of its last
    record and sits where its first record put it. *)
Lemma load_dict_spec {K R V} (eqb : K -> K -> bool)
    (eqb_eq : forall a b, eqb a b = true <-> a = b)
    (dec : forall a b : K, {a = b} + {a <> b})
    (key : R -> K) (val : R -> V) (rows : list R) :
  (forall k,
     PyDict.get eqb k (fold_left (fun d r => PyDict.set eqb (key r) (val r) d) rows [])
     = option_map val (find (fun r => eqb (key r) k) (rev rows)))
  /\ PyDict.keys (fold_left (fun d r => PyDict.set eqb (key r) (val r) d) rows [])
     = rev (nodup dec (rev (map key rows))).
Proof.
  apply (fold_left_invariant
           (fun d r => PyDict.set eqb (key r) (val r) d)
           (fun seen d =>
              (forall k, PyDict.get eqb k d
                         = option_map val (find (fun r => eqb (key r) k) (rev seen)))
              /\ PyDict.keys d = rev (nodup dec (rev (map key seen)))))
    with (seen := []); [|split; reflexivity].
  clear rows; intros seen d r [G Kd]; split.
  - intros k; rewrite rev_app_distr; simpl.
    destruct (eqb (key r) k) eqn:E.
    + apply eqb_eq in E; subst k; apply get_set_same; exact eqb_eq.
    + rewrite get_set_other; [apply G | exact eqb_eq |].
      intros ->; rewrite (eqb_refl_true eqb eqb_eq) in E; discriminate.
  - rewrite (keys_set eqb), map_app, rev_app_distr; simpl.
    unfold PyDict.mem.
    destruct (in_dec dec (key r) (rev (map key seen))) as [Hin|Hnin].
    + destruct (PyDict.get eqb (key r) d) eqn:Gk; [exact Kd|].
      apply (get_None_not_In eqb eqb_eq) in Gk; exfalso; apply Gk.
      rewrite Kd, <- in_rev; apply nodup_In; exact Hin.
    + destruct (PyDict.get eqb (key r) d) eqn:Gk.
      * exfalso; apply Hnin.
        apply (get_In eqb eqb_eq) in Gk.
        assert (Hk : In (key r) (PyDict.keys d))
          by (change (key r) with (fst (key r, v)); apply in_map; exact Gk).
        rewrite Kd, <- in_rev in Hk; apply nodup_In in Hk; exact Hk.
      * simpl; rewrite Kd; reflexivity.
Qed.

(** X1.  [parse_fields] answers a tag with the last record of the field
    table that carries it, with no enum yet; a tag of no record has no
    field. *)
Theorem X1_parse_fields_last_record_wins :
  forall rows t,
    PyDict.get Z.eqb t (parse_fields rows)
    = option_map
        (fun r => Field.mk (Row.f_Tag r) (Row.f_Name r) (Row.f_Type r) [])
        (find (fun r => Row.f_Tag r =? t) (rev rows))
    /\ (PyDict.get Z.eqb t (parse_fields rows) = None
        <-> ~ In t (map Row.f_Tag rows)).
Proof.
  intros rows t.
  destruct (load_dict_spec Z.eqb Z.eqb_eq Z.eq_dec Row.f_Tag
              (fun r => Field.mk (Row.f_Tag r) (Row.f_Name r) (Row.f_Type r) []) rows)
    as [G _].
  fold (parse_fields rows) in G.
  split; [apply G|].
  rewrite G, find_rev_In_tags.
  destruct (find (fun r => Row.f_Tag r =? t) (rev rows)) as [r|]; simpl; split.
  - discriminate.
  - intros H; exfalso; apply H; eauto.
  - intros _ [r H]; discriminate.
  - reflexivity.
Qed.

(** X2.  [parse_enums] adds no field and drops none.  Under a loaded tag the
    field keeps its tag, name and type, and its enum mapping answers a raw
    value with the description of the last enum record of that tag and
    value (the symbolic name, else the description, else the raw value),
    and as before when there is none.  The enum records of a tag that is not
    loaded are dropped. *)
Theorem X2_parse_enums_lookup :
  forall enum_rows fields0 t,
    match PyDict.get Z.eqb t fields0 with
    | None => PyDict.get Z.eqb t (parse_enums enum_rows fields0) = None
    | Some f0 =>
        exists f,
          PyDict.get Z.eqb t (parse_enums enum_rows fields0) = Some f
          /\ Field.tag f = Field.tag f0
          /\ Field.name f = Field.name f0
          /\ Field.type f = Field.type f0
          /\ forall value,
               PyDict.get String.eqb value (Field.enums f)
               = match find (fun e => (Row.e_Tag e =? t)
                                      && String.eqb (Row.e_Value e) value)
                         (rev enum_rows) with
                 | Some e => Some (enum_description e)
                 | None => PyDict.get String.eqb value (Field.enums f0)
                 end
    end.
Proof.
  intros enum_rows fields0; unfold parse_enums.
  apply (fold_left_invariant
           (fun fields enum =>
              match PyDict.get Z.eqb (Row.e_Tag enum) fields with
              | Some f =>
                  PyDict.set Z.eqb (Row.e_Tag enum)
                    (Field.mk (Field.tag f) (Field.name f) (Field.type f)
                       (PyDict.set String.eqb (Row.e_Value enum)
                          (enum_description enum) (Field.enums f)))
                    fields
              | None => fields
              end)
           (fun seen fields =>
              forall t,
                match PyDict.get Z.eqb t fields0 with
                | None => PyDict.get Z.eqb t fields = None
                | Some f0 =>
                    exists f,
                      PyDict.get Z.eqb t fields = Some f
                      /\ Field.tag f = Field.tag f0
                      /\ Field.name f = Field.name f0
                      /\ Field.type f = Field.type f0
                      /\ forall value,
                           PyDict.get String.eqb value (Field.enums f)
                           = match find (fun e => (Row.e_Tag e =? t)
                                                  && String.eqb (Row.e_Value e) value)
                                     (rev seen) with
                             | Some e => Some (enum_description e)
                             | None => PyDict.get String.eqb value (Field.enums f0)
                             end
                end))
    with (seen := []).
  - clear; intros seen fields e Inv t.
    rewrite rev_app_distr; simpl.
    pose proof (Inv t) as It; pose proof (Inv (Row.e_Tag e)) as Ie.
    destruct (Z.eq_dec (Row.e_Tag e) t) as [Et|Et].
    + subst t; rewrite Z.eqb_refl; simpl.
      destruct (PyDict.get Z.eqb (Row.e_Tag e) fields0) as [f0|].
      * destruct It as (f & Gf & Ht & Hn & Hty & He).
        rewrite Gf, (get_set_same Z.eqb Z.eqb_eq).
        eexists; split; [reflexivity|]; simpl.
        split; [exact Ht|]; split; [exact Hn|]; split; [exact Hty|].
        intros value; destruct (String.eqb (Row.e_Value e) value) eqn:Ev.
        -- apply String.eqb_eq in Ev; subst value.
           apply (get_set_same String.eqb String.eqb_eq).
        -- rewrite (get_set_other String.eqb String.eqb_eq); [apply He|].
           intros ->; rewrite String.eqb_refl in Ev; discriminate.
      * rewrite It; exact It.
    + assert (Eb : (Row.e_Tag e =? t) = false) by (apply Z.eqb_neq; exact Et).
      rewrite Eb; simpl.
      assert (Hget : PyDict.get Z.eqb t
                       match PyDict.get Z.eqb (Row.e_Tag e) fields with
                       | Some f =>
                           PyDict.set Z.eqb (Row.e_Tag e)
                             (Field.mk (Field.tag f) (Field.name f) (Field.type f)
                                (PyDict.set String.eqb (Row.e_Value e)
                                   (enum_description e) (Field.enums f)))
                             fields
                       | None => fields
                       end
                     = PyDict.get Z.eqb t fields).
      { destruct (PyDict.get Z.eqb (Row.e_Tag e) fields); [|reflexivity].
        apply (get_set_other Z.eqb Z.eqb_eq); auto. }
      rewrite Hget; exact It.
  - intros t; simpl.
    destruct (PyDict.get Z.eqb t fields0) as [f0|] eqn:G; [|reflexivity].
    exists f0; auto.
Qed.

(** X3.  [parse_messages] and [parse_components] answer an identifier with
    its last record, the two reference lists empty, and keep the
    identifiers in the order in which the table first names them. *)
Theorem X3_messages_and_components_loaded :
  forall (msgs : list Row.Message) (comps : list Row.Component) k,
    PyDict.get String.eqb k (parse_messages msgs)
    = option_map
        (fun r => Message.mk (Row.m_ComponentID r) (Row.m_MsgType r) (Row.m_Name r) [] [])
        (find (fun r => String.eqb (Row.m_ComponentID r) k) (rev msgs))
    /\ PyDict.keys (parse_messages msgs)
       = rev (nodup string_dec (rev (map Row.m_ComponentID msgs)))
    /\ PyDict.get String.eqb k (parse_components comps)
       = option_map
           (fun r => Component.mk (Row.c_ComponentID r) (Row.c_Name r)
                       (Row.c_ComponentType r) [] [])
           (find (fun r => String.eqb (Row.c_ComponentID r) k) (rev comps))
    /\ PyDict.keys (parse_components comps)
       = rev (nodup string_dec (rev (map Row.c_ComponentID comps))).
Proof.
  intros msgs comps k.
  destruct (load_dict_spec String.eqb String.eqb_eq string_dec Row.m_ComponentID
              (fun r => Message.mk (Row.m_ComponentID r) (Row.m_MsgType r)
                          (Row.m_Name r) [] []) msgs) as [Gm Km].
  destruct (load_dict_spec String.eqb String.eqb_eq string_dec Row.c_ComponentID
              (fun r => Component.mk (Row.c_ComponentID r) (Row.c_Name r)
                          (Row.c_ComponentType r) [] []) comps) as [Gc Kc].
  split; [apply Gm|]; split; [exact Km|]; split; [apply Gc | exact Kc].
Qed.

(** ** Grouping loses no row *)

Lemma keys_first_seen {K R V} (eqb : K -> K -> bool)
    (eqb_eq : forall a b, eqb a b = true <-> a = b)
    (dec : forall a b : K, {a = b} + {a <> b})
    (key : R -> K) (step : list (K * V) -> R -> list (K * V)) (rows : list R) :
  (forall d r,
     PyDict.keys (step d r)
     = if PyDict.mem eqb (key r) d then PyDict.keys d else PyDict.keys d ++ [key r]) ->
  PyDict.keys (fold_left step rows []) = rev (nodup dec (rev (map key rows))).
Proof.
  intros Hstep.
  apply (fold_left_invariant step
           (fun seen d => PyDict.keys d = rev (nodup dec (rev (map key seen)))))
    with (seen := []); [|reflexivity].
  clear rows; intros seen d r Kd.
  rewrite Hstep, map_app, rev_app_distr; simpl; unfold PyDict.mem.
  destruct (in_dec dec (key r) (rev (map key seen))) as [Hin|Hnin].
  - destruct (PyDict.get eqb (key r) d) eqn:Gk; [exact Kd|].
    apply (get_None_not_In eqb eqb_eq) in Gk; exfalso; apply Gk.
    rewrite Kd, <- in_rev; apply nodup_In; exact Hin.
  - destruct (PyDict.get eqb (key r) d) eqn:Gk.
    + exfalso; apply Hnin.
      apply (get_In eqb eqb_eq) in Gk.
      assert (Hk : In (key r) (PyDict.keys d))
        by (change (key r) with (fst (key r, v)); apply in_map; exact Gk).
      rewrite Kd, <- in_rev in Hk; apply nodup_In in Hk; exact Hk.
    + simpl; rewrite Kd; reflexivity.
Qed.

Lemma concat_values_set_app {K V} (eqb : K -> K -> bool) k (l : list V) x d :
  PyDict.get eqb k d = Some l ->
  Permutation (List.concat (PyDict.values (PyDict.set eqb k (l ++ [x]) d)))
    (List.concat (PyDict.values d) ++ [x]).
Proof.
  induction d as [|[k' v] d IH]; simpl; [discriminate|].
  destruct (eqb k k'); simpl.
  - intros H; inversion H; subst v.
    rewrite <- !app_assoc; apply Permutation_app_head, Permutation_app_comm.
  - intros H; rewrite <- app_assoc; apply Permutation_app_head, IH, H.
Qed.

Lemma concat_values_set_new {K V} (eqb : K -> K -> bool) k (x : V) d :
  PyDict.get eqb k d = None ->
  List.concat (PyDict.values (PyDict.set eqb k [x] d)) = List.concat (PyDict.values d) ++ [x].
Proof.
  induction d as [|[k' v] d IH]; simpl; [reflexivity|].
  destruct (eqb k k'); simpl; [discriminate|].
  intros H; rewrite IH by exact H; apply app_assoc.
Qed.

Lemma values_set_nonempty {K V} (eqb : K -> K -> bool) k (v : list V) d :
  v <> [] ->
  Forall (fun l => l <> []) (PyDict.values d) ->
  Forall (fun l => l <> []) (PyDict.values (PyDict.set eqb k v d)).
Proof.
  intros Hv; induction d as [|[k' v'] d IH]; simpl; intros F.
  - constructor; [exact Hv | constructor].
  - inversion F; subst; destruct (eqb k k'); simpl; constructor; auto.
Qed.

Lemma sort_by_position_nil l : sort_by_position l = [] -> l = [].
Proof.
  intros H; apply Permutation_nil.
  rewrite <- H; apply (sorted_perm Z.leb Item.position).
Qed.

(** X4.  The rows kept by the associator are the rows of the file, each
    once: the owners are pairwise different and come in the order in which
    the file first names them, no owner has an empty list, and the lists
    together are a rearrangement of all the rows. *)
Theorem X4_grouping_keeps_every_row :
  forall rows,
    let component_contents := sort_contents (group_contents rows) in
    NoDup (PyDict.keys component_contents)
    /\ PyDict.keys component_contents
       = rev (nodup string_dec (rev (map Row.ComponentID rows)))
    /\ Forall (fun l => l <> []) (PyDict.values component_contents)
    /\ Permutation (List.concat (PyDict.values component_contents)) (map make_item rows).
Proof.
  intros rows component_contents; unfold component_contents.
  assert (Hg : Forall (fun l => l <> []) (PyDict.values (group_contents rows))
               /\ Permutation (List.concat (PyDict.values (group_contents rows)))
                    (map make_item rows)).
  { unfold group_contents.
    apply (fold_left_invariant
             (fun cc content =>
                contents_append (Row.ComponentID content) (make_item content) cc)
             (fun seen cc =>
                Forall (fun l => l <> []) (PyDict.values cc)
                /\ Permutation (List.concat (PyDict.values cc)) (map make_item seen)))
      with (seen := []); [|split; constructor].
    clear; intros seen cc r [F P]; unfold contents_append.
    rewrite map_app; simpl.
    destruct (PyDict.get String.eqb (Row.ComponentID r) cc) as [l|] eqn:G; split.
    - apply values_set_nonempty; [destruct l; discriminate | exact F].
    - rewrite (concat_values_set_app String.eqb _ _ _ _ G).
      apply Permutation_app_tail, P.
    - apply values_set_nonempty; [discriminate | exact F].
    - rewrite (concat_values_set_new String.eqb _ _ _ G).
      apply Permutation_app_tail, P. }
  destruct Hg as [F P].
  split; [rewrite sort_contents_keys; apply group_contents_spec|].
  split; [|split].
  - rewrite sort_contents_keys; unfold group_contents.
    apply (keys_first_seen String.eqb String.eqb_eq string_dec Row.ComponentID).
    intros d r; unfold contents_append, PyDict.mem.
    destruct (PyDict.get String.eqb (Row.ComponentID r) d) eqn:G;
      rewrite (keys_set String.eqb); unfold PyDict.mem; rewrite G; reflexivity.
  - clear P; unfold sort_contents, PyDict.values in *.
    induction (group_contents rows) as [|[k l] cc IH]; simpl in *; [constructor|].
    inversion F; subst; constructor; [|apply IH; assumption].
    intros H; apply sort_by_position_nil in H; contradiction.
  - rewrite <- P; clear; unfold sort_contents, PyDict.values.
    induction (group_contents rows) as [|[k l] cc IH]; simpl; [constructor|].
    apply Permutation_app; [apply (sorted_perm Z.leb Item.position) | exact IH].
Qed.

(** ** What the associator records *)

Lemma item_tag_refs_valid fields item r :
  In r (item_tag_refs fields item) -> valid_tag_ref fields r.
Proof.
  unfold item_tag_refs, is_count_row, valid_tag_ref.
  destruct (row_tag fields item) as [tag|] eqn:T; [|intros []].
  pose proof (row_tag_known _ _ _ T) as Hm; unfold PyDict.mem in Hm.
  destruct (PyDict.get Z.eqb tag fields) as [f|] eqn:G; [|discriminate].
  destruct (String.eqb (Field.type f) "NumInGroup") eqn:E; [intros []|].
  intros [<-|[]]; simpl; exists f; split; [exact G|].
  apply String.eqb_neq; exact E.
Qed.

Lemma item_group_refs_valid fields components item g :
  In g (item_group_refs fields components item) ->
  valid_group_ref fields components g.
Proof.
  unfold item_group_refs, resolve_name.
  destruct (is_envelope (Item.tagText item)) eqn:Env; [intros []|].
  destruct (Py.isdigit (Item.tagText item)) eqn:D.
  - destruct (row_tag fields item) as [tag|]; [|intros []].
    destruct (PyDict.get Z.eqb tag fields) as [f|] eqn:G; [|intros []].
    destruct (String.eqb (Field.type f) "NumInGroup") eqn:E; [|intros []].
    intros [<-|[]]; simpl; exists f; split; [exact G|].
    split; [apply String.eqb_eq; exact E | reflexivity].
  - destruct (find (fun c => String.eqb (Component.name c) (Item.tagText item))
                (PyDict.values components)) as [c|] eqn:F; simpl; [|intros []].
    intros [<-|[]]; simpl; split; [exact Env|]; split; [exact D|].
    apply find_some in F as [Hin Hn]; apply String.eqb_eq in Hn.
    exists c; auto.
Qed.

(** X6.  Whatever the associator appends to a record is valid: a scalar
    reference names a loaded field that is not of the count type, a group
    start names a loaded field of the count type with that field's name,
    and a component reference names a declared component (by identifier and
    name) whose name is neither numeric nor an envelope placeholder.  A
    numeric tag-text that names no loaded field, and a name that no
    component carries, are never recorded. *)
Theorem X6_recorded_references_are_valid :
  forall rows messages components fields st' cc k,
    parse_msg_contents rows (mkStore messages components) fields = Ok (st', cc) ->
    (forall m m',
       PyDict.get String.eqb k messages = Some m ->
       PyDict.get String.eqb k (messages_of st') = Some m' ->
       (forall r, In r (Message.tags m') ->
                  In r (Message.tags m) \/ valid_tag_ref fields r)
       /\ (forall g, In g (Message.groups m') ->
                     In g (Message.groups m) \/ valid_group_ref fields components g))
    /\ (forall c c',
          PyDict.get String.eqb k components = Some c ->
          PyDict.get String.eqb k (components_of st') = Some c' ->
          (forall r, In r (Component.tags c') ->
                     In r (Component.tags c) \/ valid_tag_ref fields r)
          /\ (forall g, In g (Component.groups c') ->
                        In g (Component.groups c)
                        \/ valid_group_ref fields components g)).
Proof.
  intros rows messages components fields st' cc k H.
  apply parse_msg_contents_Ok in H as (_ & ND & H).
  destruct (associate_owners_effect _ _ _ _ ND H) as (_ & _ & _ & Gm & Gc).
  simpl in *.
  assert (Ht : forall l r, In r (flat_map (item_tag_refs fields) l) ->
                           valid_tag_ref fields r).
  { intros l r Hr; apply in_flat_map in Hr as (item & _ & Hr).
    eapply item_tag_refs_valid; exact Hr. }
  assert (Hg : forall l g, In g (flat_map (item_group_refs fields components) l) ->
                           valid_group_ref fields components g).
  { intros l g Hr; apply in_flat_map in Hr as (item & _ & Hr).
    eapply item_group_refs_valid; exact Hr. }
  split.
  - intros m m' Hm Hm'; rewrite Gm, Hm in Hm'; simpl in Hm'; inversion Hm'; subst m'.
    simpl; split; intros x Hx; apply in_app_or in Hx as [Hx|Hx]; eauto.
  - intros c c' Hc Hc'; rewrite Gc, Hc in Hc'; simpl in Hc'; inversion Hc'; subst c'.
    destruct (PyDict.mem String.eqb k messages); [auto|].
    simpl; split; intros x Hx; apply in_app_or in Hx as [Hx|Hx]; eauto.
Qed.

Lemma X6_recorded_references_are_valid_witness :
  exists st' cc,
    parse_msg_contents (MsgContents_xml scenario)
      (mkStore (parse_messages (Messages_xml scenario))
         (parse_components (Components_xml scenario)))
      scenario_fields = Ok (st', cc)
    /\ PyDict.get String.eqb "10" (messages_of st')
       = Some (Message.mk "10" "D" "NewOrderSingle" []
                 [ComponentRef "20" "OrdersGroup" 0])
    /\ valid_group_ref scenario_fields (parse_components (Components_xml scenario))
         (ComponentRef "20" "OrdersGroup" 0).
Proof.
  eexists _, _; split; [vm_compute; reflexivity|].
  split; [reflexivity|].
  destruct (X6_recorded_references_are_valid (MsgContents_xml scenario)
              (parse_messages (Messages_xml scenario))
              (parse_components (Components_xml scenario))
              scenario_fields _ _ "10" eq_refl) as [Hm _].
  destruct (Hm (Message.mk "10" "D" "NewOrderSingle" [] [])
              (Message.mk "10" "D" "NewOrderSingle" []
                 [ComponentRef "20" "OrdersGroup" 0]) eq_refl eq_refl) as [_ Hg].
  destruct (Hg (ComponentRef "20" "OrdersGroup" 0) (or_introl eq_refl)) as [[]|Hv].
  exact Hv.
Defined.

(** ** The groups mapping *)

Lemma identify_component_truthy cc fields groups entry groups' :
  identify_component cc fields groups entry = Ok groups' ->
  groups' = groups
  \/ exists g,
       groups' = PyDict.set String.eqb (Component.name (snd entry)) g groups
       /\ Group.name g = Component.name (snd entry)
       /\ Group.countTag g <> 0
       /\ Group.firstTag g <> 0.
Proof.
  destruct entry as [comp_id comp]; unfold identify_component; simpl.
  destruct (String.eqb (Component.type comp) "BlockRepeating");
    [|intros H; inversion H; auto].
  destruct (PyDict.get String.eqb comp_id cc) as [[|x contents]|];
    try (intros H; inversion H; auto; fail).
  intros H; apply bind_Ok in H as (s & _ & H).
  destruct (count_tag s) as [c|]; [|inversion H; auto].
  destruct (first_tag s) as [f|]; [|inversion H; auto].
  unfold Py.truthy_int in H.
  destruct (c =? 0) eqn:Ec; simpl in H; [inversion H; auto|].
  destruct (f =? 0) eqn:Ef; simpl in H; [inversion H; auto|].
  inversion H; right; eexists; split; [reflexivity|]; simpl.
  split; [reflexivity|]; split; apply Z.eqb_neq; assumption.
Qed.

Lemma scan_count_is_count_field fields contents s c :
  for_each (scan_item fields) contents scan_start = Ok s ->
  count_tag s = Some c ->
  exists f, PyDict.get Z.eqb c fields = Some f /\ Field.type f = "NumInGroup".
Proof.
  intros H C.
  destruct (scan_closed_form fields contents scan_start s eq_refl H)
    as [(C' & _)|(pre & x & post & c' & _ & _ & X & T & C' & _)]; [congruence|].
  assert (c' = c) by congruence; subst c'.
  unfold is_count_row in X; rewrite T in X.
  destruct (PyDict.get Z.eqb c fields) as [f|]; [|discriminate].
  exists f; split; [reflexivity | apply String.eqb_eq; exact X].
Qed.

Lemma identify_invariants components cc fields groups :
  identify_repeating_groups components cc fields = Ok groups ->
  NoDup (PyDict.keys groups)
  /\ forall name g, In (name, g) groups ->
       Group.name g = name /\ Group.countTag g <> 0 /\ Group.firstTag g <> 0.
Proof.
  unfold identify_repeating_groups; intros H.
  set (P := fun (_ : list (string * Component.t)) (groups : sdict Group.t) =>
              NoDup (PyDict.keys groups)
              /\ forall name g, In (name, g) groups ->
                   Group.name g = name /\ Group.countTag g <> 0
                   /\ Group.firstTag g <> 0).
  assert (Hstep : forall seen s x s',
             P seen s -> identify_component cc fields s x = Ok s' -> P (seen ++ [x]) s').
  { clear; intros seen groups entry groups' [ND Inv] Hstep.
    apply identify_component_truthy in Hstep as [->|(g & -> & Hn & Hc & Hf)];
      [split; assumption|].
    split; [apply (NoDup_keys_set String.eqb String.eqb_eq); exact ND|].
    intros name g' Hin.
    apply (In_set String.eqb String.eqb_eq) in Hin as [[-> ->]|Hin]; auto. }
  assert (Hinit : P [] []) by (split; [constructor | intros ? ? []]).
  exact (for_each_invariant _ P Hstep components [] [] groups Hinit H).
Qed.

(** X7.  In the groups mapping the names are pairwise different and every
    group sits under its own name, which is the declared name of a repeating
    component; its count tag is a loaded field of the count type; and neither
    its count tag nor its first member is tag 0 (a component whose count tag
    or first member is 0 yields no group). *)
Theorem X7_groups_mapping_invariants :
  forall components component_contents fields groups,
    identify_repeating_groups components component_contents fields = Ok groups ->
    NoDup (PyDict.keys groups)
    /\ forall name g,
         In (name, g) groups ->
         Group.name g = name
         /\ Group.countTag g <> 0
         /\ Group.firstTag g <> 0
         /\ (exists f,
               PyDict.get Z.eqb (Group.countTag g) fields = Some f
               /\ Field.type f = "NumInGroup")
         /\ exists comp_id comp,
              In (comp_id, comp) components
              /\ Component.name comp = name
              /\ Component.type comp = "BlockRepeating".
Proof.
  intros components cc fields groups H.
  destruct (identify_invariants _ _ _ _ H) as [ND Inv]; split; [exact ND|].
  intros name g Hin.
  destruct (Inv _ _ Hin) as (Hn & Hc & Hf).
  destruct (identify_sound _ _ _ _ _ _ H Hin)
    as (comp_id & comp & I & N & T & _ & contents & s & _ & Hs & C & _).
  split; [exact Hn|]; split; [exact Hc|]; split; [exact Hf|]; split.
  - eapply scan_count_is_count_field; eassumption.
  - exists comp_id, comp; auto.
Qed.

Lemma X7_groups_mapping_invariants_witness :
  identify_repeating_groups scenario_components scenario_contents scenario_fields
  = Ok [("OrdersGroup", scenario_group)]
  /\ NoDup (PyDict.keys [("OrdersGroup", scenario_group)]).
Proof.
  split; [reflexivity|].
  apply (X7_groups_mapping_invariants scenario_components scenario_contents
           scenario_fields [("OrdersGroup", scenario_group)] eq_refl).
Defined.

(** X8.  A repeating component none of whose rows is of the count type, or
    none of whose rows names a loaded field at depth one or more (a count
    row alone, for one), adds nothing to the groups. *)
Theorem X8_no_count_or_no_member_no_group :
  forall component_contents fields groups comp_id comp contents,
    PyDict.get String.eqb comp_id component_contents = Some contents ->
    Forall (fun item => plain_text (Item.tagText item) = true) contents ->
    Forall (fun item => is_count_row fields item = false) contents
    \/ members_of fields contents = [] ->
    identify_component component_contents fields groups (comp_id, comp) = Ok groups.
Proof.
  intros cc fields groups comp_id comp contents G Hplain Hnone.
  destruct (for_each_total (scan_item fields) contents) with (s := scan_start)
    as [s Hs].
  { intros s0 item Hitem; apply scan_item_total.
    rewrite Forall_forall in Hplain; apply Hplain; exact Hitem. }
  apply (identify_component_excluded _ _ _ _ _ _ _ G Hs).
  destruct (scan_closed_form fields contents scan_start s eq_refl Hs)
    as [(C & _)|(pre & x & post & c & -> & _ & X & _ & _ & M)]; [left; exact C|].
  destruct Hnone as [Hnone|Hnone].
  - rewrite Forall_forall in Hnone; rewrite Hnone in X;
      [discriminate | apply in_or_app; right; left; reflexivity].
  - right; rewrite (scan_first_is_head _ _ _ Hs), M; simpl.
    change (x :: post) with ([x] ++ post) in Hnone.
    rewrite !members_of_app in Hnone.
    apply app_eq_nil in Hnone as [-> Hnone].
    apply app_eq_nil in Hnone as [_ ->]; reflexivity.
Qed.

Lemma X8_no_count_or_no_member_no_group_witness :
  PyDict.get String.eqb "20" count_only_contents = Some [Item.mk "2" 0 1]
  /\ members_of count_only_fields [Item.mk "2" 0 1] = []
  /\ identify_component count_only_contents count_only_fields []
       ("20", count_only_component) = Ok [].
Proof.
  split; [reflexivity|]; split; [reflexivity|].
  apply (X8_no_count_or_no_member_no_group count_only_contents count_only_fields []
           "20" count_only_component [Item.mk "2" 0 1] eq_refl).
  - repeat constructor.
  - right; reflexivity.
Defined.

(** ** References in the document *)

Lemma messages_section_children messages groups msg_el :
  In msg_el (children_of (messages_section messages groups)) ->
  exists k m,
    PyDict.get String.eqb k messages = Some m /\ msg_el = message_element groups m.
Proof.
  simpl; intros H; apply in_flat_map in H as (k & _ & H).
  destruct (PyDict.get String.eqb k messages) as [m|] eqn:G; [|contradiction].
  destruct H as [<-|[]]; eauto.
Qed.

Lemma fields_section_has fields t f :
  PyDict.get Z.eqb t fields = Some f ->
  In (field_element f) (children_of (fields_section fields)).
Proof.
  intros G; simpl; apply in_flat_map; exists t; split; [|rewrite G; left; reflexivity].
  apply (sorted_In Z.leb (fun tag : Z => tag)).
  apply (get_In Z.eqb Z.eqb_eq) in G.
  change t with (fst (t, f)); apply in_map; exact G.
Qed.

Lemma groups_section_has groups name g :
  NoDup (PyDict.keys groups) ->
  In (name, g) groups ->
  In (group_element g) (children_of (groups_section groups)).
Proof.
  intros ND Hin; simpl; apply in_flat_map; exists name; split.
  - apply (sorted_In String.leb (fun n : string => n)).
    change name with (fst (name, g)); apply in_map; exact Hin.
  - rewrite (In_get String.eqb String.eqb_eq _ _ _ ND Hin); left; reflexivity.
Qed.

Lemma group_ref_elements_in groups info el :
  In el (group_ref_elements groups info) ->
  exists name g, el = group_ref_element name /\ In (name, g) groups.
Proof.
  destruct info as [count_tag count_name indent|comp_id comp_name indent]; simpl.
  - destruct (find (fun entry => Group.countTag (snd entry) =? count_tag) groups)
      as [[name g]|] eqn:F; [|intros []].
    intros [<-|[]]; apply find_some in F as [Hin _]; eauto.
  - unfold PyDict.mem.
    destruct (PyDict.get String.eqb comp_name groups) as [g|] eqn:G; [|intros []].
    intros [<-|[]]; apply (get_In String.eqb String.eqb_eq) in G; eauto.
Qed.

(** The scalar references of a loaded message all name loaded fields. *)
Lemma loaded_message_tags t fields st groups k m :
  load_version t = Ok (fields, st, groups) ->
  PyDict.get String.eqb k (messages_of st) = Some m ->
  forall r, In r (Message.tags m) -> valid_tag_ref fields r.
Proof.
  intros H Hm r Hr.
  apply load_version_Ok_parts in H as (_ & A & _).
  assert (ND : NoDup (PyDict.keys (loaded_contents t)))
    by (unfold loaded_contents; rewrite sort_contents_keys; apply group_contents_spec).
  destruct (associate_owners_effect _ _ _ _ ND A) as (_ & _ & _ & Gm & _).
  rewrite Gm in Hm; simpl in Hm.
  destruct (load_dict_spec String.eqb String.eqb_eq string_dec Row.m_ComponentID
              (fun r => Message.mk (Row.m_ComponentID r) (Row.m_MsgType r)
                          (Row.m_Name r) [] []) (Messages_xml t)) as [G0 _].
  fold (parse_messages (Messages_xml t)) in G0; rewrite G0 in Hm.
  destruct (find _ _) as [row|]; [|discriminate].
  simpl in Hm; inversion Hm; subst m; simpl in Hr.
  apply in_flat_map in Hr as (item & _ & Hr).
  eapply item_tag_refs_valid; exact Hr.
Qed.

(** X9.  The document has no dangling reference: under every message
    element, a [tag] child carries the tag of a field element of the fields
    section, and a [groupRef] child carries the name of a group element of
    the groups section; there is no other child. *)
Theorem X9_no_dangling_reference :
  forall t fields st groups msg_el child,
    load_version t = Ok (fields, st, groups) ->
    In msg_el (children_of (messages_section (messages_of st) groups)) ->
    In child (children_of msg_el) ->
    (exists r f,
       child = tag_element r
       /\ Field.tag f = TagRef.tag r
       /\ In (field_element f) (children_of (fields_section fields)))
    \/ (exists name g,
          child = group_ref_element name
          /\ Group.name g = name
          /\ In (group_element g) (children_of (groups_section groups))).
Proof.
  intros t fields st groups msg_el child H Hmsg Hchild.
  apply messages_section_children in Hmsg as (k & m & Gm & ->).
  simpl in Hchild; apply in_app_or in Hchild as [Hc|Hc].
  - left; apply in_map_iff in Hc as (r & <- & Hr).
    destruct (loaded_message_tags _ _ _ _ _ _ H Gm r Hr) as (f & Gf & _).
    exists r, f; split; [reflexivity|]; split; [|eapply fields_section_has; exact Gf].
    pose proof H as H'; apply load_version_Ok_parts in H' as (-> & _).
    destruct (parse_fields_invariants (Fields_xml t)) as [T0 E0].
    destruct (parse_enums_spec (Enums_xml t) _ T0 E0) as (_ & T & _).
    apply (T _ _ (get_In Z.eqb Z.eqb_eq _ _ _ Gf)).
  - right; apply in_flat_map in Hc as (info & _ & Hc).
    apply group_ref_elements_in in Hc as (name & g & -> & Hin).
    apply load_version_Ok_parts in H as (_ & _ & Hid).
    destruct (identify_invariants _ _ _ _ Hid) as [ND Inv].
    exists name, g; split; [reflexivity|]; split; [apply (Inv _ _ Hin)|].
    eapply groups_section_has; eassumption.
Qed.

Lemma X9_no_dangling_reference_witness :
  exists fields st groups,
    load_version scenario = Ok (fields, st, groups)
    /\ In (Elem "message" [("msgType", "D"); ("name", "NewOrderSingle")]
             [Elem "groupRef" [("name", "OrdersGroup")] []])
          (children_of (messages_section (messages_of st) groups))
    /\ In (group_element scenario_group) (children_of (groups_section groups)).
Proof.
  eexists _, _, _; split; [vm_compute; reflexivity|].
  split; [left; reflexivity|].
  destruct (X9_no_dangling_reference scenario _ _ _
              (Elem "message" [("msgType", "D"); ("name", "NewOrderSingle")]
                 [Elem "groupRef" [("name", "OrdersGroup")] []])
              (Elem "groupRef" [("name", "OrdersGroup")] [])
              eq_refl (or_introl eq_refl) (or_introl eq_refl))
    as [(r & f & Hr & _)|(name & g & _ & _ & _)]; [discriminate|].
  left; reflexivity.
Defined.

(** ** The order of the messages section *)

Lemma insert_map {A B K} (leb : K -> K -> bool) (key : B -> K) (f : A -> B) x l :
  Py.insert leb key (f x) (map f l) = map f (Py.insert leb (fun a => key (f a)) x l).
Proof.
  induction l as [|y l IH]; simpl; [reflexivity|].
  destruct (leb (key (f x)) (key (f y))); simpl; [reflexivity | rewrite IH; reflexivity].
Qed.

Lemma sorted_map {A B K} (leb : K -> K -> bool) (key : B -> K) (f : A -> B) l :
  Py.sorted leb key (map f l) = map f (Py.sorted leb (fun a => key (f a)) l).
Proof.
  induction l as [|x l IH]; simpl; [reflexivity|].
  rewrite IH; apply insert_map.
Qed.

Lemma insert_ext_in {A K} (leb : K -> K -> bool) (key1 key2 : A -> K) x l :
  key1 x = key2 x ->
  (forall y, In y l -> key1 y = key2 y) ->
  Py.insert leb key1 x l = Py.insert leb key2 x l.
Proof.
  intros Hx; induction l as [|y l IH]; intros Hl; simpl; [reflexivity|].
  rewrite Hx, (Hl y (or_introl eq_refl)).
  destruct (leb (key2 x) (key2 y)); [reflexivity|].
  rewrite IH by (intros; apply Hl; right; assumption); reflexivity.
Qed.

Lemma sorted_ext_in {A K} (leb : K -> K -> bool) (key1 key2 : A -> K) l :
  (forall x, In x l -> key1 x = key2 x) ->
  Py.sorted leb key1 l = Py.sorted leb key2 l.
Proof.
  induction l as [|x l IH]; intros Hl; simpl; [reflexivity|].
  rewrite IH by (intros; apply Hl; right; assumption).
  apply insert_ext_in; [apply Hl; left; reflexivity|].
  intros y Hy; apply Hl; right.
  exact (proj1 (sorted_In leb key2 y l) Hy).
Qed.

Lemma StronglySorted_map {A B} (R : B -> B -> Prop) (f : A -> B) l :
  StronglySorted (fun a b => R (f a) (f b)) l -> StronglySorted R (map f l).
Proof.
  induction 1 as [|x l Hs IH Hx]; simpl; constructor; [exact IH|].
  apply Forall_map; exact Hx.
Qed.

(** Sorting is stable for any test that is a test of the key. *)
Lemma insert_stable_key {A K} (leb : K -> K -> bool) (key : A -> K) (p : A -> bool) x l :
  (forall a b, p a = true -> p b = true -> leb (key a) (key b) = true) ->
  filter p (Py.insert leb key x l) = filter p (x :: l).
Proof.
  intros Hp; induction l as [|y l IH]; [reflexivity|].
  simpl Py.insert; destruct (leb (key x) (key y)) eqn:E; [reflexivity|].
  change (filter p (y :: Py.insert leb key x l))
    with (if p y then y :: filter p (Py.insert leb key x l)
          else filter p (Py.insert leb key x l)).
  rewrite IH; simpl.
  destruct (p x) eqn:Px, (p y) eqn:Py; try reflexivity.
  rewrite (Hp x y Px Py) in E; discriminate.
Qed.

Lemma sorted_stable_key {A K} (leb : K -> K -> bool) (key : A -> K) (p : A -> bool) l :
  (forall a b, p a = true -> p b = true -> leb (key a) (key b) = true) ->
  filter p (Py.sorted leb key l) = filter p l.
Proof.
  intros Hp; induction l as [|x l IH]; [reflexivity|].
  simpl Py.sorted; rewrite insert_stable_key by exact Hp.
  simpl; rewrite IH; reflexivity.
Qed.

Lemma filter_map_swap {A B} (f : A -> B) (p : B -> bool) l :
  filter p (map f l) = map f (filter (fun a => p (f a)) l).
Proof.
  induction l as [|x l IH]; simpl; [reflexivity|].
  destruct (p (f x)); simpl; rewrite IH; reflexivity.
Qed.

Lemma string_leb_refl s : String.leb s s = true.
Proof. unfold String.leb; rewrite string_compare_refl; reflexivity. Qed.

(** X10.  The messages section has one element per message, in ascending
    order of message type; messages of one type keep the order in which the
    messages table first names them. *)
Theorem X10_messages_in_type_order :
  forall messages groups,
    NoDup (PyDict.keys messages) ->
    exists ms,
      children_of (messages_section messages groups)
      = map (message_element groups) ms
      /\ Permutation ms (PyDict.values messages)
      /\ StronglySorted
           (fun a b => String.leb (Message.msgType a) (Message.msgType b) = true) ms
      /\ forall msg_type,
           filter (fun m => String.eqb (Message.msgType m) msg_type) ms
           = filter (fun m => String.eqb (Message.msgType m) msg_type)
               (PyDict.values messages).
Proof.
  intros messages groups ND.
  set (by_type := fun e : string * Message.t => Message.msgType (snd e)).
  set (es := Py.sorted String.leb by_type messages).
  exists (map snd es).
  assert (Hkeys : Py.sorted String.leb
                    (fun x => match PyDict.get String.eqb x messages with
                              | Some m => Message.msgType m
                              | None => EmptyString
                              end) (PyDict.keys messages)
                  = map fst es).
  { unfold PyDict.keys; rewrite sorted_map; f_equal.
    apply sorted_ext_in; intros [k m] Hin; simpl.
    rewrite (In_get String.eqb String.eqb_eq _ _ _ ND Hin); reflexivity. }
  split; [|split; [|split]].
  - simpl; rewrite Hkeys.
    assert (Hsub : forall e, In e es -> In e messages)
      by (intros e He; exact (proj1 (sorted_In String.leb by_type e messages) He)).
    clearbody es; clear Hkeys.
    induction es as [|[k m] es IH]; simpl; [reflexivity|].
    rewrite (In_get String.eqb String.eqb_eq _ _ _ ND (Hsub _ (or_introl eq_refl))).
    simpl; rewrite IH by (intros; apply Hsub; right; assumption); reflexivity.
  - apply Permutation_map, (sorted_perm String.leb by_type).
  - apply StronglySorted_map, (sorted_by_string by_type).
  - intros msg_type; unfold PyDict.values; rewrite !filter_map_swap; f_equal.
    apply sorted_stable_key; intros a b Ha Hb.
    apply String.eqb_eq in Ha, Hb; unfold by_type; rewrite Ha, Hb.
    apply string_leb_refl.
Qed.

Lemma X10_messages_in_type_order_witness :
  NoDup (PyDict.keys (parse_messages (Messages_xml scenario)))
  /\ exists ms,
       children_of (messages_section (parse_messages (Messages_xml scenario)) [])
       = map (message_element []) ms.
Proof.
  assert (ND : NoDup (PyDict.keys (parse_messages (Messages_xml scenario))))
    by (repeat constructor; intros []).
  split; [exact ND|].
  destruct (X10_messages_in_type_order (parse_messages (Messages_xml scenario)) [] ND)
    as (ms & Hms & _).
  exists ms; exact Hms.
Defined.

(** ** The groups section and the enum entries *)

Lemma groups_section_names groups l :
  (forall name g, In (name, g) groups -> Group.name g = name) ->
  (forall name, In name l -> In name (PyDict.keys groups)) ->
  map (attr "name")
    (flat_map
       (fun name =>
          match PyDict.get String.eqb name groups with
          | Some group => [group_element group]
          | None => []
          end) l)
  = map Some l.
Proof.
  intros Hn; induction l as [|name l IH]; intros Hl; simpl; [reflexivity|].
  destruct (In_keys_get String.eqb String.eqb_eq name groups (Hl name (or_introl eq_refl)))
    as [g G].
  rewrite G, map_app, IH by (intros; apply Hl; right; assumption).
  simpl; unfold attr; simpl.
  rewrite (Hn name g (get_In String.eqb String.eqb_eq _ _ _ G)); reflexivity.
Qed.

(** X11.  The groups section lists the groups mapping, each group once, in
    strictly ascending order of name; a group element carries the group's
    name, its count tag and first member in decimal, and one [member] child
    per member tag, in the order of the member list. *)
Theorem X11_groups_section_lists_the_mapping :
  forall components component_contents fields groups,
    identify_repeating_groups components component_contents fields = Ok groups ->
    exists names,
      map (attr "name") (children_of (groups_section groups)) = map Some names
      /\ StronglySorted (fun a b => String.ltb a b = true) names
      /\ Permutation names (PyDict.keys groups)
      /\ forall el,
           In el (children_of (groups_section groups))
           <-> exists name g,
                 In (name, g) groups
                 /\ el = Elem "group"
                           [("name", name);
                            ("countTag", Py.str (Group.countTag g));
                            ("firstTag", Py.str (Group.firstTag g))]
                           (map member_element (Group.memberTags g)).
Proof.
  intros components cc fields groups H.
  destruct (identify_invariants _ _ _ _ H) as [ND Inv].
  exists (Py.sorted String.leb (fun name => name) (PyDict.keys groups)).
  split; [|split; [|split]].
  - apply groups_section_names; [intros name g Hin; apply (Inv _ _ Hin)|].
    intros name Hname; exact (proj1 (sorted_In String.leb _ _ _) Hname).
  - apply sorted_strings_ascending, ND.
  - apply (sorted_perm String.leb (fun name : string => name)).
  - intros el; split.
    + simpl; intros Hel; apply in_flat_map in Hel as (name & _ & Hel).
      destruct (PyDict.get String.eqb name groups) as [g|] eqn:G; [|contradiction].
      destruct Hel as [<-|[]].
      apply (get_In String.eqb String.eqb_eq) in G.
      exists name, g; split; [exact G|].
      unfold group_element; rewrite (proj1 (Inv _ _ G)); reflexivity.
    + intros (name & g & Hin & ->).
      rewrite <- (proj1 (Inv _ _ Hin)).
      exact (groups_section_has _ _ _ ND Hin).
Qed.

Lemma X11_groups_section_lists_the_mapping_witness :
  identify_repeating_groups scenario_components scenario_contents scenario_fields
  = Ok [("OrdersGroup", scenario_group)]
  /\ exists names,
       map (attr "name") (children_of (groups_section [("OrdersGroup", scenario_group)]))
       = map Some names.
Proof.
  split; [reflexivity|].
  destruct (X11_groups_section_lists_the_mapping scenario_components scenario_contents
              scenario_fields [("OrdersGroup", scenario_group)] eq_refl)
    as (names & Hn & _).
  exists names; exact Hn.
Defined.

Lemma take_all n s : (String.length s <= n)%nat -> Py.take n s = s.
Proof.
  revert s; induction n as [|n IH]; intros [|c s]; simpl; intros H;
    try reflexivity; [lia|].
  rewrite IH by lia; reflexivity.
Qed.

(** X12.  Under a field element the enum entries come in strictly ascending
    order of raw value, one per raw value of the field's enum mapping; and
    a description of 1 to 100 characters is emitted as it is. *)
Theorem X12_enum_entries_in_value_order :
  forall field_rows enum_rows t f,
    In (t, f) (parse_enums enum_rows (parse_fields field_rows)) ->
    exists values,
      map (attr "value") (children_of (field_element f)) = map Some values
      /\ StronglySorted (fun a b => String.ltb a b = true) values
      /\ Permutation values (PyDict.keys (Field.enums f))
      /\ forall value d,
           In (value, Some d) (Field.enums f) ->
           (0 < String.length d <= 100)%nat ->
           In (Elem "enum" [("value", value); ("desc", d)] [])
              (children_of (field_element f)).
Proof.
  intros field_rows enum_rows t f Hin.
  destruct (parse_fields_invariants field_rows) as [T0 E0].
  destruct (parse_enums_spec enum_rows _ T0 E0) as (_ & _ & E & _).
  pose proof (E t f Hin) as ND.
  exists (Py.sorted String.leb (fun v => v) (PyDict.keys (Field.enums f))).
  split; [|split; [|split]].
  - simpl; rewrite enum_element_value, <- (map_map fst Some); f_equal.
    unfold PyDict.keys; rewrite sorted_map; reflexivity.
  - apply sorted_strings_ascending, ND.
  - apply (sorted_perm String.leb (fun v : string => v)).
  - intros value d Hd [Hpos Hlen]; simpl.
    apply in_map_iff; exists (value, Some d); split.
    + unfold enum_element; destruct d as [|c d]; [simpl in Hpos; lia|].
      unfold Py.truthy; rewrite (take_all 100 (String c d)) by exact Hlen.
      reflexivity.
    + apply (sorted_In String.leb fst); exact Hd.
Qed.

Lemma X12_enum_entries_in_value_order_witness :
  In (1, Field.mk 1 "Account" "STRING" [("A", Some "AccountA")])
    (parse_enums (Enums_xml scenario) (parse_fields (Fields_xml scenario)))
  /\ exists values,
       map (attr "value")
         (children_of
            (field_element (Field.mk 1 "Account" "STRING" [("A", Some "AccountA")])))
       = map Some values.
Proof.
  assert (Hin : In (1, Field.mk 1 "Account" "STRING" [("A", Some "AccountA")])
                  (parse_enums (Enums_xml scenario) (parse_fields (Fields_xml scenario))))
    by (left; reflexivity).
  split; [exact Hin|].
  destruct (X12_enum_entries_in_value_order (Fields_xml scenario) (Enums_xml scenario)
              1 _ Hin) as (values & Hv & _).
  exists values; exact Hv.
Defined.

(** ** The loop over the versions *)


Section DriverFacts.
Variable path_join : string -> string -> string.
Variable path_exists : string -> bool.
Variable tables_at : string -> Tables.
Variable pretty_xml : Element -> string.
Variables repo_path output_dir : string.


Let run := process_versions path_join path_exists tables_at pretty_xml
             repo_path output_dir.

Lemma process_versions_app vs1 vs2 w :
  run (vs1 ++ vs2) w
  = match run vs1 w with
    | (w1, Returned) => run vs2 w1
    | stopped => stopped
    end.
Proof.
  unfold run; revert w; induction vs1 as [|v vs1 IH]; intros w; simpl; [reflexivity|].
  destruct (process_version _ _ _ _ _ _ _ w) as [w1 [| |]]; auto.
Qed.

Lemma process_version_status version w :
  snd (process_version path_join path_exists tables_at pretty_xml repo_path version
         output_dir w) = Returned
  \/ snd (process_version path_join path_exists tables_at pretty_xml repo_path version
            output_dir w) = Uncaught.
Proof.
  unfold process_version.
  destruct (negb (path_exists _)); [left; reflexivity|].
  destruct (load_version _) as [[[fields st] groups]|]; [left | right]; reflexivity.
Qed.

Lemma process_versions_status versions w :
  snd (run versions w) = Returned \/ snd (run versions w) = Uncaught.
Proof.
  unfold run; revert w; induction versions as [|v vs IH]; intros w; simpl;
    [left; reflexivity|].
  pose proof (process_version_status v w) as Hs.
  destruct (process_version _ _ _ _ _ _ _ w) as [w1 [| |]]; simpl in *; auto.
Qed.

End DriverFacts.



(** X14.  A version that raises ends the loop: the versions after it are not
    processed, whatever they are, and nothing is added after the line that
    announces the version. *)
Theorem X14_raise_stops_the_run :
  forall path_join path_exists tables_at pretty_xml repo_path output_dir
         before version after w w1,
    process_versions path_join path_exists tables_at pretty_xml repo_path output_dir
      before w = (w1, Returned) ->
    path_exists (path_join (path_join repo_path version) "Base") = true ->
    load_version (tables_at (path_join (path_join repo_path version) "Base"))
    = ValueError ->
    process_versions path_join path_exists tables_at pretty_xml repo_path output_dir
      (before ++ version :: after) w
    = (print (nl ++ "Processing " ++ version ++ "...")%string w1, Uncaught).
Proof.
  intros path_join path_exists tables_at pretty_xml repo_path output_dir
    before version after w w1 Hbefore Hexists Hraise.
  rewrite process_versions_app, Hbefore; simpl.
  unfold process_version; rewrite Hexists, Hraise; reflexivity.
Qed.

Lemma X14_raise_stops_the_run_witness :
  process_versions sample_join sample_exists (fun _ => raising_tables) sample_pretty_xml
    "repo" "out" [] empty_world = (empty_world, Returned)
  /\ sample_exists "repo/FIX.4.4/Base" = true
  /\ load_version raising_tables = ValueError
  /\ process_versions sample_join sample_exists (fun _ => raising_tables)
       sample_pretty_xml "repo" "out" ([] ++ "FIX.4.4" :: ["FIX.4.2"]) empty_world
     = (print (nl ++ "Processing " ++ "FIX.4.4" ++ "...")%string empty_world, Uncaught).
Proof.
  split; [reflexivity|]; split; [reflexivity|]; split; [reflexivity|].
  apply (X14_raise_stops_the_run sample_join sample_exists (fun _ => raising_tables)
           sample_pretty_xml "repo" "out" [] "FIX.4.4" ["FIX.4.2"] empty_world
           empty_world); reflexivity.
Defined.

(** ** The end of [main] *)

Lemma process_version_world path_join path_exists tables_at pretty_xml
    repo_path output_dir version w :
  exists lines,
    stdout (fst (process_version path_join path_exists tables_at pretty_xml
                   repo_path version output_dir w)) = stdout w ++ lines
    /\ made_dirs (fst (process_version path_join path_exists tables_at pretty_xml
                         repo_path version output_dir w)) = made_dirs w.
Proof.
  unfold process_version.
  destruct (negb (path_exists _)); simpl; [eexists; split; reflexivity|].
  destruct (load_version _) as [[[fields st] groups]|]; simpl.
  - eexists; rewrite <- !app_assoc; split; reflexivity.
  - eexists; split; reflexivity.
Qed.

Lemma process_versions_world path_join path_exists tables_at pretty_xml
    repo_path output_dir versions :
  forall w,
  exists lines,
    stdout (fst (process_versions path_join path_exists tables_at pretty_xml
                   repo_path output_dir versions w)) = stdout w ++ lines
    /\ made_dirs (fst (process_versions path_join path_exists tables_at pretty_xml
                         repo_path output_dir versions w)) = made_dirs w.
Proof.
  induction versions as [|v vs IH]; intros w; simpl.
  - exists []; rewrite app_nil_r; auto.
  - destruct (process_version_world path_join path_exists tables_at pretty_xml
                repo_path output_dir v w) as (l1 & H1 & D1).
    destruct (process_version path_join path_exists tables_at pretty_xml repo_path v
                output_dir w) as [w1 s]; simpl in *.
    destruct s; try (exists l1; simpl; auto; fail).
    destruct (IH w1) as (l2 & H2 & D2).
    exists (l1 ++ l2); rewrite H2, H1, D2, D1, app_assoc; auto.
Qed.

(** X15.  [main] ends in one of three ways: normally, by [sys.exit(1)], or
    by an exception; never with another exit code.  When it ends normally
    the two arguments were there and the repository was found, the output
    directory was made, once, and the last line printed is the line
    [Done!]. *)
Theorem X15_main_ends :
  forall path_join basename path_exists tables_at pretty_xml argv w w' s,
    main path_join basename path_exists tables_at pretty_xml argv w = (w', s) ->
    (s = Returned \/ s = SystemExit 1 \/ s = Uncaught)
    /\ (s = Returned ->
        (3 <= List.length argv)%nat
        /\ path_exists (resolved_repo_path path_join basename path_exists argv) = true
        /\ made_dirs w' = made_dirs w ++ [nth 2 argv EmptyString]
        /\ exists lines, stdout w' = stdout w ++ lines ++ [(nl ++ "Done!")%string]).
Proof.
  intros path_join basename path_exists tables_at pretty_xml argv w w' s.
  unfold main; fold (resolved_repo_path path_join basename path_exists argv).
  destruct (List.length argv <? 3)%nat eqn:Hlen.
  - intros H; inversion H; subst; split; [auto | discriminate].
  - apply Nat.ltb_ge in Hlen.
    destruct (path_exists (resolved_repo_path path_join basename path_exists argv))
      eqn:Hex; simpl.
    + cbn [negb].
      match goal with
      | |- (match ?r with pair _ _ => _ end) = _ -> _ =>
          destruct r as [w1 s1] eqn:E
      end.
      match type of E with
      | process_versions _ _ _ _ ?rp ?od ?vs ?w0 = _ =>
          pose proof (process_versions_status path_join path_exists tables_at
                        pretty_xml rp od vs w0) as Hs;
          destruct (process_versions_world path_join path_exists tables_at
                      pretty_xml rp od vs w0) as (lines & Hout & Hdirs)
      end.
      rewrite E in Hs, Hout, Hdirs; simpl in Hs, Hout, Hdirs.
      destruct s1; intros H; inversion H; subst; clear H.
      * split; [auto|]; intros _.
        split; [exact Hlen|]; split; [reflexivity|]; split; [exact Hdirs|].
        exists lines; simpl; rewrite Hout, app_assoc; reflexivity.
      * destruct Hs; discriminate.
      * split; [auto | discriminate].
    + intros H; inversion H; subst; split; [auto | discriminate].
Qed.

Lemma X15_main_ends_witness :
  exists w',
    main sample_join sample_basename sample_exists (fun _ => scenario) sample_pretty_xml
      ["generate-fix-dictionary.py"; "repo"; "out"; "FIX.4.4"] empty_world
    = (w', Returned)
    /\ made_dirs w' = ["out"].
Proof.
  eexists; split; [vm_compute; reflexivity|].
  destruct (X15_main_ends sample_join sample_basename sample_exists (fun _ => scenario)
              sample_pretty_xml
              ["generate-fix-dictionary.py"; "repo"; "out"; "FIX.4.4"] empty_world
              _ _ eq_refl) as [_ H].
  destruct (H eq_refl) as (_ & _ & Hd & _); exact Hd.
Defined.

(** ** Blank lines *)

Lemma split_on_nonempty c s : split_on c s <> [].
Proof.
  destruct s as [|d s]; simpl; [discriminate|].
  destruct (Ascii.eqb d c); [discriminate|].
  destruct (split_on c s); discriminate.
Qed.

Lemma join_split s : String.concat nl (split_on newline s) = s.
Proof.
  induction s as [|d s IH]; [reflexivity|]; simpl.
  destruct (Ascii.eqb_spec d newline) as [->|Hne].
  - pose proof (split_on_nonempty newline s) as Hn.
    destruct (split_on newline s) as [|x rest]; [contradiction|].
    simpl String.concat; simpl in IH; rewrite IH; reflexivity.
  - pose proof (split_on_nonempty newline s) as Hn.
    destruct (split_on newline s) as [|x rest]; [contradiction|].
    destruct rest as [|y rest]; simpl in *; rewrite IH; reflexivity.
Qed.

Lemma split_on_line c x :
  ~ In c (list_ascii_of_string x) -> split_on c x = [x].
Proof.
  induction x as [|d x IH]; simpl; intros H; [reflexivity|].
  destruct (Ascii.eqb_spec d c) as [->|Hne]; [exfalso; apply H; left; reflexivity|].
  rewrite IH by (intros Hin; apply H; right; exact Hin); reflexivity.
Qed.

Lemma split_on_app c x t :
  ~ In c (list_ascii_of_string x) ->
  split_on c (x ++ String c t)%string = x :: split_on c t.
Proof.
  induction x as [|d x IH]; simpl; intros H.
  - rewrite Ascii.eqb_refl; reflexivity.
  - destruct (Ascii.eqb_spec d c) as [->|Hne]; [exfalso; apply H; left; reflexivity|].
    rewrite IH by (intros Hin; apply H; right; exact Hin); reflexivity.
Qed.

Lemma split_on_lines c s :
  Forall (fun line => ~ In c (list_ascii_of_string line)) (split_on c s).
Proof.
  induction s as [|d s IH]; simpl; [repeat constructor; intros []|].
  destruct (Ascii.eqb_spec d c) as [->|Hne].
  - constructor; [intros [] | exact IH].
  - destruct (split_on c s) as [|x rest]; [repeat constructor; intros [H|[]]; auto|].
    inversion IH; subst; constructor; [|assumption].
    simpl; intros [H|H]; auto.
Qed.

Lemma split_join l :
  l <> [] ->
  Forall (fun line => ~ In newline (list_ascii_of_string line)) l ->
  split_on newline (String.concat nl l) = l.
Proof.
  induction l as [|x l IH]; intros Hne F; [contradiction|].
  inversion F as [|? ? Hx Hl]; subst.
  destruct l as [|y l]; [apply split_on_line; exact Hx|].
  change (String.concat nl (x :: y :: l))
    with (x ++ String newline (String.concat nl (y :: l)))%string.
  rewrite split_on_app by exact Hx.
  rewrite IH by (discriminate || exact Hl); reflexivity.
Qed.

Lemma rstrip_blank s :
  rstrip s = EmptyString <-> forallb isspace (list_ascii_of_string s) = true.
Proof.
  induction s as [|c s IH]; simpl; [tauto|].
  destruct (rstrip s) as [|d r] eqn:R.
  - destruct (isspace c); simpl; [|split; discriminate].
    split; intros _; [apply IH; reflexivity | reflexivity].
  - split; [discriminate|].
    intros H; apply andb_true_iff in H as [_ H]; apply IH in H; discriminate.
Qed.

Lemma lstrip_blank s :
  forallb isspace (list_ascii_of_string (lstrip s))
  = forallb isspace (list_ascii_of_string s).
Proof.
  induction s as [|c s IH]; simpl; [reflexivity|].
  destruct (isspace c) eqn:E; simpl; [exact IH | rewrite E; reflexivity].
Qed.

(** A line is kept exactly when one of its characters is not white space. *)
Lemma strip_truthy line :
  Py.truthy (Some (strip line))
  = negb (forallb isspace (list_ascii_of_string line)).
Proof.
  unfold strip; rewrite <- lstrip_blank.
  pose proof (rstrip_blank (lstrip line)) as H.
  destruct (rstrip (lstrip line)) as [|c r]; simpl.
  - rewrite (proj1 H eq_refl); reflexivity.
  - destruct (forallb isspace (list_ascii_of_string (lstrip line)));
      [discriminate (proj2 H eq_refl) | reflexivity].
Qed.

Lemma filter_all {A} (p : A -> bool) l :
  (forall x, In x l -> p x = true) -> filter p l = l.
Proof.
  induction l as [|x l IH]; intros H; simpl; [reflexivity|].
  rewrite (H x (or_introl eq_refl)), IH by (intros; apply H; right; assumption).
  reflexivity.
Qed.

(** X16.  Taking out the blank lines.  The text is cut at its line feeds
    into lines that hold none, and joining them again gives the text back.
    The lines kept are exactly those with a character other than white
    space, all of them and in their order; the lines of the result are the
    lines kept (and the result is empty when there is none); no line of the
    result is blank; doing it twice is doing it once; and a text without a
    blank line comes out as it went in. *)
Theorem X16_blank_lines_removed :
  forall s,
    String.concat nl (split_on newline s) = s
    /\ Forall (fun line => ~ In newline (list_ascii_of_string line))
         (split_on newline s)
    /\ kept_lines s
       = filter (fun line => negb (forallb isspace (list_ascii_of_string line)))
           (split_on newline s)
    /\ (kept_lines s = [] -> remove_blank_lines s = EmptyString)
    /\ (kept_lines s <> [] ->
        split_on newline (remove_blank_lines s) = kept_lines s)
    /\ Forall (fun line => forallb isspace (list_ascii_of_string line) = false)
         (kept_lines s)
    /\ remove_blank_lines (remove_blank_lines s) = remove_blank_lines s
    /\ (Forall (fun line => forallb isspace (list_ascii_of_string line) = false)
          (split_on newline s) ->
        remove_blank_lines s = s).
Proof.
  intros s.
  assert (Hsplit : kept_lines s <> [] ->
                   split_on newline (remove_blank_lines s) = kept_lines s).
  { intros Hne; unfold remove_blank_lines; apply split_join; [exact Hne|].
    apply Forall_forall; intros line Hl; unfold kept_lines in Hl.
    apply filter_In in Hl as [Hl _].
    pose proof (split_on_lines newline s) as F; rewrite Forall_forall in F.
    apply F; exact Hl. }
  assert (Hkept : forall line, In line (kept_lines s) ->
                    Py.truthy (Some (strip line)) = true)
    by (intros line Hl; unfold kept_lines in Hl; apply filter_In in Hl as [_ Hl];
        exact Hl).
  split; [apply join_split|].
  split; [apply split_on_lines|].
  split; [unfold kept_lines; apply filter_ext; intros line; apply strip_truthy|].
  split; [intros H; unfold remove_blank_lines; rewrite H; reflexivity|].
  split; [exact Hsplit|]; split; [|split].
  - apply Forall_forall; intros line Hl; apply Hkept in Hl.
    rewrite strip_truthy in Hl; apply negb_true_iff; exact Hl.
  - assert (Hcase : kept_lines s = [] \/ kept_lines s <> [])
      by (destruct (kept_lines s); [left; reflexivity | right; discriminate]).
    destruct Hcase as [E|E].
    + assert (Hr : remove_blank_lines s = EmptyString)
        by (unfold remove_blank_lines; rewrite E; reflexivity).
      rewrite Hr; reflexivity.
    + change (String.concat nl
                (filter (fun line => Py.truthy (Some (strip line)))
                   (split_on newline (remove_blank_lines s)))
              = remove_blank_lines s).
      rewrite (Hsplit E), filter_all by exact Hkept; reflexivity.
  - intros F; unfold remove_blank_lines, kept_lines.
    rewrite filter_all; [apply join_split|].
    rewrite Forall_forall in F; intros line Hl.
    rewrite strip_truthy, (F line Hl); reflexivity.
Qed.

(** ** Which rows make the run raise *)

Lemma row_in_owner_items t content :
  In content (MsgContents_xml t) ->
  In (make_item content) (owner_items (loaded_contents t) (Row.ComponentID content)).
Proof.
  intros Hin; unfold loaded_contents; rewrite owner_items_sorted.
  apply (sorted_In Z.leb Item.position); unfold rows_of.
  apply in_map, filter_In; split; [exact Hin | apply String.eqb_refl].
Qed.

Lemma owner_items_entry cc k item :
  In item (owner_items cc k) -> In (k, owner_items cc k) cc.
Proof.
  unfold owner_items.
  destruct (PyDict.get String.eqb k cc) eqn:G; [|intros []].
  intros _; apply (get_In String.eqb String.eqb_eq); exact G.
Qed.

Lemma contents_plain_rows t :
  contents_plain (loaded_store t) (loaded_contents t)
  <-> forall content,
        In content (MsgContents_xml t) ->
        resolve_target (Row.ComponentID content) (loaded_store t) <> None ->
        plain_text (Row.TagText content) = true.
Proof.
  split.
  - intros C content Hin Hres.
    pose proof (row_in_owner_items t content Hin) as Hitem.
    exact (C _ _ _ (owner_items_entry _ _ _ Hitem) Hres Hitem).
  - intros Hrows k l item Hkl Hres Hitem.
    assert (ND : NoDup (PyDict.keys (loaded_contents t)))
      by (unfold loaded_contents; rewrite sort_contents_keys; apply group_contents_spec).
    pose proof (In_get String.eqb String.eqb_eq _ _ _ ND Hkl) as G.
    assert (Hl : l = owner_items (loaded_contents t) k)
      by (unfold owner_items; rewrite G; reflexivity).
    subst l; unfold loaded_contents in Hitem; rewrite owner_items_sorted in Hitem.
    apply (proj1 (sorted_In Z.leb Item.position _ _)) in Hitem.
    unfold rows_of in Hitem; apply in_map_iff in Hitem as (content & <- & Hc).
    apply filter_In in Hc as [Hc Hk]; apply String.eqb_eq in Hk; subst k.
    apply Hrows; assumption.
Qed.

(** X17.  Which rows make the run of a version raise, once the tables are
    read.  A row whose owner is a message or a component and whose tag-text
    is numeric for [isdigit] without being made of decimal digits only
    makes it raise.  The run does not raise when every row under a message
    or a component whose tag-text is numeric for [isdigit] is made of
    decimal digits only, at most 4300 of them (the number of digits that
    [int] reads in every interpreter).  Rows under an owner that is neither
    a message nor a component do not count, either way. *)
Theorem X17_which_rows_raise :
  forall t,
    ((exists content,
        In content (MsgContents_xml t)
        /\ resolve_target (Row.ComponentID content) (loaded_store t) <> None
        /\ Py.isdigit (Row.TagText content) = true
        /\ forallb Py.is_decimal (Py.chars (Row.TagText content)) = false) ->
     load_version t = ValueError)
    /\ ((forall content,
           In content (MsgContents_xml t) ->
           resolve_target (Row.ComponentID content) (loaded_store t) <> None ->
           Py.isdigit (Row.TagText content) = true ->
           forallb Py.is_decimal (Py.chars (Row.TagText content)) = true
           /\ (String.length (Row.TagText content) <= 4300)%nat) ->
        exists loaded, load_version t = Ok loaded).
Proof.
  intros t; split.
  - intros (content & Hin & Hres & Hd & Hp).
    destruct (load_version t) as [loaded|] eqn:E; [|reflexivity].
    assert (C : contents_plain (loaded_store t) (loaded_contents t))
      by (apply load_version_Ok_iff; eauto).
    pose proof (proj1 (contents_plain_rows t) C content Hin Hres) as Hplain.
    unfold plain_text in Hplain; rewrite Hd, Hp in Hplain; discriminate.
  - intros Hrows; apply load_version_Ok_iff, contents_plain_rows.
    intros content Hin Hres; unfold plain_text.
    destruct (Py.isdigit (Row.TagText content)) eqn:Hd; [|reflexivity].
    destruct (Hrows content Hin Hres Hd) as [Hp _]; rewrite Hp; reflexivity.
Qed.

Lemma X17_which_rows_raise_witness :
  load_version raising_tables = ValueError
  /\ exists loaded, load_version scenario = Ok loaded.
Proof.
  split.
  - apply (proj1 (X17_which_rows_raise raising_tables)).
    exists (Row.mkMsgContent "10" superscript_two (Some 0) (Some 1)).
    split; [left; reflexivity|].
    split; [vm_compute; discriminate|].
    split; reflexivity.
  - apply (proj2 (X17_which_rows_raise scenario)).
    intros content Hin _ Hd.
    destruct Hin as [<-|[<-|[<-|[]]]]; simpl in Hd; try discriminate;
      (split; [reflexivity | simpl; lia]).
Defined.

(** ** Rows that surface as group references *)

Lemma loaded_message_lists t fields st groups k m :
  load_version t = Ok (fields, st, groups) ->
  PyDict.get String.eqb k (messages_of st) = Some m ->
  Message.tags m = flat_map (item_tag_refs fields) (owner_items (loaded_contents t) k)
  /\ Message.groups m
     = flat_map (item_group_refs fields (parse_components (Components_xml t)))
         (owner_items (loaded_contents t) k).
Proof.
  intros H Hm.
  apply load_version_Ok_parts in H as (_ & A & _).
  assert (ND : NoDup (PyDict.keys (loaded_contents t)))
    by (unfold loaded_contents; rewrite sort_contents_keys; apply group_contents_spec).
  destruct (associate_owners_effect _ _ _ _ ND A) as (_ & _ & _ & Gm & _).
  rewrite Gm in Hm; simpl in Hm.
  destruct (load_dict_spec String.eqb String.eqb_eq string_dec Row.m_ComponentID
              (fun r => Message.mk (Row.m_ComponentID r) (Row.m_MsgType r)
                          (Row.m_Name r) [] []) (Messages_xml t)) as [G0 _].
  fold (parse_messages (Messages_xml t)) in G0; rewrite G0 in Hm.
  destruct (find _ _) as [row|]; [|discriminate].
  simpl in Hm; inversion Hm; subst m; simpl; auto.
Qed.

(** X18.  A row of a message surfaces in the document as follows.  When its
    tag-text is neither an envelope placeholder nor numeric for [isdigit],
    is the declared name of a component, and a group of that name was
    derived, the message element has a [groupRef] of that name.  When its
    tag-text is numeric, reads as the tag of a loaded field of the count
    type, and some group has that count tag, the message element has a
    [groupRef] to a group with that count tag. *)
Theorem X18_rows_surface_as_group_references :
  forall t fields st groups content m,
    load_version t = Ok (fields, st, groups) ->
    In content (MsgContents_xml t) ->
    PyDict.get String.eqb (Row.ComponentID content) (messages_of st) = Some m ->
    let text := Row.TagText content in
    let msg_el := message_element groups m in
    (is_envelope text = false ->
     Py.isdigit text = false ->
     resolve_name (parse_components (Components_xml t)) text <> None ->
     PyDict.mem String.eqb text groups = true ->
     In (group_ref_element text) (children_of msg_el))
    /\ (forall c f name g,
          Py.isdigit text = true ->
          Py.int text = Ok c ->
          PyDict.get Z.eqb c fields = Some f ->
          Field.type f = "NumInGroup" ->
          In (name, g) groups ->
          Group.countTag g = c ->
          exists name' g',
            In (name', g') groups
            /\ Group.countTag g' = c
            /\ In (group_ref_element name') (children_of msg_el)).
Proof.
  intros t fields st groups content m H Hin Hm text msg_el.
  destruct (loaded_message_lists _ _ _ _ _ _ H Hm) as [_ Hg].
  pose proof (row_in_owner_items t content Hin) as Hitem.
  assert (Href : forall info el,
             In info (item_group_refs fields (parse_components (Components_xml t))
                        (make_item content)) ->
             In el (group_ref_elements groups info) ->
             In el (children_of msg_el)).
  { intros info el Hinfo Hel; unfold msg_el; simpl.
    apply in_or_app; right; apply in_flat_map; exists info; split; [|exact Hel].
    rewrite Hg; apply in_flat_map; exists (make_item content); auto. }
  split.
  - intros Henv Hd Hres Hmem.
    destruct (resolve_name (parse_components (Components_xml t)) text) as [comp_id|] eqn:R;
      [|contradiction].
    apply (Href (ComponentRef comp_id text (Item.indent (make_item content)))).
    + unfold item_group_refs; simpl; fold text; rewrite Henv, Hd, R; left; reflexivity.
    + simpl; rewrite Hmem; left; reflexivity.
  - intros c f name g Hd Hint Hf Hty Hgr Hc.
    destruct (find (fun entry => Group.countTag (snd entry) =? c) groups)
      as [[name' g']|] eqn:F.
    + pose proof (find_some _ _ F) as [Hin' Hc']; simpl in Hc'.
      apply Z.eqb_eq in Hc'.
      exists name', g'; split; [exact Hin'|]; split; [exact Hc'|].
      apply (Href (CountRef c (Field.name f) (Item.indent (make_item content)))).
      * unfold item_group_refs, row_tag, PyDict.mem; simpl; fold text.
        assert (Henv : is_envelope text = false).
        { destruct (is_envelope text) eqn:Env; [|reflexivity].
          rewrite (envelope_not_digit _ Env) in Hd; discriminate. }
        rewrite Henv, Hd, Hint, Hf; simpl; rewrite Hf.
        apply String.eqb_eq in Hty; rewrite Hty; left; reflexivity.
      * simpl; rewrite F; left; reflexivity.
    + exfalso; pose proof (find_none _ _ F (name, g) Hgr) as Hn; simpl in Hn.
      apply Z.eqb_neq in Hn; contradiction.
Qed.

Lemma X18_rows_surface_as_group_references_witness :
  exists fields st groups,
    load_version scenario = Ok (fields, st, groups)
    /\ In (Row.mkMsgContent "10" "OrdersGroup" (Some 0) (Some 1))
          (MsgContents_xml scenario)
    /\ PyDict.get String.eqb "10" (messages_of st)
       = Some (Message.mk "10" "D" "NewOrderSingle" []
                 [ComponentRef "20" "OrdersGroup" 0])
    /\ In (group_ref_element "OrdersGroup")
          (children_of
             (message_element groups
                (Message.mk "10" "D" "NewOrderSingle" []
                   [ComponentRef "20" "OrdersGroup" 0]))).
Proof.
  eexists _, _, _; split; [vm_compute; reflexivity|].
  split; [left; reflexivity|]; split; [reflexivity|].
  refine (proj1 (X18_rows_surface_as_group_references scenario _ _ _
                   (Row.mkMsgContent "10" "OrdersGroup" (Some 0) (Some 1))
                   (Message.mk "10" "D" "NewOrderSingle" []
                      [ComponentRef "20" "OrdersGroup" 0])
                   eq_refl (or_introl eq_refl) eq_refl)
                eq_refl eq_refl _ eq_refl).
  discriminate.
Defined.

(** ** A group in terms of the rows *)

(** X20.  A derived group read off the content table: it belongs to a
    repeating component of its name; in the component's rows, taken in
    position order, the first row of the count type gives the count tag;
    and the member tags are the tags of all the other rows that name a
    loaded field at depth one or more, those before the count row first,
    each part in position order. *)
Theorem X20_group_from_the_rows :
  forall t fields st groups name g,
    load_version t = Ok (fields, st, groups) ->
    In (name, g) groups ->
    exists comp_id comp pre x post,
      In (comp_id, comp) (components_of st)
      /\ Component.name comp = name
      /\ Component.type comp = "BlockRepeating"
      /\ sort_by_position (rows_of comp_id (MsgContents_xml t)) = pre ++ x :: post
      /\ Forall (fun item => is_count_row fields item = false) pre
      /\ is_count_row fields x = true
      /\ row_tag fields x = Some (Group.countTag g)
      /\ Group.memberTags g = members_of fields pre ++ members_of fields post.
Proof.
  intros t fields st groups name g H Hin.
  apply load_version_Ok_parts in H as (_ & _ & Hid).
  destruct (identify_sound _ _ _ _ _ _ Hid Hin)
    as (comp_id & comp & I & N & T & _ & contents & s & G & Hs & C & _ & M).
  destruct (scan_closed_form fields contents scan_start s eq_refl Hs)
    as [(C' & _)|(pre & x & post & c & Hsplit & F & X & R & C' & M')]; [congruence|].
  assert (c = Group.countTag g) by congruence; subst c.
  exists comp_id, comp, pre, x, post.
  split; [exact I|]; split; [symmetry; exact N|]; split; [exact T|].
  split; [|split; [exact F|]; split; [exact X|]; split; [exact R|]].
  - rewrite <- Hsplit.
    pose proof (owner_items_sorted (MsgContents_xml t) comp_id) as Ho.
    unfold owner_items in Ho; fold (loaded_contents t) in Ho; rewrite G in Ho.
    symmetry; exact Ho.
  - rewrite <- M, M'; reflexivity.
Qed.

Lemma X20_group_from_the_rows_witness :
  exists fields st,
    load_version scenario = Ok (fields, st, [("OrdersGroup", scenario_group)])
    /\ In ("OrdersGroup", scenario_group) [("OrdersGroup", scenario_group)]
    /\ exists comp_id pre x post,
         sort_by_position (rows_of comp_id (MsgContents_xml scenario))
         = pre ++ x :: post
         /\ row_tag fields x = Some 2.
Proof.
  eexists _, _; split; [vm_compute; reflexivity|].
  split; [left; reflexivity|].
  destruct (X20_group_from_the_rows scenario _ _ _ "OrdersGroup" scenario_group
              eq_refl (or_introl eq_refl))
    as (comp_id & comp & pre & x & post & _ & _ & _ & Hs & _ & _ & Hr & _).
  exists comp_id, pre, x, post; split; [exact Hs | exact Hr].
Defined.

(** ** The order of the content table *)

Lemma contents_plain_items st cc :
  NoDup (PyDict.keys cc) ->
  contents_plain st cc
  <-> forall k item,
        In item (owner_items cc k) ->
        resolve_target k st <> None ->
        plain_text (Item.tagText item) = true.
Proof.
  intros ND; split.
  - intros C k item Hitem Hres.
    exact (C _ _ _ (owner_items_entry _ _ _ Hitem) Hres Hitem).
  - intros Hitems k l item Hkl Hres Hitem.
    apply (Hitems k item); [|exact Hres].
    unfold owner_items.
    rewrite (In_get String.eqb String.eqb_eq _ _ _ ND Hkl); exact Hitem.
Qed.

Lemma associate_same_items fields cc1 cc2 st0 st1 st2 :
  NoDup (PyDict.keys cc1) ->
  NoDup (PyDict.keys cc2) ->
  NoDup (PyDict.keys (messages_of st0)) ->
  NoDup (PyDict.keys (components_of st0)) ->
  (forall k, owner_items cc2 k = owner_items cc1 k) ->
  for_each (associate_owner fields) cc1 st0 = Ok st1 ->
  for_each (associate_owner fields) cc2 st0 = Ok st2 ->
  st2 = st1.
Proof.
  intros ND1 ND2 NDm NDc Hsame H1 H2.
  destruct (associate_owners_effect _ _ _ _ ND1 H1) as (Km & Kc & _ & Gm & Gc).
  destruct (associate_owners_effect _ _ _ _ ND2 H2) as (Km' & Kc' & _ & Gm' & Gc').
  destruct st1 as [ms cs], st2 as [ms' cs']; simpl in *; f_equal.
  - apply (dict_ext String.eqb String.eqb_eq);
      [rewrite Km'; exact NDm | congruence |].
    intros k; rewrite Gm, Gm', Hsame; reflexivity.
  - apply (dict_ext String.eqb String.eqb_eq);
      [rewrite Kc'; exact NDc | congruence |].
    intros k; rewrite Gc, Gc', Hsame; reflexivity.
Qed.

Lemma identify_same_items components cc1 cc2 fields :
  (forall k, owner_items cc2 k = owner_items cc1 k) ->
  identify_repeating_groups components cc2 fields
  = identify_repeating_groups components cc1 fields.
Proof.
  intros Hsame; unfold identify_repeating_groups; apply for_each_ext.
  intros groups [comp_id comp]; rewrite !identify_component_items, Hsame.
  reflexivity.
Qed.

Lemma loaded_contents_NoDup t : NoDup (PyDict.keys (loaded_contents t)).
Proof.
  unfold loaded_contents; rewrite sort_contents_keys; apply group_contents_spec.
Qed.

(** Two content tables that give every owner the same rows in the same
    order give the same run. *)
Lemma load_version_same_items t rows2 :
  (forall k,
     owner_items (loaded_contents (with_contents t rows2)) k
     = owner_items (loaded_contents t) k) ->
  load_version (with_contents t rows2) = load_version t.
Proof.
  intros Hsame.
  assert (Hplain : contents_plain (loaded_store t) (loaded_contents t)
                   <-> contents_plain (loaded_store (with_contents t rows2))
                         (loaded_contents (with_contents t rows2))).
  { change (loaded_store (with_contents t rows2)) with (loaded_store t).
    rewrite !contents_plain_items by apply loaded_contents_NoDup.
    split; intros C k item Hitem; [rewrite Hsame in Hitem | rewrite <- Hsame in Hitem];
      apply C; exact Hitem. }
  destruct (load_version t) as [[[fields st] groups]|] eqn:E.
  - assert (C : contents_plain (loaded_store t) (loaded_contents t))
      by (apply load_version_Ok_iff; eauto).
    apply Hplain, load_version_Ok_iff in C as [[[fields' st'] groups'] E'].
    rewrite E'.
    apply load_version_Ok_parts in E as (-> & A & G).
    apply load_version_Ok_parts in E' as (-> & A' & G').
    simpl in A', G'.
    change (loaded_store (with_contents t rows2)) with (loaded_store t) in A'.
    destruct (loaded_store_NoDup t) as [NDm NDc].
    assert (st' = st)
      by (eapply (associate_same_items _ (loaded_contents t)
                    (loaded_contents (with_contents t rows2)));
          eauto using loaded_contents_NoDup).
    subst st'.
    rewrite (identify_same_items _ _ _ _ Hsame), G in G'; inversion G'; reflexivity.
  - destruct (load_version (with_contents t rows2)) as [loaded|] eqn:E'; [|reflexivity].
    assert (C : contents_plain (loaded_store t) (loaded_contents t))
      by (apply Hplain, load_version_Ok_iff; eauto).
    apply load_version_Ok_iff in C as [loaded' E'']; congruence.
Qed.

(** X21.  The order of the rows in the content table does not matter as
    long as no owner has two rows of one position: a table with the same
    rows in any other order gives the same records, the same groups and the
    same document, and raises on the same inputs. *)
Theorem X21_row_order_does_not_matter :
  forall t rows2 version,
    Permutation (MsgContents_xml t) rows2 ->
    (forall k, NoDup (map Item.position (rows_of k (MsgContents_xml t)))) ->
    load_version (with_contents t rows2) = load_version t
    /\ version_document (with_contents t rows2) version = version_document t version.
Proof.
  intros t rows2 version Hperm Hnd.
  assert (Hload : load_version (with_contents t rows2) = load_version t).
  { apply load_version_same_items; intros k.
    unfold loaded_contents; simpl; rewrite !owner_items_sorted.
    symmetry; apply sorted_order_independent; [apply Hnd|].
    unfold rows_of; apply Permutation_map, filter_Permutation, Hperm. }
  split; [exact Hload|].
  unfold version_document; rewrite Hload; reflexivity.
Qed.

Lemma NoDup_map_filter {A B} (f : A -> B) (p : A -> bool) l :
  NoDup (map f l) -> NoDup (map f (filter p l)).
Proof.
  induction l as [|x l IH]; simpl; intros ND; [constructor|].
  inversion ND as [|? ? Hnin ND']; subst.
  destruct (p x); simpl; [|auto].
  constructor; [|auto].
  intros Hin; apply Hnin.
  apply in_map_iff in Hin as (y & Hy & Hin); apply filter_In in Hin as [Hin _].
  rewrite <- Hy; apply in_map; exact Hin.
Qed.

Lemma X21_row_order_does_not_matter_witness :
  Permutation (MsgContents_xml shuffled_tables) (rev (MsgContents_xml shuffled_tables))
  /\ load_version (with_contents shuffled_tables (rev (MsgContents_xml shuffled_tables)))
     = load_version shuffled_tables.
Proof.
  assert (Hp : Permutation (MsgContents_xml shuffled_tables)
                 (rev (MsgContents_xml shuffled_tables)))
    by apply Permutation_rev.
  split; [exact Hp|].
  refine (proj1 (X21_row_order_does_not_matter shuffled_tables
                   (rev (MsgContents_xml shuffled_tables)) "FIX.4.4" Hp _)).
  intros k; unfold rows_of; rewrite map_map.
  apply NoDup_map_filter; simpl.
  repeat constructor; simpl; intuition discriminate.
Defined.

(** ** One row, at most one reference *)

Lemma item_refs_at_most_one fields components item :
  (List.length (item_tag_refs fields item)
   + List.length (item_group_refs fields components item) <= 1)%nat.
Proof.
  unfold item_tag_refs, item_group_refs, is_count_row, row_tag.
  destruct (is_envelope (Item.tagText item)) eqn:Env.
  - rewrite (envelope_not_digit _ Env); simpl; lia.
  - destruct (Py.isdigit (Item.tagText item)).
    + destruct (Py.int (Item.tagText item)) as [tag|]; [|simpl; lia].
      unfold PyDict.mem.
      destruct (PyDict.get Z.eqb tag fields) as [f|] eqn:G; [|simpl; lia].
      rewrite G.
      destruct (String.eqb (Field.type f) "NumInGroup"); simpl; lia.
    + destruct (resolve_name components (Item.tagText item)); simpl; lia.
Qed.

Lemma refs_at_most_rows fields components l :
  (List.length (flat_map (item_tag_refs fields) l)
   + List.length (flat_map (item_group_refs fields components) l)
   <= List.length l)%nat.
Proof.
  induction l as [|item l IH]; simpl; [lia|].
  rewrite !length_app.
  pose proof (item_refs_at_most_one fields components item); lia.
Qed.

(** X19.  A row gives a message at most one reference, a scalar tag or a
    group reference and never both: the two lists of a loaded message
    together are no longer than the message has rows in the content
    table. *)
Theorem X19_at_most_one_reference_per_row :
  forall t fields st groups k m,
    load_version t = Ok (fields, st, groups) ->
    PyDict.get String.eqb k (messages_of st) = Some m ->
    (List.length (Message.tags m) + List.length (Message.groups m)
     <= List.length (rows_of k (MsgContents_xml t)))%nat.
Proof.
  intros t fields st groups k m H Hm.
  destruct (loaded_message_lists _ _ _ _ _ _ H Hm) as [-> ->].
  unfold loaded_contents; rewrite owner_items_sorted.
  rewrite <- (Permutation_length (sorted_perm Z.leb Item.position
                                    (rows_of k (MsgContents_xml t)))).
  apply refs_at_most_rows.
Qed.

Lemma X19_at_most_one_reference_per_row_witness :
  exists fields st groups,
    load_version scenario = Ok (fields, st, groups)
    /\ PyDict.get String.eqb "10" (messages_of st)
       = Some (Message.mk "10" "D" "NewOrderSingle" []
                 [ComponentRef "20" "OrdersGroup" 0])
    /\ (0 + 1 <= List.length (rows_of "10" (MsgContents_xml scenario)))%nat.
Proof.
  eexists _, _, _; split; [vm_compute; reflexivity|].
  split; [reflexivity|].
  exact (X19_at_most_one_reference_per_row scenario _ _ _ "10"
           (Message.mk "10" "D" "NewOrderSingle" []
              [ComponentRef "20" "OrdersGroup" 0]) eq_refl eq_refl).
Defined.

(** ** Rows of owners that are not declared *)

Lemma associate_known_items fields cc1 cc2 st0 st1 :
  NoDup (PyDict.keys cc1) ->
  NoDup (PyDict.keys cc2) ->
  NoDup (PyDict.keys (messages_of st0)) ->
  NoDup (PyDict.keys (components_of st0)) ->
  (forall k, resolve_target k st0 <> None -> owner_items cc2 k = owner_items cc1 k) ->
  for_each (associate_owner fields) cc1 st0 = Ok st1 ->
  for_each (associate_owner fields) cc2 st0 = Ok st1.
Proof.
  intros ND1 ND2 NDm NDc Hsame H1.
  assert (C1 : contents_plain st0 cc1)
    by (eapply associate_owners_Ok_plain; exact H1).
  assert (C2 : contents_plain st0 cc2).
  { apply (contents_plain_items _ _ ND2); intros k item Hitem Hres.
    rewrite (Hsame k Hres) in Hitem.
    exact (proj1 (contents_plain_items _ _ ND1) C1 k item Hitem Hres). }
  destruct (associate_owners_total fields _ _ C2) as [st2 H2].
  rewrite H2; f_equal.
  destruct (associate_owners_effect _ _ _ _ ND1 H1) as (Km & Kc & _ & Gm & Gc).
  destruct (associate_owners_effect _ _ _ _ ND2 H2) as (Km' & Kc' & _ & Gm' & Gc').
  destruct st1 as [ms cs], st2 as [ms' cs']; simpl in *; f_equal.
  - apply (dict_ext String.eqb String.eqb_eq);
      [rewrite Km'; exact NDm | congruence |].
    intros k; rewrite Gm, Gm'.
    destruct (PyDict.get String.eqb k (messages_of st0)) eqn:G; [|reflexivity].
    rewrite Hsame; [reflexivity|].
    unfold resolve_target; rewrite G; discriminate.
  - apply (dict_ext String.eqb String.eqb_eq);
      [rewrite Kc'; exact NDc | congruence |].
    intros k; rewrite Gc, Gc'.
    destruct (PyDict.get String.eqb k (components_of st0)) eqn:G; [|reflexivity].
    rewrite Hsame; [reflexivity|].
    unfold resolve_target; rewrite G.
    destruct (PyDict.get String.eqb k (messages_of st0)); discriminate.
Qed.

(** X5.  The associator adds no record, drops none and reorders none, and it
    changes nothing of a record but its two lists, which grow at the end by
    the references of the record's own rows, in position order: those of a
    message always, those of a component unless its identifier is a
    message's too.  The rows of an owner that is neither a message nor a
    component leave no trace: a content table that has the same rows under
    every message and component, whatever else it holds, gives the same
    records. *)
Theorem X5_associator_only_appends :
  forall rows messages components fields st' cc,
    parse_msg_contents rows (mkStore messages components) fields = Ok (st', cc) ->
    let items k := sort_by_position (rows_of k rows) in
    let ts k := flat_map (item_tag_refs fields) (items k) in
    let gs k := flat_map (item_group_refs fields components) (items k) in
    PyDict.keys (messages_of st') = PyDict.keys messages
    /\ PyDict.keys (components_of st') = PyDict.keys components
    /\ (forall k,
          PyDict.get String.eqb k (messages_of st')
          = option_map
              (fun m =>
                 Message.mk (Message.componentId m) (Message.msgType m) (Message.name m)
                   (Message.tags m ++ ts k) (Message.groups m ++ gs k))
              (PyDict.get String.eqb k messages))
    /\ (forall k,
          PyDict.get String.eqb k (components_of st')
          = option_map
              (fun c =>
                 if PyDict.mem String.eqb k messages then c
                 else Component.mk (Component.componentId c) (Component.name c)
                        (Component.type c) (Component.tags c ++ ts k)
                        (Component.groups c ++ gs k))
              (PyDict.get String.eqb k components))
    /\ (NoDup (PyDict.keys messages) ->
        NoDup (PyDict.keys components) ->
        forall rows2,
          (forall k,
             In k (PyDict.keys messages) \/ In k (PyDict.keys components) ->
             rows_of k rows2 = rows_of k rows) ->
          exists cc2,
            parse_msg_contents rows2 (mkStore messages components) fields
            = Ok (st', cc2)).
Proof.
  intros rows messages components fields st' cc H items ts gs.
  apply parse_msg_contents_Ok in H as (-> & ND & H).
  destruct (associate_owners_effect _ _ _ _ ND H) as (Km & Kc & _ & Gm & Gc).
  simpl in Km, Kc, Gm, Gc.
  split; [exact Km|]; split; [exact Kc|].
  split; [intros k; rewrite Gm, owner_items_sorted; reflexivity|].
  split; [intros k; rewrite Gc, owner_items_sorted; reflexivity|].
  intros NDm NDc rows2 Hrows.
  assert (ND2 : NoDup (PyDict.keys (sort_contents (group_contents rows2))))
    by (rewrite sort_contents_keys; apply group_contents_spec).
  assert (H2 : for_each (associate_owner fields)
                 (sort_contents (group_contents rows2))
                 (mkStore messages components) = Ok st').
  { apply (associate_known_items fields (sort_contents (group_contents rows)));
      try assumption.
    intros k Hk; rewrite !owner_items_sorted.
    apply resolve_target_keys in Hk; simpl in Hk.
    rewrite (Hrows k Hk); reflexivity. }
  unfold parse_msg_contents; rewrite H2; simpl; eexists; reflexivity.
Qed.

Lemma X5_associator_only_appends_witness :
  exists st' cc,
    parse_msg_contents (MsgContents_xml scenario)
      (mkStore (parse_messages (Messages_xml scenario))
         (parse_components (Components_xml scenario)))
      scenario_fields = Ok (st', cc)
    /\ PyDict.keys (messages_of st') = ["10"]
    /\ PyDict.keys (components_of st') = ["20"]
    /\ exists cc2,
         parse_msg_contents
           (MsgContents_xml scenario
            ++ [Row.mkMsgContent "99" superscript_two None None])
           (mkStore (parse_messages (Messages_xml scenario))
              (parse_components (Components_xml scenario)))
           scenario_fields = Ok (st', cc2).
Proof.
  eexists _, _; split; [vm_compute; reflexivity|].
  pose proof (X5_associator_only_appends (MsgContents_xml scenario)
                (parse_messages (Messages_xml scenario))
                (parse_components (Components_xml scenario))
                scenario_fields _ _ eq_refl) as H.
  cbv zeta in H; destruct H as (Km & Kc & _ & _ & Hno).
  split; [exact Km|]; split; [exact Kc|].
  apply Hno.
  - simpl; constructor; [intros []|constructor].
  - simpl; constructor; [intros []|constructor].
  - intros k Hk; rewrite rows_of_snoc.
    destruct (String.eqb
                (Row.ComponentID (Row.mkMsgContent "99" superscript_two None None)) k)
      eqn:E; [|apply app_nil_r].
    apply String.eqb_eq in E; subst k; exfalso.
    simpl in Hk; destruct Hk as [[Hk|[]]|[Hk|[]]]; discriminate.
Defined.
